(** * The canvas view of cvat-canvas: reconciliation, activation and modes

    A shallow embedding of [cvat-canvas/src/typescript/canvasView.ts]
    (class [CanvasViewImpl]).  The view keeps three indexes keyed by the
    client identifier of an annotated object ([svgShapes], [svgTexts],
    [drawnStates]), one active element, and it reads and writes the
    interaction mode that lives in the controller.

    What is modelled and how:
    - the fields of the class that the code reads back are fields of
      [CanvasView]; the SVG/DOM side (classes, attributes, listeners) is
      write-only for the functions below, so every DOM operation, every
      dispatched [CustomEvent], every call into a gesture handler and every
      call into the controller is appended to an effect log, in program
      order;
    - a dereference of [undefined] (for instance [shape.removeClass] when
      [svgShapes[clientID]] is missing) is an uncaught [TypeError]; functions
      that can throw return a [Result];
    - coordinates are integers (pixels), rotation angles are rationals. *)

From Stdlib Require Import ZArith QArith Qround Qminmax Reals Psatz Lia.
From stdpp Require Import base gmap list sorting strings.
From Equations Require Import Equations.

(** ** Exceptions *)

Inductive Exception := TypeError | RangeError.

Inductive Result (A : Type) :=
| OK (a : A)
| Throw (e : Exception).
Arguments OK {A} a.
Arguments Throw {A} e.

Definition bind {A B} (r : Result A) (k : A -> Result B) : Result B :=
  match r with
  | OK a => k a
  | Throw e => Throw e
  end.

Notation "x <~ e ;; k" := (bind e (fun x => k))
  (at level 100, e at next level, right associativity).

(** ** Object states *)

Inductive ShapeType :=
| Rectangle | Polygon | Polyline | Points | Ellipse | Cuboid | Skeleton
| Unsupported.   (* any other string, for instance a shape kind the view cannot draw *)

#[global] Instance ShapeType_eq_dec : EqDecision ShapeType.
Proof. solve_decision. Defined.

(** The scalar fields of an object state that [saveState] copies. *)
Record Fields := mkFields {
  f_clientID : N;
  f_shapeType : ShapeType;
  f_points : list Z;
  f_rotation : Q;
  f_occluded : bool;
  f_hidden : bool;
  f_outside : bool;
  f_lock : bool;
  f_pinned : bool;
  f_zOrder : Z;
  f_updated : Z;
  f_frame : Z;
  f_labelID : N;
  f_color : string;
  f_groupID : N;
  f_groupColor : string;
  f_descriptions : list string;
  f_attributes : gmap N string
}.

(** An object state; [elements] is only meaningful for skeletons. *)
#[local] Unset Elimination Schemes.
Inductive ObjectState :=
| State (fields : Fields) (els : list ObjectState).
#[local] Set Elimination Schemes.

Definition fields (s : ObjectState) : Fields := let (f, _) := s in f.
Definition elementsOf (s : ObjectState) : list ObjectState := let (_, e) := s in e.

Definition clientID s := f_clientID (fields s).
Definition shapeType s := f_shapeType (fields s).
Definition pointsOf s := f_points (fields s).
Definition rotation s := f_rotation (fields s).
Definition occluded s := f_occluded (fields s).
Definition hidden s := f_hidden (fields s).
Definition outside s := f_outside (fields s).
Definition lock s := f_lock (fields s).
Definition pinned s := f_pinned (fields s).
Definition zOrder s := f_zOrder (fields s).
Definition updated s := f_updated (fields s).
Definition frame s := f_frame (fields s).
Definition labelID s := f_labelID (fields s).
Definition color s := f_color (fields s).
Definition groupID s := f_groupID (fields s).
Definition groupColor s := f_groupColor (fields s).
Definition descriptions s := f_descriptions (fields s).
Definition attributes s := f_attributes (fields s).

(** A drawn state is the snapshot [saveState] takes of an object state. *)
Abbreviation DrawnState := ObjectState.

(** [saveState]: a copy of the fields; the elements are saved recursively
    for a skeleton and are [null] otherwise. *)
Fixpoint saveState (state : ObjectState) : DrawnState :=
  match state with
  | State f els =>
      State f (match f_shapeType f with
               | Skeleton => List.map saveState els
               | _ => []
               end)
  end.

(** JavaScript truthiness of a number. *)
Definition truthy (q : Q) : bool := negb (Qeq_bool q 0).

(** ** The mode, the active element, the controller *)

Module Mode.
Inductive t :=
| IDLE | DRAW | EDIT | MERGE | SPLIT | GROUP | DRAG | RESIZE
| DRAG_CANVAS | ZOOM_CANVAS | INTERACT | SELECT_REGION.
#[global] Instance eq_dec : EqDecision t.
Proof. solve_decision. Defined.
End Mode.

Module UpdateReasons.
Inductive t :=
| IMAGE_CHANGED | IMAGE_ZOOMED | IMAGE_FITTED | IMAGE_MOVED | GRID_UPDATED
| ISSUE_REGIONS_UPDATED | OBJECTS_UPDATED | SHAPE_ACTIVATED | SHAPE_FOCUSED
| FITTED_CANVAS | INTERACT | DRAW | MERGE | SPLIT | GROUP | SELECT | CANCEL
| BITMAP | SELECT_REGION | DRAG_CANVAS | ZOOM_CANVAS | CONFIG_UPDATED
| DATA_FAILED | DESTROY.
#[global] Instance eq_dec : EqDecision t.
Proof. solve_decision. Defined.
End UpdateReasons.

Record ActiveElement := mkActive {
  ae_clientID : option N;
  ae_attributeID : option N
}.

Record DrawData := mkDrawData {
  dd_enabled : bool;
  dd_redraw : option N      (* [typeof data.redraw === 'number'] *)
}.

Record InteractionData := mkInteractionData {
  id_enabled : bool;
  id_intermediateShape : bool   (* truthiness of [data.intermediateShape] *)
}.

(** [MergeData], [SplitData] and [GroupData]: only [enabled] is read here. *)
Record ModeData := mkModeData { enabled : bool }.

Record Configuration := mkConfiguration {
  displayAllText : bool;
  forceDisableEditing : bool;
  showProjections : bool;
  textContent : string;
  textFontSize : N;
  textPosition : string;
  shapeOpacity : N;
  selectedShapeOpacity : N;
  outlinedBorders : string;
  colorBy : string;
  smoothImage : option bool;
  CSSImageFilter : option string
}.

#[global] Instance Configuration_eq_dec : EqDecision Configuration.
Proof. solve_decision. Defined.

(** What the view reads from [this.controller]. *)
Record Controller := mkController {
  c_mode : Mode.t;
  c_objects : list ObjectState;
  c_activeElement : ActiveElement;
  c_drawData : DrawData;
  c_interactionData : InteractionData;
  c_mergeData : ModeData;
  c_splitData : ModeData;
  c_groupData : ModeData;
  c_zLayer : option Z;
  c_configuration : Configuration;
  c_focusClientID : N;
  c_offset : Z                     (* [geometry.offset] *)
}.

(** ** Effects *)

(** The [data] argument of the draw completion callback. *)
Record DrawResult := mkDrawResult {
  r_clientID : option N;                 (* [typeof clientID === 'number'] *)
  r_points : option (list Z);            (* [data.points] *)
  r_elements : option (list (list Z))    (* the points of [data.elements] *)
}.

(** [CustomEvent]s dispatched on [this.canvas]. *)
Inductive CanvasEvent :=
| canvas_drawn (data : DrawResult) (zOrder : Z) (continue : option bool) (duration : Z)
| canvas_edited (state : ObjectState) (points : list Z) (rotation : Q)
| canvas_merged (states : list ObjectState)
| canvas_splitted (state : ObjectState)
| canvas_groupped (states : list ObjectState)
| canvas_regionselected (points : list Z)
| canvas_interacted (isDone : bool)
| canvas_canceled
| canvas_activated (state : ObjectState)
| canvas_dragshape (id : N)
| canvas_resizeshape (id : N)
| canvas_setup
| canvas_reshape
| canvas_fit
| canvas_zoomstart
| canvas_zoomstop
| canvas_dragstart
| canvas_dragstop
| canvas_error
| canvas_destroy.

Inductive Handler :=
| drawHandler | editHandler | mergeHandler | splitHandler | groupHandler
| regionSelector | zoomHandler | autoborderHandler | interactionHandler.

(** Calls into the gesture handlers. *)
Inductive HandlerCall :=
| cancel (h : Handler)
| configurate (h : Handler)
| transform (h : Handler)
| draw (data : DrawData)
| interact (data : InteractionData)
| merge (data : ModeData)
| split (data : ModeData)
| group (data : ModeData)
| select (h : Handler)
| selectRegion (value : bool)
| zoom
| updateObjects_autoborder
| resetSelectedObjects
| repeatSelection
| destroy.

(** Calls into the controller that are requests to the upstream model. *)
Inductive ControllerCall :=
| controller_draw (enabled : bool)
| controller_interact (enabled : bool)
| controller_merge (enabled : bool)
| controller_split (enabled : bool)
| controller_group (enabled : bool)
| controller_selectRegion (enabled : bool).

(** Operations on the SVG scene and on the page. *)
Inductive Dom :=
| AddShape (id : N) (ty : ShapeType) (points : list Z)
| AddSkeletonElement (id : N)
| RemoveShape (id : N)
| WindowMouseUp
| AddText (id : N)
| RemoveText (id : N)
| UpdateTextPosition (id : N)
| SetHidden (id : N) (value : bool)
| SetTextHidden (id : N) (value : bool)
| SetZOrder (id : N) (z : Z)
| SetOccluded (id : N) (value : bool)
| Untransform (id : N)
| SetGeometry (id : N) (points : list Z)
| ResetPoints (id : N)
| Rotate (id : N) (angle : Q)
| RebuildText (id : N)
| PatchTextAttribute (id attr : N) (value : string)
| Colorize (id : N)
| ActivateShape (id : N) (draggable : bool)
| DeactivateShape (id : N)
| HighlightAttribute (id attr : N) (value : bool)
| PointerEvents (id : N) (locked : bool)
| SortObjects
| UpdateShapeViews
| SmoothImage (value : bool)
| ImageFilter
| MoveCanvas
| TransformCanvas
| ResizeCanvas
| RedrawBitmap
| ShowBitmap (value : bool)
| LoadingAnimation (visible : bool)
| DrawImage
| SetGrid
| SetupIssueRegions
| FocusRegion (id : N)
| RemoveListeners.

Inductive Effect :=
| Dispatch (e : CanvasEvent)
| Call (c : HandlerCall)
| Ctrl (c : ControllerCall)
| DOM (d : Dom).

Inductive Cursor :=
| cursor_default   (* the empty string *)
| crosshair | copy | pointer | move | zoom_in.

(** ** The view *)

(** What the code reads back from an SVG shape: whether a [remove.drag] or
    [remove.resize] listener is installed (a gesture on it is in progress). *)
Record SvgShape := mkShape { removeListener : bool }.

Record CanvasView := mkView {
  controller : Controller;
  configuration : Configuration;
  svgShapes : gmap N SvgShape;
  svgTexts : gset N;
  drawnStates : gmap N ObjectState;
  activeElement : ActiveElement;
  drawHidden : gset N;           (* [innerObjectsFlags.drawHidden] *)
  cursor : Cursor;               (* [canvas.style.cursor] *)
  log : list Effect
}.

Definition mode (v : CanvasView) : Mode.t := c_mode (controller v).

Definition set_mode (m : Mode.t) (v : CanvasView) : CanvasView :=
  let c := controller v in
  mkView (mkController m (c_objects c) (c_activeElement c) (c_drawData c)
            (c_interactionData c) (c_mergeData c) (c_splitData c) (c_groupData c)
            (c_zLayer c) (c_configuration c) (c_focusClientID c) (c_offset c))
    (configuration v) (svgShapes v) (svgTexts v) (drawnStates v)
    (activeElement v) (drawHidden v) (cursor v) (log v).

Definition set_configuration (c : Configuration) (v : CanvasView) : CanvasView :=
  mkView (controller v) c (svgShapes v) (svgTexts v) (drawnStates v)
    (activeElement v) (drawHidden v) (cursor v) (log v).

Definition set_svgShapes (m : gmap N SvgShape) (v : CanvasView) : CanvasView :=
  mkView (controller v) (configuration v) m (svgTexts v) (drawnStates v)
    (activeElement v) (drawHidden v) (cursor v) (log v).

Definition set_svgTexts (t : gset N) (v : CanvasView) : CanvasView :=
  mkView (controller v) (configuration v) (svgShapes v) t (drawnStates v)
    (activeElement v) (drawHidden v) (cursor v) (log v).

Definition set_drawnStates (m : gmap N ObjectState) (v : CanvasView) : CanvasView :=
  mkView (controller v) (configuration v) (svgShapes v) (svgTexts v) m
    (activeElement v) (drawHidden v) (cursor v) (log v).

Definition set_activeElement (a : ActiveElement) (v : CanvasView) : CanvasView :=
  mkView (controller v) (configuration v) (svgShapes v) (svgTexts v) (drawnStates v)
    a (drawHidden v) (cursor v) (log v).

Definition set_drawHidden (h : gset N) (v : CanvasView) : CanvasView :=
  mkView (controller v) (configuration v) (svgShapes v) (svgTexts v) (drawnStates v)
    (activeElement v) h (cursor v) (log v).

Definition set_cursor (c : Cursor) (v : CanvasView) : CanvasView :=
  mkView (controller v) (configuration v) (svgShapes v) (svgTexts v) (drawnStates v)
    (activeElement v) (drawHidden v) c (log v).

(** Append one effect, or several, to the log. *)
Definition emit (e : Effect) (v : CanvasView) : CanvasView :=
  mkView (controller v) (configuration v) (svgShapes v) (svgTexts v) (drawnStates v)
    (activeElement v) (drawHidden v) (cursor v) (log v ++ [e]).

Definition emits (es : list Effect) (v : CanvasView) : CanvasView :=
  mkView (controller v) (configuration v) (svgShapes v) (svgTexts v) (drawnStates v)
    (activeElement v) (drawHidden v) (cursor v) (log v ++ es).

(** [Object.keys] of a record with numeric keys: ascending order. *)
Definition objectKeys {A} (m : gmap N A) : list N :=
  merge_sort N.le (map_to_list m).*1.

Definition setKeys (s : gset N) : list N := merge_sort N.le (elements s).

(** [stateIsLocked] *)
Definition stateIsLocked (state : ObjectState) (v : CanvasView) : bool :=
  lock state || forceDisableEditing (c_configuration (controller v)).

(** [isInnerHidden] *)
Definition isInnerHidden (id : N) (v : CanvasView) : bool :=
  bool_decide (id ∈ drawHidden v).

(** [translateToCanvas]: [./shared] shifts every coordinate by the offset
    of the geometry; the offset is a parameter of the model. *)
Definition translateToCanvas (offset : Z) (pts : list Z) : list Z :=
  List.map (fun p => (p + offset)%Z) pts.

Definition translateFromCanvas (offset : Z) (pts : list Z) : list Z :=
  List.map (fun p => (p - offset)%Z) pts.

(** A [for ... of] loop whose body may throw. *)
Fixpoint forEach {A} (body : A -> CanvasView -> Result CanvasView)
    (l : list A) (v : CanvasView) : Result CanvasView :=
  match l with
  | [] => OK v
  | x :: l' => v' <~ body x v ;; forEach body l' v'
  end.

(** ** Labels *)

(** [addText] creates the label of [state]; for a skeleton it first creates
    and registers the labels of the elements that have none.  The label of
    [state] itself is registered by the caller. *)
Fixpoint addText (state : ObjectState) (v : CanvasView) {struct state} : CanvasView :=
  match state with
  | State f els =>
      let v1 :=
        match f_shapeType f with
        | Skeleton =>
            (fix each (l : list ObjectState) (v : CanvasView) : CanvasView :=
               match l with
               | [] => v
               | element :: l' =>
                   each l'
                     (if decide (clientID element ∈ svgTexts v) then v
                      else let v' := addText element v in
                           set_svgTexts ({[clientID element]} ∪ svgTexts v') v')
               end) els v
        | _ => v
        end in
      emit (DOM (AddText (f_clientID f))) v1
  end.

(** [updateTextPosition] moves a label (and, for a skeleton, the labels of
    its elements): one operation on the page, no field of the view changes. *)
Definition updateTextPosition (id : N) (v : CanvasView) : CanvasView :=
  emit (DOM (UpdateTextPosition id)) v.

(** [deleteText] follows the drawn state of [clientID] into the labels of
    its elements, by identifier.  The recursion goes through the store, so
    it is bounded by the depth of the call stack; a chain longer than the
    store has entries revisits an identifier and never ends in the source,
    where it overflows the stack. *)
Fixpoint deleteText_rec (depth : nat) (id : N) (v : CanvasView) : Result CanvasView :=
  match depth with
  | O => Throw RangeError
  | S depth' =>
      let v1 :=
        if decide (id ∈ svgTexts v)
        then emit (DOM (RemoveText id)) (set_svgTexts (svgTexts v ∖ {[id]}) v)
        else v in
      match drawnStates v1 !! id with
      | Some d =>
          if decide (shapeType d = Skeleton)
          then forEach (fun element => deleteText_rec depth' (clientID element))
                 (elementsOf d) v1
          else OK v1
      | None => OK v1
      end
  end.

Definition deleteText (id : N) (v : CanvasView) : Result CanvasView :=
  deleteText_rec (S (size (drawnStates v))) id v.

(** ** Deleting, adding and patching primitives *)

(** [sortObjects] re-sequences the children of the content element. *)
Definition sortObjects (v : CanvasView) : CanvasView := emit (DOM SortObjects) v.

(** The body of the loop of [deleteObjects], with the recursive call on the
    elements of a skeleton.  [fire('remove')] runs the [remove.drag] or
    [remove.resize] listener that a gesture in progress has installed: the
    mode is reset and the window gets a [mouseup], which ends the gesture
    inside the drag and resize plugins.  [deleteObjects] is called by
    [setupObjects] only, after [deactivate], which has taken the
    [dragend] and [resizedone] listeners of [activateShape] off the shape;
    what these listeners do on that [mouseup] when they are still on the
    shape is not part of this function. *)
Fixpoint deleteObject (state : ObjectState) (v : CanvasView) {struct state}
    : Result CanvasView :=
  match state with
  | State f els =>
      let id := f_clientID f in
      v1 <~ (if decide (id ∈ svgTexts v) then deleteText id v else OK v) ;;
      v2 <~ (match f_shapeType f with
             | Skeleton =>
                 (fix each (l : list ObjectState) (v : CanvasView) : Result CanvasView :=
                    match l with
                    | [] => OK v
                    | element :: l' => v' <~ deleteObject element v ;; each l' v'
                    end) els v1
             | _ => OK v1
             end) ;;
      let v3 :=
        match svgShapes v2 !! id with
        | Some shape =>
            (* fire('remove'), with the listener of a gesture in progress *)
            let v' := if removeListener shape
                      then emit (DOM WindowMouseUp) (set_mode Mode.IDLE v2)
                      else v2 in
            emit (DOM (RemoveShape id)) (set_svgShapes (delete id (svgShapes v')) v')
        | None => v2
        end in
      OK (if decide (id ∈ dom (drawnStates v3))
          then set_drawnStates (delete id (drawnStates v3)) v3
          else v3)
  end.

Definition deleteObjects (states : list ObjectState) (v : CanvasView)
    : Result CanvasView :=
  forEach deleteObject states v.

(** [addSkeleton]: the group, then one circle per element of shape type
    points, each registered in [svgShapes] under the element's identifier.
    This is the function on skeletons whose elements of shape type points
    have their two coordinates and a circle in the template of the label:
    the code destructures [cx, cy] from the points of the element and
    dereferences the circle that [find] returns, and throws a [TypeError]
    where one of them is missing, while this definition returns.  Nothing
    below derives from it that the code returns on a skeleton. *)
Definition addSkeleton (state : ObjectState) (v : CanvasView) : CanvasView :=
  fold_left
    (fun v element =>
       if decide (shapeType element = Points)
       then emit (DOM (AddSkeletonElement (clientID element)))
              (set_svgShapes (<[clientID element := mkShape false]> (svgShapes v)) v)
       else v)
    (elementsOf state)
    (emit (DOM (AddShape (clientID state) Skeleton (pointsOf state))) v).

(** The body of the loop of [addObjects].  An object whose shape type is
    none of the seven known ones is skipped by [continue]: no primitive, no
    label and no drawn state. *)
Definition addObject (state : ObjectState) (v : CanvasView) : CanvasView :=
  let id := clientID state in
  let translatedPoints := translateToCanvas (c_offset (controller v)) (pointsOf state) in
  let drawn :=
    match shapeType state with
    | Unsupported => None
    | Skeleton => Some (addSkeleton state v)
    | ty => Some (emit (DOM (AddShape id ty translatedPoints)) v)
    end in
  match drawn with
  | None => v
  | Some v1 =>
      let v2 := set_svgShapes (<[id := mkShape false]> (svgShapes v1)) v1 in
      let v3 :=
        if displayAllText (configuration v2)
        then let v' := addText state v2 in
             updateTextPosition id (set_svgTexts ({[id]} ∪ svgTexts v') v')
        else v2 in
      set_drawnStates (<[id := saveState state]> (drawnStates v3)) v3
  end.

Definition addObjects (states : list ObjectState) (v : CanvasView) : CanvasView :=
  fold_left (fun v state => addObject state v) states v.

(** ** Activation *)

(** [deactivateAttribute] *)
Definition deactivateAttribute (v : CanvasView) : CanvasView :=
  match ae_clientID (activeElement v), ae_attributeID (activeElement v) with
  | Some id, Some attributeID =>
      let v1 := if decide (id ∈ svgTexts v)
                then emit (DOM (HighlightAttribute id attributeID false)) v
                else v in
      set_activeElement (mkActive (ae_clientID (activeElement v1)) None) v1
  | _, _ => v
  end.

(** [deactivateShape]: the shape and the drawn state of the active
    identifier are dereferenced without a check. *)
Definition deactivateShape (v : CanvasView) : Result CanvasView :=
  match ae_clientID (activeElement v) with
  | None => OK v
  | Some id =>
      match svgShapes v !! id, drawnStates v !! id with
      | Some shape, Some drawnState =>
          let v1 := emit (DOM (DeactivateShape id)) v in
          v2 <~ (if bool_decide (id ∈ svgTexts v1) && negb (displayAllText (configuration v1))
                 then deleteText id v1 else OK v1) ;;
          let v3 := sortObjects v2 in
          OK (set_activeElement (mkActive None (ae_attributeID (activeElement v3))) v3)
      | _, _ => Throw TypeError
      end
  end.

(** [deactivate] *)
Definition deactivate (v : CanvasView) : Result CanvasView :=
  deactivateShape (deactivateAttribute v).

(** [activateAttribute] *)
Definition activateAttribute (id attributeID : N) (v : CanvasView) : CanvasView :=
  if decide (id ∈ svgTexts v)
  then set_activeElement (mkActive (ae_clientID (activeElement v)) (Some attributeID))
         (emit (DOM (HighlightAttribute id attributeID true)) v)
  else v.

(** The first object of the controller with the given identifier:
    [const [state] = this.controller.objects.filter(...)]. *)
Definition findState (id : N) (objects : list ObjectState) : option ObjectState :=
  head (filter (fun s => clientID s = id) objects).

(** [['polygon', 'polyline'].includes(state.shapeType)] *)
Definition directed (state : ObjectState) : bool :=
  bool_decide (shapeType state = Polygon \/ shapeType state = Polyline).

(** A point is two coordinates: the state has at least two points. *)
Definition twoPoints (state : ObjectState) : bool :=
  (4 <=? length (pointsOf state))%nat.

(** A polygon or a polyline has at least two points. *)
Definition shaped (state : ObjectState) : bool :=
  negb (directed state) || twoPoints state.

(** [showDirection], as [activateShape] and its resize-done listener call
    it: only for a polygon or a polyline.  It reads the first two handles
    that the selection has put on the shape and the first two points of
    [parsePoints(state.points)], and throws when either has fewer than
    two.  [parsePoints] is imported from [./shared]; the handles of a
    polygon or a polyline are one per point of the shape, and the points
    of the shape are those of its drawn state.  The arrow it draws is one
    of the affordances of the activated shape. *)
Definition showDirection (state : ObjectState) (id : N) (v : CanvasView)
    : Result CanvasView :=
  if directed state then
    if twoPoints state && from_option shaped true (drawnStates v !! id)
    then OK v
    else Throw TypeError
  else OK v.

(** [activateShape] *)
Definition activateShape (id : N) (v : CanvasView) : Result CanvasView :=
  let state := findState id (c_objects (controller v)) in
  v1 <~ (match state with
         | Some st =>
             if decide (shapeType st = Points)
             then match svgShapes v !! id with
                  | Some _ => OK (emit (DOM (PointerEvents id (stateIsLocked st v))) v)
                  | None => Throw TypeError
                  end
             else OK v
         | None => OK v
         end) ;;
  match state with
  | None => OK v1
  | Some st =>
      if hidden st || outside st then OK v1
      else
        let shape := svgShapes v1 !! id in
        let v2 := if decide (id ∈ svgTexts v1) then v1
                  else let v' := addText st v1 in
                       set_svgTexts ({[clientID st]} ∪ svgTexts v') v' in
        let v3 := updateTextPosition id v2 in
        if stateIsLocked st v3 then OK v3
        else match shape with
             | None => Throw TypeError
             | Some _ =>
                 v4 <~ showDirection st id
                         (emit (DOM (ActivateShape id (negb (pinned st)))) v3) ;;
                 OK (emit (Dispatch (canvas_activated st)) v4)
             end
  end.

(** [activate] *)
Definition activate (ae : ActiveElement) (v : CanvasView) : Result CanvasView :=
  v1 <~ (match ae_clientID (activeElement v) with
         | Some _ =>
             if decide (ae_clientID (activeElement v) ≠ ae_clientID ae)
             then deactivate v
             else if decide (ae_attributeID (activeElement v) ≠ ae_attributeID ae)
                  then OK (deactivateAttribute v)
                  else OK v
         | None => OK v
         end) ;;
  v2 <~ (match ae_clientID ae with
         | Some id =>
             if decide (ae_clientID (activeElement v1) ≠ Some id)
             then v' <~ activateShape id v1 ;;
                  OK (set_activeElement
                        (mkActive (Some id) (ae_attributeID (activeElement v'))) v')
             else OK v1
         | None => OK v1
         end) ;;
  match ae_clientID ae, ae_attributeID ae with
  | Some id, Some attributeID =>
      if decide (ae_attributeID (activeElement v2) ≠ Some attributeID)
      then OK (activateAttribute id attributeID v2)
      else OK v2
  | _, _ => OK v2
  end.

(** ** Patching *)

(** A write on [shape] throws when [svgShapes[clientID]] is undefined. *)
Definition onShape (shape : option SvgShape) (d : Dom) (v : CanvasView)
    : Result CanvasView :=
  match shape with
  | Some _ => OK (emit (DOM d) v)
  | None => Throw TypeError
  end.

Definition when (b : bool) (f : CanvasView -> Result CanvasView) (v : CanvasView)
    : Result CanvasView :=
  if b then f v else OK v.

Definition keyLe {A} (a b : N * A) : Prop := (a.1 <= b.1)%N.

#[global] Instance keyLe_dec {A} (a b : N * A) : Decision (keyLe a b).
Proof. unfold keyLe. apply _. Defined.

(** The attributes of [state] whose value differs from the drawn one, in
    the order of [Object.keys(state.attributes)]. *)
Definition changedAttributes (state drawnState : ObjectState) : list (N * string) :=
  filter (fun kv => attributes drawnState !! kv.1 ≠ Some kv.2)
    (merge_sort keyLe (map_to_list (attributes state))).

(** The body of the loop of [updateObjects]. *)
Definition updateObject (state : ObjectState) (v : CanvasView) : Result CanvasView :=
  let id := clientID state in
  match drawnStates v !! id with
  | None => Throw TypeError
  | Some drawnState =>
      let shape := svgShapes v !! id in
      let text := bool_decide (id ∈ svgTexts v) in
      let isInvisible := hidden state || outside state || isInnerHidden id v in
      v1 <~ when (negb (eqb (hidden drawnState) (hidden state))
                  || negb (eqb (outside drawnState) (outside state)))
              (fun v =>
                 v' <~ onShape shape (SetHidden id isInvisible) v ;;
                 OK (if text
                     then let v'' := emit (DOM (SetTextHidden id isInvisible)) v' in
                          if isInvisible then v'' else updateTextPosition id v''
                     else v')) v ;;
      v2 <~ when (negb (zOrder drawnState =? zOrder state)%Z)
              (onShape shape (SetZOrder id (zOrder state))) v1 ;;
      v3 <~ when (negb (eqb (occluded drawnState) (occluded state)))
              (onShape shape (SetOccluded id (occluded state))) v2 ;;
      v4 <~ when (negb (eqb (pinned drawnState) (pinned state))
                  && bool_decide (ae_clientID (activeElement v3) ≠ None))
              (fun v => let ae := activeElement v in
                        v' <~ deactivate v ;; activate ae v') v3 ;;
      v5 <~ when (truthy (rotation drawnState)) (onShape shape (Untransform id)) v4 ;;
      v6 <~ when (negb (bool_decide (pointsOf state = pointsOf drawnState)))
              (fun v =>
                 let translatedPoints :=
                   translateToCanvas (c_offset (controller v)) (pointsOf state) in
                 v' <~ onShape shape (SetGeometry id translatedPoints) v ;;
                 OK (if bool_decide (shapeType state = Points) && negb isInvisible
                     then emit (DOM (ResetPoints id)) v' else v')) v5 ;;
      v7 <~ when (truthy (rotation state)) (onShape shape (Rotate id (rotation state))) v6 ;;
      let v8 :=
        if negb (labelID drawnState =? labelID state)%N
           || negb (bool_decide (descriptions drawnState = descriptions state))
        then if text
             then let v' := addText state (emit (DOM (RebuildText id)) v7) in
                  set_svgTexts ({[id]} ∪ svgTexts v') v'
             else v7
        else if text
             then emits (List.map (fun kv => DOM (PatchTextAttribute id kv.1 kv.2))
                           (changedAttributes state drawnState)) v7
             else v7 in
      let v9 :=
        if negb (labelID drawnState =? labelID state)%N
           || negb (bool_decide (color drawnState = color state))
        then match shape with Some _ => emit (DOM (Colorize id)) v8 | None => v8 end
        else v8 in
      v10 <~ when (negb (groupID drawnState =? groupID state)%N
                   || negb (bool_decide (groupColor drawnState = groupColor state)))
               (onShape shape (Colorize id)) v9 ;;
      OK (set_drawnStates (<[id := saveState state]> (drawnStates v10)) v10)
  end.

Definition updateObjects (states : list ObjectState) (v : CanvasView)
    : Result CanvasView :=
  forEach updateObject states v.

(** ** Reconciliation: [setupObjects] *)

(** The partition computed at the head of [setupObjects]. *)
Definition created_of (drawn : gmap N ObjectState) (states : list ObjectState)
    : list ObjectState :=
  filter (fun state => drawn !! clientID state = None) states.

(** [drawnState.updated !== state.updated || drawnState.frame !== state.frame] *)
Definition changed (drawn : gmap N ObjectState) (state : ObjectState) : bool :=
  match drawn !! clientID state with
  | Some drawnState =>
      negb (updated drawnState =? updated state)%Z
      || negb (frame drawnState =? frame state)%Z
  | None => false
  end.

Definition updated_of (drawn : gmap N ObjectState) (states : list ObjectState)
    : list ObjectState :=
  filter (fun state => changed drawn state = true) states.

(** The identifiers of the store that the incoming list does not have. *)
Definition deletedIDs (drawn : gmap N ObjectState) (states : list ObjectState)
    : list N :=
  let newIDs := List.map clientID states in
  filter (fun id => id ∉ newIDs) (objectKeys drawn).

Definition deleted_of (drawn : gmap N ObjectState) (states : list ObjectState)
    : list ObjectState :=
  omap (fun id => drawn !! id) (deletedIDs drawn states).

Definition nonEmpty {A} (l : list A) : bool := negb (length l =? 0).

Definition setupObjects (states : list ObjectState) (v : CanvasView)
    : Result CanvasView :=
  let created := created_of (drawnStates v) states in
  let updated := updated_of (drawnStates v) states in
  let deleted := deleted_of (drawnStates v) states in
  if nonEmpty deleted || nonEmpty updated || nonEmpty created then
    v1 <~ (if bool_decide (ae_clientID (activeElement v) ≠ None)
           then deactivate v else OK v) ;;
    v2 <~ deleteObjects deleted v1 ;;
    let v3 := addObjects created v2 in
    let updatedSkeletons := filter (fun state => shapeType state = Skeleton) updated in
    let updatedNotSkeletons := filter (fun state => shapeType state ≠ Skeleton) updated in
    v4 <~ updateObjects updatedNotSkeletons v3 ;;
    v5 <~ deleteObjects updatedSkeletons v4 ;;
    let v6 := addObjects updatedSkeletons v5 in
    let v7 := sortObjects v6 in
    v8 <~ (match ae_clientID (c_activeElement (controller v7)) with
           | Some id =>
               if decide (id ∈ List.map clientID states)
               then activate (c_activeElement (controller v7)) v7
               else OK v7
           | None => OK v7
           end) ;;
    OK (emit (Call updateObjects_autoborder) v8)
  else OK v.

(** ** Objects hidden while they are redrawn: [setupInnerFlags] *)

Definition setupInnerFlags (id : N) (value : bool) (v : CanvasView)
    : Result CanvasView :=
  let shape := svgShapes v !! id in
  let text := bool_decide (id ∈ svgTexts v) in
  let state := drawnStates v !! id in
  if value then
    let v0 := set_drawHidden ({[id]} ∪ drawHidden v) v in
    v1 <~ (match shape, state with
           | Some _, Some _ => OK (emit (DOM (SetHidden id true)) v0)
           | Some _, None => Throw TypeError
           | None, _ => OK v0
           end) ;;
    OK (if text then emit (DOM (SetTextHidden id true)) v1 else v1)
  else
    let v0 := set_drawHidden (drawHidden v ∖ {[id]}) v in
    OK (match state with
        | Some st =>
            if negb (outside st) && negb (hidden st) then
              let v1 := match shape with
                        | Some _ => emit (DOM (SetHidden id false)) v0
                        | None => v0
                        end in
              if text
              then updateTextPosition id (emit (DOM (SetTextHidden id false)) v1)
              else v1
            else v0
        | None => v0
        end).

(** ** Completion callbacks *)

(** [onEditDone] *)
Definition onEditDone (state : option ObjectState) (points : option (list Z))
    (angle : option Q) (v : CanvasView) : CanvasView :=
  let v1 :=
    match state, points with
    | Some st, Some pts =>
        emit (Dispatch (canvas_edited st pts
                          (match angle with
                           | Some r => r
                           | None => rotation st
                           end))) v
    | _, _ => emit (Dispatch canvas_canceled) v
    end in
  set_mode Mode.IDLE v1.

(** JavaScript truthiness of an optional boolean argument. *)
Definition flag (b : option bool) : bool := default false b.

(** [data.points || elements.map((el) => el.points).flat()] *)
Definition resultPoints (d : DrawResult) : option (list Z) :=
  match r_points d with
  | Some p => Some p
  | None => option_map (@List.concat Z) (r_elements d)
  end.

(** [onDrawDone] *)
Definition onDrawDone (data : option DrawResult) (duration : Z)
    (continueDraw : option bool) (v : CanvasView) : Result CanvasView :=
  v1 <~ forEach (fun hiddenID => setupInnerFlags hiddenID false)
          (setKeys (drawHidden v)) v ;;
  let finish (v : CanvasView) :=
    if negb (flag continueDraw)
    then emit (Ctrl (controller_draw false)) (set_mode Mode.IDLE v)
    else v in
  match data with
  | Some d =>
      match resultPoints d with
      | None => Throw TypeError
      | Some points =>
          match r_clientID d with
          | Some id =>
              let v2 := emit (Dispatch canvas_canceled) v1 in
              let state := findState id (c_objects (controller v2)) in
              OK (onEditDone state (Some points) None v2)
          | None =>
              OK (finish (emit (Dispatch (canvas_drawn d (default 0%Z (c_zLayer (controller v1)))
                                            continueDraw duration)) v1))
          end
      end
  | None =>
      OK (finish (if negb (flag continueDraw)
                  then emit (Dispatch canvas_canceled) v1 else v1))
  end.

(** [onMergeDone] *)
Definition onMergeDone (objects : option (list ObjectState)) (v : CanvasView)
    : CanvasView :=
  let v1 := match objects with
            | Some states => emit (Dispatch (canvas_merged states)) v
            | None => emit (Dispatch canvas_canceled) v
            end in
  set_mode Mode.IDLE (emit (Ctrl (controller_merge false)) v1).

(** [onSplitDone] *)
Definition onSplitDone (object : option ObjectState) (v : CanvasView) : CanvasView :=
  let v1 := match object with
            | Some state => emit (Dispatch (canvas_splitted state)) v
            | None => emit (Dispatch canvas_canceled) v
            end in
  set_mode Mode.IDLE (emit (Ctrl (controller_split false)) v1).

(** [onGroupDone] *)
Definition onGroupDone (objects : option (list ObjectState)) (v : CanvasView)
    : CanvasView :=
  let v1 := match objects with
            | Some states => emit (Dispatch (canvas_groupped states)) v
            | None => emit (Dispatch canvas_canceled) v
            end in
  set_mode Mode.IDLE (emit (Ctrl (controller_group false)) v1).

(** [onRegionSelected] *)
Definition onRegionSelected (points : option (list Z)) (v : CanvasView) : CanvasView :=
  let v1 := match points with
            | Some pts => emit (Dispatch (canvas_regionselected pts)) v
            | None => emit (Dispatch canvas_canceled) v
            end in
  set_mode Mode.IDLE (emit (Ctrl (controller_selectRegion false)) v1).

(** [onInteraction]; [shapes] is [true] for an array and [false] for [null]. *)
Definition onInteraction (shapes : bool) (isDone : bool) (v : CanvasView) : CanvasView :=
  let v1 := if shapes then emit (Dispatch (canvas_interacted isDone)) v else v in
  if negb shapes || isDone
  then emit (Ctrl (controller_interact false))
         (set_mode Mode.IDLE (emit (Dispatch canvas_canceled) v1))
  else v1.

(** ** Update notifications: [notify] *)

(** What [notify] reads from its [model] argument. *)
Record Model := mkModel {
  m_configuration : Configuration;
  m_imageBitmap : bool;
  m_image : bool                 (* truthiness of [model.image] *)
}.

(** The branch of [notify] for [CONFIG_UPDATED]. *)
Definition configUpdated (model : Model) (v : CanvasView) : Result CanvasView :=
  let ae := activeElement v in
  v1 <~ deactivate v ;;
  let new := m_configuration model in
  let old := configuration v1 in
  let v2 :=
    if negb (shapeOpacity new =? shapeOpacity old)%N
       || negb (selectedShapeOpacity new =? selectedShapeOpacity old)%N
       || negb (bool_decide (outlinedBorders new = outlinedBorders old))
       || negb (bool_decide (colorBy new = colorBy old))
    then emit (DOM UpdateShapeViews) v1 else v1 in
  v3 <~ (if displayAllText new && negb (displayAllText old) then
           OK (fold_left
                 (fun v i =>
                    if decide (i ∈ svgTexts v) then v
                    else match drawnStates v !! i with
                         | Some d => let v' := addText d v in
                                     set_svgTexts ({[i]} ∪ svgTexts v') v'
                         | None => v
                         end)
                 (objectKeys (drawnStates v2)) v2)
         else if negb (displayAllText new) && displayAllText old then
           forEach (fun id v => if decide (Some id ≠ ae_clientID ae)
                                then deleteText id v else OK v)
             (objectKeys (drawnStates v2)) v2
         else OK v2) ;;
  let recreateText := negb (bool_decide (textContent new = textContent old)) in
  let moveText :=
    negb (eqb (displayAllText new) (displayAllText old))
    || negb (textFontSize new =? textFontSize old)%N
    || negb (bool_decide (textPosition new = textPosition old))
    || recreateText in
  let v4 := match smoothImage new with
            | Some b => emit (DOM (SmoothImage b)) v3
            | None => v3
            end in
  let v5 := set_configuration new v4 in
  v6 <~ (if recreateText then
           forEach
             (fun id v =>
                if decide (id ∈ svgTexts v) then
                  v' <~ deleteText id v ;;
                  OK (match findState id (c_objects (controller v')) with
                      | Some state => let v'' := addText state v' in
                                      set_svgTexts ({[id]} ∪ svgTexts v'') v''
                      | None => v'
                      end)
                else OK v)
             (objectKeys (drawnStates v5)) v5
         else OK v5) ;;
  let v7 :=
    if moveText
    then fold_left (fun v i => if decide (i ∈ svgTexts v)
                               then updateTextPosition i v else v)
           (objectKeys (drawnStates v6)) v6
    else v6 in
  let v8 := match CSSImageFilter new with
            | Some _ => emit (DOM ImageFilter) v7
            | None => v7
            end in
  v9 <~ activate ae v8 ;;
  OK (emits [Call (configurate editHandler); Call (configurate drawHandler);
             Call (configurate autoborderHandler);
             Call (configurate interactionHandler); DOM TransformCanvas] v9).

(** The branch of [notify] for [CANCEL]. *)
Definition cancelMode (v : CanvasView) : CanvasView :=
  let v1 :=
    match mode v with
    | Mode.DRAW => emit (Call (cancel drawHandler)) v
    | Mode.INTERACT => emit (Call (cancel interactionHandler)) v
    | Mode.MERGE => emit (Call (cancel mergeHandler)) v
    | Mode.SPLIT => emit (Call (cancel splitHandler)) v
    | Mode.GROUP => emit (Call (cancel groupHandler)) v
    | Mode.SELECT_REGION => emit (Call (cancel regionSelector)) v
    | Mode.EDIT => emit (Call (cancel editHandler)) v
    | Mode.DRAG_CANVAS => emit (Dispatch canvas_dragstop) v
    | Mode.ZOOM_CANVAS =>
        emit (Dispatch canvas_zoomstop) (emit (Call (cancel zoomHandler)) v)
    | _ => v
    end in
  set_cursor cursor_default (set_mode Mode.IDLE v1).

Definition notify (model : Model) (reason : UpdateReasons.t) (v : CanvasView)
    : Result CanvasView :=
  v' <~
    (match reason with
     | UpdateReasons.CONFIG_UPDATED => configUpdated model v
     | UpdateReasons.BITMAP =>
         OK (if m_imageBitmap model
             then emit (DOM RedrawBitmap) (emit (DOM (ShowBitmap true)) v)
             else emit (DOM (ShowBitmap false)) v)
     | UpdateReasons.IMAGE_CHANGED =>
         OK (if m_image model
             then emits [DOM (LoadingAnimation false); DOM DrawImage; DOM MoveCanvas;
                         DOM ResizeCanvas; DOM TransformCanvas] v
             else emit (DOM (LoadingAnimation true)) v)
     | UpdateReasons.FITTED_CANVAS =>
         v1 <~ setupObjects [] v ;;
         OK (emits [DOM SetupIssueRegions; DOM MoveCanvas; DOM ResizeCanvas;
                    Dispatch canvas_reshape] v1)
     | UpdateReasons.IMAGE_ZOOMED =>
         OK (emits [DOM MoveCanvas; DOM TransformCanvas] v)
     | UpdateReasons.IMAGE_FITTED =>
         OK (emits [DOM MoveCanvas; DOM TransformCanvas; Dispatch canvas_fit] v)
     | UpdateReasons.IMAGE_MOVED => OK (emit (DOM MoveCanvas) v)
     | UpdateReasons.OBJECTS_UPDATED =>
         let v1 := if decide (mode v = Mode.GROUP)
                   then emit (Call resetSelectedObjects) v else v in
         v2 <~ setupObjects (c_objects (controller v1)) v1 ;;
         let v3 := if decide (mode v2 = Mode.MERGE)
                   then emit (Call repeatSelection) v2 else v2 in
         OK (emit (Dispatch canvas_setup) v3)
     | UpdateReasons.ISSUE_REGIONS_UPDATED => OK (emit (DOM SetupIssueRegions) v)
     | UpdateReasons.GRID_UPDATED => OK (emit (DOM SetGrid) v)
     | UpdateReasons.SHAPE_FOCUSED =>
         let id := c_focusClientID (controller v) in
         OK (match svgShapes v !! id with
             | Some _ => emit (DOM (FocusRegion id)) v
             | None => v
             end)
     | UpdateReasons.SHAPE_ACTIVATED => activate (c_activeElement (controller v)) v
     | UpdateReasons.SELECT_REGION =>
         OK (if decide (mode v = Mode.SELECT_REGION)
             then set_cursor pointer (emit (Call (selectRegion true)) v)
             else emit (Call (selectRegion false)) v)
     | UpdateReasons.DRAG_CANVAS =>
         OK (if decide (mode v = Mode.DRAG_CANVAS)
             then set_cursor move (emit (Dispatch canvas_dragstart) v)
             else set_cursor cursor_default (emit (Dispatch canvas_dragstop) v))
     | UpdateReasons.ZOOM_CANVAS =>
         OK (if decide (mode v = Mode.ZOOM_CANVAS)
             then emit (Call zoom)
                    (set_cursor zoom_in (emit (Dispatch canvas_zoomstart) v))
             else emit (Call (cancel zoomHandler))
                    (set_cursor cursor_default (emit (Dispatch canvas_zoomstop) v)))
     | UpdateReasons.DRAW =>
         let data := c_drawData (controller v) in
         if dd_enabled data && bool_decide (mode v = Mode.IDLE) then
           let v1 := set_mode Mode.DRAW (set_cursor crosshair v) in
           v2 <~ (match dd_redraw data with
                  | Some id => setupInnerFlags id true v1
                  | None => OK v1
                  end) ;;
           OK (emit (Call (draw data)) v2)
         else
           let v1 := set_cursor cursor_default v in
           OK (if decide (mode v1 ≠ Mode.IDLE) then emit (Call (draw data)) v1 else v1)
     | UpdateReasons.INTERACT =>
         let data := c_interactionData (controller v) in
         OK (if id_enabled data
                && (bool_decide (mode v = Mode.IDLE) || id_intermediateShape data) then
               let v1 := if negb (id_intermediateShape data)
                         then set_mode Mode.INTERACT (set_cursor crosshair v)
                         else v in
               emit (Call (interact data)) v1
             else
               let v1 := if negb (id_enabled data)
                         then set_cursor cursor_default v else v in
               if decide (mode v1 ≠ Mode.IDLE)
               then emit (Call (interact data)) v1 else v1)
     | UpdateReasons.MERGE =>
         let data := c_mergeData (controller v) in
         let v1 := if enabled data
                   then set_mode Mode.MERGE (set_cursor copy v)
                   else set_cursor cursor_default v in
         OK (emit (Call (merge data)) v1)
     | UpdateReasons.SPLIT =>
         let data := c_splitData (controller v) in
         let v1 := if enabled data
                   then set_mode Mode.SPLIT (set_cursor copy v)
                   else set_cursor cursor_default v in
         OK (emit (Call (split data)) v1)
     | UpdateReasons.GROUP =>
         let data := c_groupData (controller v) in
         let v1 := if enabled data
                   then set_mode Mode.GROUP (set_cursor copy v)
                   else set_cursor cursor_default v in
         OK (emit (Call (group data)) v1)
     | UpdateReasons.SELECT =>
         OK (match mode v with
             | Mode.MERGE => emit (Call (select mergeHandler)) v
             | Mode.SPLIT => emit (Call (select splitHandler)) v
             | Mode.GROUP => emit (Call (select groupHandler)) v
             | _ => v
             end)
     | UpdateReasons.CANCEL => OK (cancelMode v)
     | UpdateReasons.DATA_FAILED => OK (emit (Dispatch canvas_error) v)
     | UpdateReasons.DESTROY =>
         OK (emits [Dispatch canvas_destroy; DOM RemoveListeners; Call destroy] v)
     end) ;;
  OK (if m_imageBitmap model
         && (bool_decide (reason = UpdateReasons.IMAGE_CHANGED)
             || bool_decide (reason = UpdateReasons.OBJECTS_UPDATED))
      then emit (DOM RedrawBitmap) v' else v').

(** ** Angles *)

(** The number of times [while (rotation < 0) rotation += 360] runs. *)
Definition turnsNeeded (angle : Q) : nat := Z.to_nat (Qceiling (- angle / 360)).

Lemma inject_Z_sub (a b : Z) : (inject_Z (a - b) == inject_Z a - inject_Z b)%Q.
Proof. unfold Z.sub. rewrite inject_Z_plus, inject_Z_opp. reflexivity. Qed.

Lemma Qceiling_pred (x : Q) : Qceiling (x - 1) = (Qceiling x - 1)%Z.
Proof.
  pose proof (Qle_ceiling x) as Hup. pose proof (Qceiling_lt x) as Hlow.
  pose proof (Qle_ceiling (x - 1)) as Hup'. pose proof (Qceiling_lt (x - 1)) as Hlow'.
  rewrite inject_Z_sub in Hlow, Hlow'.
  change (inject_Z 1) with 1%Q in *.
  assert (Hlt : (inject_Z (Qceiling (x - 1)) < inject_Z (Qceiling x))%Q).
  { revert Hup Hlow Hup' Hlow'.
    generalize (inject_Z (Qceiling (x - 1))), (inject_Z (Qceiling x)).
    intros; lra. }
  assert (Hgt : (inject_Z (Qceiling x - 2) < inject_Z (Qceiling (x - 1)))%Q).
  { rewrite inject_Z_sub. change (inject_Z 2) with 2%Q.
    revert Hup Hlow Hup' Hlow'.
    generalize (inject_Z (Qceiling (x - 1))), (inject_Z (Qceiling x)).
    intros; lra. }
  rewrite <- Zlt_Qlt in Hlt, Hgt. lia.
Qed.

Lemma turnsNeeded_decreases (angle : Q) :
  (angle < 0)%Q -> turnsNeeded (angle + 360) < turnsNeeded angle.
Proof.
  intros Hneg. unfold turnsNeeded.
  assert (E : (- (angle + 360) / 360 == - angle / 360 - 1)%Q)
    by (field; try (split; lra)).
  rewrite E, Qceiling_pred.
  assert (Hpos : (0 < - angle / 360)%Q) by (apply Qlt_shift_div_l; lra).
  pose proof (Qle_ceiling (- angle / 360)) as Hup.
  assert (H0 : (inject_Z 0 < inject_Z (Qceiling (- angle / 360)))%Q).
  { change (inject_Z 0) with 0%Q. revert Hup.
    generalize (inject_Z (Qceiling (- angle / 360))). intros; lra. }
  rewrite <- Zlt_Qlt in H0. lia.
Qed.

(** [while (rotation < 0) rotation += 360;] *)
Equations? addTurns (angle : Q) : Q by wf (turnsNeeded angle) lt :=
  addTurns angle with Qlt_le_dec angle 0 := {
    | left _ := addTurns (angle + 360)%Q;
    | right _ := angle }.
Proof. by apply turnsNeeded_decreases. Qed.

(** The remainder operator of JavaScript: the quotient is truncated. *)
Definition Qtrunc (q : Q) : Z :=
  if Qlt_le_dec q 0 then Qceiling q else Qfloor q.

Definition jsRem (x y : Q) : Q := (x - y * inject_Z (Qtrunc (x / y)))%Q.

(** [while (rotation < 0) rotation += 360; rotation %= 360;] *)
Definition normalizeRotation (angle : Q) : Q := jsRem (addTurns angle) 360.

(** ** Gestures on the active shape *)

(** The listeners that [activateShape] installs on the shape.  What they
    read from the page is an argument: whether the pointer moved far
    enough, the points and the rotation of the shape, and the points
    mapped through [translatePointsFromRotatedShape]. *)

Definition setRemoveListener (id : N) (value : bool) (v : CanvasView) : CanvasView :=
  match svgShapes v !! id with
  | Some _ => set_svgShapes (<[id := mkShape value]> (svgShapes v)) v
  | None => v
  end.

Definition withPoints (pts : list Z) (s : ObjectState) : ObjectState :=
  let f := fields s in
  State (mkFields (f_clientID f) (f_shapeType f) pts (f_rotation f) (f_occluded f)
           (f_hidden f) (f_outside f) (f_lock f) (f_pinned f) (f_zOrder f)
           (f_updated f) (f_frame f) (f_labelID f) (f_color f) (f_groupID f)
           (f_groupColor f) (f_descriptions f) (f_attributes f))
    (elementsOf s).

Definition withRotation (angle : Q) (s : ObjectState) : ObjectState :=
  let f := fields s in
  State (mkFields (f_clientID f) (f_shapeType f) (f_points f) angle (f_occluded f)
           (f_hidden f) (f_outside f) (f_lock f) (f_pinned f) (f_zOrder f)
           (f_updated f) (f_frame f) (f_labelID f) (f_color f) (f_groupID f)
           (f_groupColor f) (f_descriptions f) (f_attributes f))
    (elementsOf s).

Definition showText (id : N) (v : CanvasView) : CanvasView :=
  updateTextPosition id (emit (DOM (SetTextHidden id false)) v).

Definition dragstart (id : N) (v : CanvasView) : CanvasView :=
  setRemoveListener id true
    (emit (DOM (SetTextHidden id true)) (set_mode Mode.DRAG v)).

Definition dragend (state : ObjectState) (id : N) (moved : bool)
    (shapePoints : list Z) (shapeRotation : option Q)
    (unrotate : list Z -> list Z) (v : CanvasView) : Result CanvasView :=
  let v1 := showText id (set_mode Mode.IDLE (setRemoveListener id false v)) in
  if moved then
    let offset := c_offset (controller v1) in
    match drawnStates v1 !! id with
    | None => Throw TypeError
    | Some d =>
        let v2 := set_drawnStates
                    (<[id := withPoints (translateFromCanvas offset shapePoints) d]>
                       (drawnStates v1)) v1 in
        let pts := if truthy (default 0%Q shapeRotation)
                   then unrotate shapePoints else shapePoints in
        OK (emit (Dispatch (canvas_dragshape (clientID state)))
              (onEditDone (Some state) (Some (translateFromCanvas offset pts)) None v2))
    end
  else OK v1.

Definition resizestart (id : N) (v : CanvasView) : CanvasView :=
  setRemoveListener id true
    (emit (DOM (SetTextHidden id true)) (set_mode Mode.RESIZE v)).

(** The resize-done listener: the arrow and the label are shown again;
    then [let rotation = shape.transform().rotation || 0], the
    normalization, and the report through [onEditDone]. *)
Definition resizedone (state : ObjectState) (id : N) (resized : bool)
    (shapePoints : list Z) (shapeRotation : option Q)
    (unrotate : list Z -> list Z) (v : CanvasView) : Result CanvasView :=
  v1 <~ showDirection state id
          (showText id (set_mode Mode.IDLE (setRemoveListener id false v))) ;;
  if resized then
    let angle := normalizeRotation (default 0%Q shapeRotation) in
    let offset := c_offset (controller v1) in
    match drawnStates v1 !! id with
    | None => Throw TypeError
    | Some d =>
        let v2 := set_drawnStates
                    (<[id := withRotation angle
                               (withPoints (translateFromCanvas offset shapePoints) d)]>
                       (drawnStates v1)) v1 in
        let pts := if truthy angle then unrotate shapePoints else shapePoints in
        OK (emit (Dispatch (canvas_resizeshape (clientID state)))
              (onEditDone (Some state) (Some (translateFromCanvas offset pts))
                 (Some angle) v2))
    end
  else OK v1.

(** ** The direction arrow of a polygon or polyline: [showDirection] *)

Module Direction.
Local Open Scope R_scope.

Record Vector := mkVector { i : R; j : R }.
Record Point := mkPoint { x : R; y : R }.

Section Angle.
(** [scalarProduct] and [vectorLength] are imported from [./shared]. *)
Variable scalarProduct : Vector -> Vector -> R.
Variable vectorLength : Vector -> R.

(** [Math.sign(value) || 1] *)
Definition signOrOne (value : R) : R :=
  if Rlt_dec value 0 then -1 else 1.

(** The angle that [showDirection] gives to the arrow between the
    first two points. *)
Definition directionAngle (firstPoint secondPoint : Point) : R :=
  let xAxis := mkVector 1 0 in
  let baseVector := mkVector (x secondPoint - x firstPoint)
                             (y secondPoint - y firstPoint) in
  let baseVectorLength := vectorLength baseVector in
  let cosinus :=
    if Req_EM_T baseVectorLength 0 then 0
    else scalarProduct xAxis baseVector / (vectorLength xAxis * baseVectorLength) in
  (acos cosinus * signOrOne (j baseVector) * 180) / PI.
End Angle.

(** The Euclidean product and norm, the usual reading of the two names. *)
Definition euclidProduct (a b : Vector) : R := i a * i b + j a * j b.
Definition euclidLength (a : Vector) : R := sqrt (i a * i a + j a * j a).
End Direction.

(** ** Points of a rotated shape: [translatePointsFromRotatedShape] *)

Module RotatedShape.
Section Translate.
(** The SVG library and the page are parameters: the type of shapes,
    of matrices and of coordinates, the rotation read from
    [shape.transform()], the effect of [shape.rotate], and the three
    calls of the [try] block, each of which may throw. *)
Variables Shape Matrix num : Type.
Variable transformRotation : Shape -> Q.
Variable rotate : Q -> option (Q * Q) -> Shape -> Shape.
Variable getScreenCTM : Shape -> Result Matrix.
Variable contentScreenCTMInverse : Result Matrix.
Variable matrixTransform : num * num -> Matrix -> Result (num * num).

(** A call of [shape.rotate], as it is written in the source. *)
Inductive RotateCall := Rotate (angle : Q) (center : option (Q * Q)).

(** The state a computation on the shape threads: the shape and the
    calls made on it so far. *)
Definition Scene : Type := Shape * list RotateCall.

Definition callRotate (angle : Q) (center : option (Q * Q)) (s : Scene) : Scene :=
  (rotate angle center s.1, s.2 ++ [Rotate angle center]).

(** [try { body } finally { restore }]: the [finally] block runs on
    the state the body left, whether the body returned or threw, and
    the outcome of the body is the outcome of the statement. *)
Definition tryFinally {A} (body : Scene -> Scene * Result A)
    (restore : Scene -> Scene) (s : Scene) : Scene * Result A :=
  match body s with
  | (s', OK a) => (restore s', OK a)
  | (s', Throw e) => (restore s', Throw e)
  end.

(** The [for] loop: two coordinates per point. *)
Fixpoint mapPoints (ctm ctm1 : Matrix) (points : list num) : Result (list num) :=
  match points with
  | [] => OK []
  | [_] => Throw TypeError
  | px :: py :: rest =>
      p <~ matrixTransform (px, py) ctm ;;
      p' <~ matrixTransform p ctm1 ;;
      result <~ mapPoints ctm ctm1 rest ;;
      OK (p'.1 :: p'.2 :: result)
  end.

(** [cx !== null && cy !== null] *)
Definition centerOf (cx cy : option Q) : option (Q * Q) :=
  match cx, cy with
  | Some a, Some b => Some (a, b)
  | _, _ => None
  end.

Definition translatePointsFromRotatedShape (points : list num)
    (cx cy : option Q) (s : Scene) : Scene * Result (list num) :=
  let angle := transformRotation s.1 in
  let s1 := callRotate 0 (centerOf cx cy) s in
  tryFinally
    (fun s => (s, ctm <~ getScreenCTM s.1 ;;
                  ctm1 <~ contentScreenCTMInverse ;;
                  mapPoints ctm ctm1 points))
    (callRotate angle (centerOf cx cy))
    s1.
End Translate.
Arguments callRotate {Shape}.
Arguments tryFinally {Shape A}.
Arguments mapPoints {Matrix num}.
Arguments translatePointsFromRotatedShape {Shape Matrix num}.
End RotatedShape.

(** ** The constructor, and some concrete objects *)

(** The fields the constructor initializes. *)
Definition newView (model : Model) (c : Controller) : CanvasView :=
  set_mode Mode.IDLE
    (mkView c (m_configuration model) ∅ ∅ ∅ (mkActive None None) ∅ cursor_default []).

Definition sampleConfiguration : Configuration :=
  mkConfiguration false false false "id,label" 14 "auto" 3 5 "" "Label" None None.

Definition sampleModel : Model := mkModel sampleConfiguration false true.

Definition sampleController (objects : list ObjectState) (ae : ActiveElement)
    : Controller :=
  mkController Mode.IDLE objects ae (mkDrawData false None)
    (mkInteractionData false false) (mkModeData false) (mkModeData false)
    (mkModeData false) None sampleConfiguration 0 0.

(** Replace what the controller holds; this is the upstream model at work. *)
Definition withController (c : Controller) (v : CanvasView) : CanvasView :=
  mkView c (configuration v) (svgShapes v) (svgTexts v) (drawnStates v)
    (activeElement v) (drawHidden v) (cursor v) (log v).

Definition sampleState (id : N) (ty : ShapeType) (pts : list Z) (version : Z)
    : ObjectState :=
  State (mkFields id ty pts 0 false false false false false 0 version 0
           1 "#ff0000" 0 "#000000" [] ∅) [].

(** ** Reading the effect log *)

Definition dispatched (es : list Effect) : list CanvasEvent :=
  omap (fun e => match e with Dispatch ev => Some ev | _ => None end) es.

Definition controllerCalls (es : list Effect) : list ControllerCall :=
  omap (fun e => match e with Ctrl c => Some c | _ => None end) es.

Definition handlerCalls (es : list Effect) : list HandlerCall :=
  omap (fun e => match e with Call c => Some c | _ => None end) es.

Definition domOps (es : list Effect) : list Dom :=
  omap (fun e => match e with DOM d => Some d | _ => None end) es.

(** The operations that create or remove a primitive of the scene. *)
Definition isCreation (d : Dom) : Prop :=
  match d with
  | AddShape _ _ _ | AddSkeletonElement _ => True
  | _ => False
  end.

Definition isDeletion (d : Dom) : Prop :=
  match d with
  | RemoveShape _ => True
  | _ => False
  end.

(** * Proofs *)

Lemma bind_OK {A B} (r : Result A) (k : A -> Result B) b :
  bind r k = OK b -> exists a, r = OK a /\ k a = OK b.
Proof. destruct r as [a|e]; simpl; [eauto | discriminate]. Qed.

(** Case analysis on the condition of an [if] of the goal. *)
Ltac split_if :=
  match goal with
  | |- _ _ (if ?b then _ else _) => destruct b
  | |- context [if ?b then _ else _] => destruct b
  end.

Ltac bind_inv H :=
  let a := fresh "v" in
  let Ha := fresh "H" a in
  apply bind_OK in H; destruct H as (a & Ha & H).

(** Induction on object states, through the list of elements. *)
Fixpoint ObjectState_ind (P : ObjectState -> Prop)
    (step : forall f els, Forall P els -> P (State f els))
    (s : ObjectState) : P s :=
  match s with
  | State f els =>
      step f els
        ((fix all (l : list ObjectState) : Forall P l :=
            match l with
            | [] => List.Forall_nil P
            | e :: l' => List.Forall_cons P e l' (ObjectState_ind P step e) (all l')
            end) els)
  end.

(** A relation between the view before and after a step that is reflexive
    and transitive holds across a loop when it holds across its body. *)
Section Loops.
Context (R : CanvasView -> CanvasView -> Prop).
Context (R_refl : forall v, R v v).
Context (R_trans : forall v1 v2 v3, R v1 v2 -> R v2 v3 -> R v1 v3).

Lemma forEach_rel {A} (body : A -> CanvasView -> Result CanvasView) (l : list A) :
  (forall x v v', x ∈ l -> body x v = OK v' -> R v v') ->
  forall v v', forEach body l v = OK v' -> R v v'.
Proof.
  induction l as [|x l IH]; simpl; intros Hbody v v' H.
  - injection H as <-. apply R_refl.
  - bind_inv H. eapply R_trans.
    + eapply Hbody; [left | eassumption].
    + apply IH; [|assumption]. intros y w w' Hy. apply Hbody. by right.
Qed.

Lemma fold_left_rel {A} (body : CanvasView -> A -> CanvasView) (l : list A) :
  (forall x v, x ∈ l -> R v (body v x)) ->
  forall v, R v (fold_left body l v).
Proof.
  induction l as [|x l IH]; simpl; intros Hbody v.
  - apply R_refl.
  - eapply R_trans.
    + apply Hbody. left.
    + apply IH. intros y w Hy. apply Hbody. by right.
Qed.
End Loops.

(** ** Cancellation *)

(** C4. In every mode, a [CANCEL] notification is processed without an
    exception; it calls [cancel()] on the handler of the current mode
    (for [DRAG_CANVAS] it dispatches [canvas.dragstop], for [ZOOM_CANVAS]
    it cancels the zoom handler and dispatches [canvas.zoomstop]; [DRAG]
    and [RESIZE] have no handler object and nothing is called), and
    afterwards the mode is [IDLE] and the cursor is the default one. *)
Theorem cancel_routes_to_handler_and_idle (model : Model) (v : CanvasView) :
  exists v',
    notify model UpdateReasons.CANCEL v = OK v' /\
    mode v' = Mode.IDLE /\
    cursor v' = cursor_default /\
    log v' = log v ++
      match mode v with
      | Mode.DRAW => [Call (cancel drawHandler)]
      | Mode.INTERACT => [Call (cancel interactionHandler)]
      | Mode.MERGE => [Call (cancel mergeHandler)]
      | Mode.SPLIT => [Call (cancel splitHandler)]
      | Mode.GROUP => [Call (cancel groupHandler)]
      | Mode.SELECT_REGION => [Call (cancel regionSelector)]
      | Mode.EDIT => [Call (cancel editHandler)]
      | Mode.DRAG_CANVAS => [Dispatch canvas_dragstop]
      | Mode.ZOOM_CANVAS => [Call (cancel zoomHandler); Dispatch canvas_zoomstop]
      | Mode.IDLE | Mode.DRAG | Mode.RESIZE => []
      end.
Proof.
  exists (cancelMode v). split.
  - unfold notify. simpl. by rewrite andb_false_r.
  - unfold cancelMode. repeat split.
    destruct (mode v); simpl; rewrite ?app_nil_r, <- ?app_assoc; reflexivity.
Qed.

(** ** Steps that only touch the page *)

Definition isDOM (e : Effect) : Prop :=
  match e with DOM _ => True | _ => False end.

(** The controller is left alone and only operations on the page are
    appended to the log. *)
Definition pageStep (v v' : CanvasView) : Prop :=
  controller v' = controller v /\
  exists es, log v' = log v ++ es /\ Forall isDOM es.

Lemma pageStep_refl v : pageStep v v.
Proof. split; [reflexivity|]. exists []. by rewrite app_nil_r. Qed.

Lemma pageStep_trans v1 v2 v3 : pageStep v1 v2 -> pageStep v2 v3 -> pageStep v1 v3.
Proof.
  intros [Hc1 (es1 & Hl1 & Hd1)] [Hc2 (es2 & Hl2 & Hd2)]. split; [congruence|].
  exists (es1 ++ es2). split.
  - by rewrite Hl2, Hl1, app_assoc.
  - by apply Forall_app.
Qed.

Lemma pageStep_emit d v : pageStep v (emit (DOM d) v).
Proof. split; [reflexivity|]. exists [DOM d]. split; [reflexivity|]. by repeat constructor. Qed.

Lemma pageStep_mode v v' : pageStep v v' -> mode v' = mode v.
Proof. intros [Hc _]. unfold mode. by rewrite Hc. Qed.

Lemma dispatched_DOM es : Forall isDOM es -> dispatched es = [].
Proof. induction 1 as [|[] es He _ IH]; simpl in *; try done. Qed.

Lemma controllerCalls_DOM es : Forall isDOM es -> controllerCalls es = [].
Proof. induction 1 as [|[] es He _ IH]; simpl in *; try done. Qed.

Lemma forEach_total {A} (body : A -> CanvasView -> Result CanvasView) (l : list A) :
  (forall x v, exists v', body x v = OK v') ->
  forall v, exists v', forEach body l v = OK v'.
Proof.
  intros Hbody. induction l as [|x l IH]; simpl; intros v; [eauto|].
  destruct (Hbody x v) as [v1 ->]. simpl. apply IH.
Qed.

Lemma setupInnerFlags_false_total id v : exists v', setupInnerFlags id false v = OK v'.
Proof. unfold setupInnerFlags. eauto. Qed.

(** Closes [pageStep v v'] when [v'] is [v] with fields other than the
    controller set and operations on the page emitted. *)
Ltac page_step :=
  split; [reflexivity|]; simpl; eexists;
  split; [first [symmetry; apply app_nil_r | rewrite <- ?app_assoc; reflexivity]|];
  repeat constructor.

Lemma setupInnerFlags_false_pageStep id v v' :
  setupInnerFlags id false v = OK v' -> pageStep v v'.
Proof.
  unfold setupInnerFlags. intros [= <-].
  destruct (drawnStates v !! id) as [st|]; [|page_step].
  destruct (negb (outside st) && negb (hidden st)); [|page_step].
  destruct (svgShapes v !! id), (bool_decide (id ∈ svgTexts v)); page_step.
Qed.

(** The loop at the head of [onDrawDone] cannot throw. *)
Lemma unhide_total v :
  exists v', forEach (fun hiddenID => setupInnerFlags hiddenID false)
               (setKeys (drawHidden v)) v = OK v' /\ pageStep v v'.
Proof.
  destruct (forEach_total (fun hiddenID => setupInnerFlags hiddenID false)
              (setKeys (drawHidden v)) setupInnerFlags_false_total v) as [v' Hv'].
  exists v'. split; [assumption|].
  eapply (forEach_rel pageStep pageStep_refl pageStep_trans); [|eassumption].
  intros x w w' _. apply setupInnerFlags_false_pageStep.
Qed.

(** ** Completion of a drawing *)

(** C6. When the draw completion callback is called with [null] and no
    continuation flag, it returns, the only event dispatched is one
    [canvas.canceled] (so no [canvas.drawn]), the only call into the
    controller is [draw({enabled: false})], and the mode is [IDLE]; with
    the continuation flag set it dispatches nothing, does not call the
    controller and leaves the mode as it was. *)
Theorem draw_done_with_null (duration : Z) (continueDraw : option bool)
    (v : CanvasView) :
  exists v' es,
    onDrawDone None duration continueDraw v = OK v' /\
    log v' = log v ++ es /\
    if flag continueDraw
    then dispatched es = [] /\ controllerCalls es = [] /\ mode v' = mode v
    else dispatched es = [canvas_canceled] /\
         controllerCalls es = [controller_draw false] /\
         mode v' = Mode.IDLE.
Proof.
  destruct (unhide_total v) as (v1 & Hloop & Hc & es & Hlog & Hdom).
  unfold onDrawDone. rewrite Hloop. simpl.
  destruct (flag continueDraw); simpl.
  - exists v1, es. repeat split; auto using dispatched_DOM, controllerCalls_DOM.
    unfold mode. by rewrite Hc.
  - eexists _, (es ++ [Dispatch canvas_canceled; Ctrl (controller_draw false)]).
    split; [reflexivity|]. simpl. split.
    + rewrite Hlog, <- !app_assoc. reflexivity.
    + unfold dispatched, controllerCalls. rewrite !omap_app.
      fold (dispatched es). fold (controllerCalls es).
      rewrite dispatched_DOM, controllerCalls_DOM by assumption. done.
Qed.

(** C10. When the draw handler completes with a payload whose [clientID]
    is a number, and the controller holds an object with that identifier,
    [onDrawDone] returns after dispatching exactly [canvas.canceled] and
    then [canvas.edited] with that object, the new points and the rotation
    of the object; no [canvas.drawn] is dispatched, the controller is not
    asked to disable drawing, and the mode is [IDLE]. *)
Theorem redraw_done_is_an_edit (d : DrawResult) (id : N) (pts : list Z)
    (state : ObjectState) (duration : Z) (continueDraw : option bool)
    (v : CanvasView) :
  r_clientID d = Some id ->
  resultPoints d = Some pts ->
  findState id (c_objects (controller v)) = Some state ->
  exists v' es,
    onDrawDone (Some d) duration continueDraw v = OK v' /\
    log v' = log v ++ es /\
    dispatched es = [canvas_canceled; canvas_edited state pts (rotation state)] /\
    controllerCalls es = [] /\
    mode v' = Mode.IDLE.
Proof.
  intros Hid Hpts Hfind.
  destruct (unhide_total v) as (v1 & Hloop & Hc & es & Hlog & Hdom).
  unfold onDrawDone. rewrite Hloop. simpl. rewrite Hpts, Hid. simpl.
  rewrite Hc, Hfind.
  eexists _, (es ++ [Dispatch canvas_canceled;
                     Dispatch (canvas_edited state pts (rotation state))]).
  split; [reflexivity|]. simpl. split.
  - rewrite Hlog, <- !app_assoc. reflexivity.
  - unfold dispatched, controllerCalls. rewrite !omap_app.
    fold (dispatched es). fold (controllerCalls es).
    rewrite dispatched_DOM, controllerCalls_DOM by assumption. done.
Qed.

(** ** Invariance under the label and activation functions *)

(** [showDirection] changes no field of the view. *)
Lemma showDirection_OK st id v v' : showDirection st id v = OK v' -> v' = v.
Proof.
  unfold showDirection. destruct (directed st); [|congruence].
  destruct (_ && _); [congruence|discriminate].
Qed.


(** The effects of a deactivation, and of an activation. *)
Definition isDeactivation (e : Effect) : Prop :=
  match e with
  | DOM (HighlightAttribute _ _ false) | DOM (DeactivateShape _)
  | DOM (RemoveText _) | DOM SortObjects => True
  | _ => False
  end.

Definition isActivation (e : Effect) : Prop :=
  match e with
  | DOM (HighlightAttribute _ _ true) | DOM (PointerEvents _ _)
  | DOM (AddText _) | DOM (UpdateTextPosition _) | DOM (ActivateShape _ _)
  | Dispatch (canvas_activated _) => True
  | _ => False
  end.

Section LabelsAndActivation.
(** [R] relates the view before and after a step; it holds across the
    emission of an effect in [P] and across a change of the labels. *)
Context (P : Effect -> Prop) (R : CanvasView -> CanvasView -> Prop).
Context (R_refl : forall v, R v v).
Context (R_trans : forall v1 v2 v3, R v1 v2 -> R v2 v3 -> R v1 v3).
Context (R_emit : forall e v, P e -> R v (emit e v)).
Context (R_texts : forall t v, R v (set_svgTexts t v)).

Lemma addText_stable :
  (forall id, P (DOM (AddText id))) ->
  forall s v, R v (addText s v).
Proof.
  intros HP. induction s as [f els IH] using ObjectState_ind. intros v. simpl.
  destruct (f_shapeType f); try (apply R_emit, HP).
  revert v. induction IH as [|e els He _ IHels]; intros v; simpl.
  - apply R_emit, HP.
  - eapply R_trans; [|apply IHels].
    destruct (decide (clientID e ∈ svgTexts v)); [apply R_refl|].
    eapply R_trans; [apply He | apply R_texts].
Qed.

Lemma deleteText_rec_stable :
  (forall id, P (DOM (RemoveText id))) ->
  forall depth id v v', deleteText_rec depth id v = OK v' -> R v v'.
Proof.
  intros HP. induction depth as [|depth IH]; simpl; intros id v v' H; [discriminate|].
  set (v1 := if decide (id ∈ svgTexts v)
             then emit (DOM (RemoveText id)) (set_svgTexts (svgTexts v ∖ {[id]}) v)
             else v) in *.
  assert (H1 : R v v1).
  { subst v1. destruct (decide (id ∈ svgTexts v)); [|apply R_refl].
    eapply R_trans; [apply R_texts | apply R_emit, HP]. }
  eapply R_trans; [exact H1|].
  destruct (drawnStates v1 !! id) as [d|]; [|injection H as <-; apply R_refl].
  destruct (decide (shapeType d = Skeleton)); [|injection H as <-; apply R_refl].
  eapply (forEach_rel R R_refl R_trans); [|exact H].
  intros x w w' _. apply IH.
Qed.

Lemma deleteText_stable :
  (forall id, P (DOM (RemoveText id))) ->
  forall id v v', deleteText id v = OK v' -> R v v'.
Proof. intros HP id v v'. apply deleteText_rec_stable, HP. Qed.

Context (R_active : forall a v, R v (set_activeElement a v)).

Lemma deactivateAttribute_stable :
  (forall e, isDeactivation e -> P e) ->
  forall v, R v (deactivateAttribute v).
Proof.
  intros HP v. unfold deactivateAttribute.
  destruct (ae_clientID (activeElement v)) as [id|]; [|apply R_refl].
  destruct (ae_attributeID (activeElement v)) as [attr|]; [|apply R_refl].
  eapply R_trans; [|apply R_active].
  destruct (decide (id ∈ svgTexts v)); [|apply R_refl].
  by apply R_emit, HP.
Qed.

Lemma deactivateShape_stable :
  (forall e, isDeactivation e -> P e) ->
  forall v v', deactivateShape v = OK v' -> R v v'.
Proof.
  intros HP v v' H. unfold deactivateShape in H.
  destruct (ae_clientID (activeElement v)) as [id|]; [|injection H as <-; apply R_refl].
  destruct (svgShapes v !! id); [|discriminate].
  destruct (drawnStates v !! id); [|discriminate].
  bind_inv H. injection H as <-.
  eapply R_trans; [apply (R_emit (DOM (DeactivateShape id))); by apply HP|].
  eapply R_trans; [|eapply R_trans; [apply (R_emit (DOM SortObjects)); by apply HP
                                    | apply R_active]].
  destruct (_ && _) in Hv0.
  - eapply deleteText_stable; [|exact Hv0]. intros id'. by apply HP.
  - injection Hv0 as <-. apply R_refl.
Qed.

Lemma deactivate_stable :
  (forall e, isDeactivation e -> P e) ->
  forall v v', deactivate v = OK v' -> R v v'.
Proof.
  intros HP v v' H. unfold deactivate in H.
  eapply R_trans; [by apply deactivateAttribute_stable|].
  by eapply deactivateShape_stable.
Qed.

Lemma activateAttribute_stable :
  (forall e, isActivation e -> P e) ->
  forall id attr v, R v (activateAttribute id attr v).
Proof.
  intros HP id attr v. unfold activateAttribute.
  destruct (decide (id ∈ svgTexts v)); [|apply R_refl].
  eapply R_trans; [|apply R_active]. by apply R_emit, HP.
Qed.

Lemma activateShape_stable :
  (forall e, isActivation e -> P e) ->
  forall id v v', activateShape id v = OK v' -> R v v'.
Proof.
  intros HP id v v' H. unfold activateShape in H. bind_inv H.
  assert (H0 : R v v0).
  { destruct (findState id (c_objects (controller v))) as [st|];
      [|injection Hv0 as <-; apply R_refl].
    destruct (decide (shapeType st = Points)); [|injection Hv0 as <-; apply R_refl].
    destruct (svgShapes v !! id); [|discriminate].
    injection Hv0 as <-. by apply R_emit, HP. }
  eapply R_trans; [exact H0|]. clear H0 Hv0.
  destruct (findState id (c_objects (controller v))) as [st|];
    [|injection H as <-; apply R_refl].
  destruct (hidden st || outside st); [injection H as <-; apply R_refl|].
  set (v2 := if decide (id ∈ svgTexts v0) then v0
             else let w := addText st v0 in
                  set_svgTexts ({[clientID st]} ∪ svgTexts w) w) in *.
  assert (H2 : R v0 v2).
  { subst v2. destruct (decide (id ∈ svgTexts v0)); [apply R_refl|].
    eapply R_trans; [|apply R_texts]. apply addText_stable.
    intros id'. by apply HP. }
  assert (H3 : R v2 (updateTextPosition id v2)) by (by apply R_emit, HP).
  destruct (stateIsLocked st (updateTextPosition id v2)).
  { injection H as <-. eauto. }
  destruct (svgShapes v0 !! id); [|discriminate].
  bind_inv H. apply showDirection_OK in Hv1 as ->. injection H as <-.
  eapply R_trans; [exact H2|]. eapply R_trans; [exact H3|].
  eapply R_trans; apply R_emit; by apply HP.
Qed.

Lemma activate_stable :
  (forall e, isDeactivation e \/ isActivation e -> P e) ->
  forall ae v v', activate ae v = OK v' -> R v v'.
Proof.
  intros HP ae v v' H. unfold activate in H.
  bind_inv H. bind_inv H.
  assert (H0 : R v v0).
  { destruct (ae_clientID (activeElement v)); [|injection Hv0 as <-; apply R_refl].
    destruct (decide (_ ≠ _)) in Hv0.
    - eapply deactivate_stable; [|exact Hv0]. auto.
    - destruct (decide (_ ≠ _)) in Hv0; injection Hv0 as <-; [|apply R_refl].
      apply deactivateAttribute_stable. auto. }
  assert (H1 : R v0 v1).
  { destruct (ae_clientID ae) as [id|]; [|injection Hv1 as <-; apply R_refl].
    destruct (decide (_ ≠ _)) in Hv1; [|injection Hv1 as <-; apply R_refl].
    bind_inv Hv1. injection Hv1 as <-.
    eapply R_trans; [|apply R_active].
    eapply activateShape_stable; [|eassumption]. auto. }
  eapply R_trans; [exact H0|]. eapply R_trans; [exact H1|].
  destruct (ae_clientID ae) as [id|]; [|injection H as <-; apply R_refl].
  destruct (ae_attributeID ae) as [attr|]; [|injection H as <-; apply R_refl].
  destruct (decide (_ ≠ _)) in H; injection H as <-; [|apply R_refl].
  apply activateAttribute_stable. auto.
Qed.
End LabelsAndActivation.

(** ** Invariance under the functions that add, patch and delete *)

Lemma emits_cons e es v : emits (e :: es) v = emits es (emit e v).
Proof. unfold emits, emit. simpl. by rewrite <- app_assoc. Qed.

Lemma emits_nil v : emits [] v = v.
Proof. destruct v. unfold emits. simpl. by rewrite app_nil_r. Qed.

Section Primitives.
Context (R : CanvasView -> CanvasView -> Prop).
Context (R_refl : forall v, R v v).
Context (R_trans : forall v1 v2 v3, R v1 v2 -> R v2 v3 -> R v1 v3).
Context (R_emit : forall e v, R v (emit e v)).
Context (R_texts : forall t v, R v (set_svgTexts t v)).
Context (R_shapes : forall m v, R v (set_svgShapes m v)).
Context (R_idle : forall v, R v (set_mode Mode.IDLE v)).
(** The store of drawn states changes in two ways only: the entry of an
    identifier is deleted, or it is replaced by the snapshot of an object
    state; [Q] holds of the object states that are saved. *)
Context (Q : ObjectState -> Prop).
Context (R_delete : forall k v, R v (set_drawnStates (delete k (drawnStates v)) v)).
Context (R_insert : forall s v, Q s ->
  R v (set_drawnStates (<[clientID s := saveState s]> (drawnStates v)) v)).

Lemma emits_stable es v : R v (emits es v).
Proof.
  revert v. induction es as [|e es IH]; intros v.
  - rewrite emits_nil. apply R_refl.
  - rewrite emits_cons. eapply R_trans; [apply R_emit | apply IH].
Qed.

Lemma deleteObject_stable s v v' : deleteObject s v = OK v' -> R v v'.
Proof.
  revert v v'. induction s as [f els IH] using ObjectState_ind. intros v v' H.
  simpl in H. bind_inv H. bind_inv H. injection H as <-.
  assert (H0 : R v v0).
  { destruct (decide (_ ∈ _)) in Hv0; [|injection Hv0 as <-; apply R_refl].
    eapply (deleteText_stable (fun _ => True)); eauto. }
  assert (H1 : R v0 v1).
  { clear Hv0 H0. destruct (f_shapeType f); try (injection Hv1 as <-; apply R_refl).
    revert v0 Hv1. induction IH as [|e els He _ IHels]; intros v0 Hv1; simpl in Hv1.
    - injection Hv1 as <-. apply R_refl.
    - bind_inv Hv1. eapply R_trans; [eapply He; eassumption | eapply IHels; eassumption]. }
  eapply R_trans; [exact H0|]. eapply R_trans; [exact H1|].
  match goal with |- R _ (if _ then set_drawnStates _ ?w else ?w) =>
    assert (H2 : R v1 w) end.
  { destruct (svgShapes v1 !! f_clientID f) as [shape|]; [|apply R_refl].
    eapply R_trans; [|eapply R_trans; [apply R_shapes | apply R_emit]].
    destruct (removeListener shape); [|apply R_refl].
    eapply R_trans; [apply R_idle | apply R_emit]. }
  destruct (decide (_ ∈ dom _)); [|exact H2].
  eapply R_trans; [exact H2 | apply R_delete].
Qed.

Lemma deleteObjects_stable states v v' : deleteObjects states v = OK v' -> R v v'.
Proof.
  apply (forEach_rel R R_refl R_trans). intros s w w' _. apply deleteObject_stable.
Qed.

Lemma addSkeleton_stable state v : R v (addSkeleton state v).
Proof.
  unfold addSkeleton. eapply R_trans; [apply R_emit|].
  apply (fold_left_rel R R_refl R_trans). intros e w _.
  destruct (decide (_ = _)); [|apply R_refl].
  eapply R_trans; [apply R_shapes | apply R_emit].
Qed.

Lemma addObject_stable state v : Q state -> R v (addObject state v).
Proof.
  intros HQ. unfold addObject.
  assert (Hfinish : forall v1, R v v1 ->
    R v (let v2 := set_svgShapes (<[clientID state := mkShape false]> (svgShapes v1)) v1 in
         let v3 := if displayAllText (configuration v2)
                   then let w := addText state v2 in
                        updateTextPosition (clientID state)
                          (set_svgTexts ({[clientID state]} ∪ svgTexts w) w)
                   else v2 in
         set_drawnStates (<[clientID state := saveState state]> (drawnStates v3)) v3)).
  { intros v1 H1. cbv zeta. eapply R_trans; [|by apply R_insert].
    eapply R_trans; [exact H1|]. eapply R_trans; [apply R_shapes|].
    destruct (displayAllText _); [|apply R_refl].
    eapply R_trans; [|apply R_emit]. eapply R_trans; [|apply R_texts].
    apply (addText_stable (fun _ => True)); eauto. }
  destruct (shapeType state); try (apply Hfinish, R_emit).
  - apply Hfinish, addSkeleton_stable.
  - apply R_refl.
Qed.

Lemma addObjects_stable states v :
  (forall s, s ∈ states -> Q s) -> R v (addObjects states v).
Proof.
  intros HQ. apply (fold_left_rel R R_refl R_trans). intros s w Hs.
  by apply addObject_stable, HQ.
Qed.

Lemma onShape_stable shape d v v' : onShape shape d v = OK v' -> R v v'.
Proof. destruct shape; simpl; [intros [= <-]; apply R_emit | discriminate]. Qed.

Lemma when_stable b f v v' :
  (forall w w', f w = OK w' -> R w w') -> when b f v = OK v' -> R v v'.
Proof. intros Hf. destruct b; simpl; [apply Hf | intros [= <-]; apply R_refl]. Qed.

(** The step of [updateObjects] for a change of [pinned]: it is only
    taken when an element is active. *)
Context (R_pin : forall v v',
  ae_clientID (activeElement v) <> None ->
  (w <~ deactivate v ;; activate (activeElement v) w) = OK v' -> R v v').

Lemma updateObject_stable state v v' :
  Q state -> updateObject state v = OK v' -> R v v'.
Proof.
  unfold updateObject. intros HQ H.
  destruct (drawnStates v !! clientID state) as [d|]; [|discriminate].
  do 8 bind_inv H. injection H as <-.
  assert (H9 : exists v9, R v6 v9 /\ R v9 v7) by
    (match type of Hv7 with
     | when _ _ (if _ then match _ with Some _ => emit _ ?w | None => _ end else _) = _ =>
         exists w
     end; split;
     [ split_if;
       [ split_if; [|apply R_refl];
         eapply R_trans; [apply R_emit|]; eapply R_trans; [|apply R_texts];
         apply (addText_stable (fun _ => True)); eauto
       | split_if; [apply emits_stable | apply R_refl] ]
     | eapply R_trans; [|eapply when_stable; [apply onShape_stable | exact Hv7]];
       split_if; [|apply R_refl];
       destruct (svgShapes v !! clientID state); [apply R_emit | apply R_refl] ]).
  clear Hv7. destruct H9 as (v9 & H8 & H9).
  repeat match goal with
         | Hw : when _ (onShape _ _) _ = OK _ |- _ =>
             apply (when_stable _ _ _ _ (onShape_stable _ _)) in Hw
         end.
  assert (H1 : R v v0).
  { eapply when_stable; [|eassumption]. intros w w' Hw. bind_inv Hw.
    injection Hw as <-. eapply R_trans; [eapply onShape_stable; eassumption|].
    split_if; [|apply R_refl]. split_if; [apply R_emit|].
    eapply R_trans; apply R_emit. }
  assert (H4 : R v2 v3).
  { destruct (negb _ && bool_decide (ae_clientID (activeElement v2) ≠ None)) eqn:Hg;
      simpl in Hv3; [|injection Hv3 as <-; apply R_refl].
    apply R_pin; [|exact Hv3].
    apply andb_true_iff in Hg as [_ Hg]. by apply bool_decide_eq_true in Hg. }
  assert (H6 : R v4 v5).
  { eapply when_stable; [|eassumption]. intros w w' Hw. bind_inv Hw.
    injection Hw as <-. eapply R_trans; [eapply onShape_stable; eassumption|].
    split_if; [apply R_emit | apply R_refl]. }
  clear Hv0 Hv3 Hv5.
  eapply R_trans; [|by apply R_insert].
  eapply R_trans; [exact H1|]. eapply R_trans; [exact Hv1|].
  eapply R_trans; [exact Hv2|]. eapply R_trans; [exact H4|].
  eapply R_trans; [exact Hv4|]. eapply R_trans; [exact H6|].
  eapply R_trans; [exact Hv6|]. eapply R_trans; [exact H8 | exact H9].
Qed.

Lemma updateObjects_stable states v v' :
  (forall s, s ∈ states -> Q s) -> updateObjects states v = OK v' -> R v v'.
Proof.
  intros HQ. apply (forEach_rel R R_refl R_trans). intros s w w' Hs.
  by apply updateObject_stable, HQ.
Qed.
End Primitives.

(** ** Invariance under a reconciliation pass and a configuration update *)

Section Pass.
Context (R : CanvasView -> CanvasView -> Prop).
Context (R_refl : forall v, R v v).
Context (R_trans : forall v1 v2 v3, R v1 v2 -> R v2 v3 -> R v1 v3).
Context (R_emit : forall e v, R v (emit e v)).
Context (R_texts : forall t v, R v (set_svgTexts t v)).
Context (R_shapes : forall m v, R v (set_svgShapes m v)).
Context (R_idle : forall v, R v (set_mode Mode.IDLE v)).
Context (R_active : forall a v, R v (set_activeElement a v)).
Context (Q : ObjectState -> Prop).
Context (R_delete : forall k v, R v (set_drawnStates (delete k (drawnStates v)) v)).
Context (R_insert : forall s v, Q s ->
  R v (set_drawnStates (<[clientID s := saveState s]> (drawnStates v)) v)).

Lemma deactivate_pass v v' : deactivate v = OK v' -> R v v'.
Proof. apply (deactivate_stable (fun _ => True)); auto. Qed.

Lemma activate_pass ae v v' : activate ae v = OK v' -> R v v'.
Proof. apply (activate_stable (fun _ => True)); auto. Qed.

Lemma pin_pass v v' :
  ae_clientID (activeElement v) <> None ->
  (w <~ deactivate v ;; activate (activeElement v) w) = OK v' -> R v v'.
Proof.
  intros _ H. bind_inv H.
  eapply R_trans; [eapply deactivate_pass | eapply activate_pass]; eassumption.
Qed.

Lemma created_of_subset drawn states s : s ∈ created_of drawn states -> s ∈ states.
Proof. unfold created_of. rewrite list_elem_of_filter. tauto. Qed.

Lemma updated_of_subset drawn states s : s ∈ updated_of drawn states -> s ∈ states.
Proof. unfold updated_of. rewrite list_elem_of_filter. tauto. Qed.

Lemma setupObjects_stable states v v' :
  (forall s, s ∈ states -> Q s) -> setupObjects states v = OK v' -> R v v'.
Proof.
  unfold setupObjects. intros HQ H.
  assert (HQc : forall s, s ∈ created_of (drawnStates v) states -> Q s)
    by (intros s Hs; eapply HQ, created_of_subset, Hs).
  assert (HQu : forall (T : ObjectState -> Prop) `{forall x, Decision (T x)} s,
             s ∈ filter T (updated_of (drawnStates v) states) -> Q s).
  { intros T ? s Hs. apply list_elem_of_filter in Hs as [_ Hs].
    eapply HQ, updated_of_subset, Hs. }
  destruct (_ || _) in H; [|injection H as <-; apply R_refl].
  do 5 bind_inv H. injection H as <-.
  assert (H0 : R v v0).
  { destruct (bool_decide _) in Hv0; [by apply deactivate_pass|].
    injection Hv0 as <-. apply R_refl. }
  assert (H1 : R v0 v1) by (eapply (deleteObjects_stable R); eauto).
  assert (H2 : R (addObjects (created_of (drawnStates v) states) v1) v2).
  { eapply (updateObjects_stable R); revgoals;
      first [exact Hv2 | intros s Hs; eapply HQu, Hs | apply pin_pass | eassumption]. }
  assert (H3 : R v2 v3) by (eapply (deleteObjects_stable R); eauto).
  clear Hv1 Hv2 Hv3.
  assert (H4 : R (sortObjects (addObjects
              (filter (fun state => shapeType state = Skeleton)
                 (updated_of (drawnStates v) states)) v3)) v4).
  { destruct (ae_clientID (c_activeElement _)) in Hv4;
      [|injection Hv4 as <-; apply R_refl].
    destruct (decide (_ ∈ _)) in Hv4; [by eapply activate_pass|].
    injection Hv4 as <-. apply R_refl. }
  eapply R_trans; [exact H0|]. eapply R_trans; [exact H1|].
  eapply R_trans; [|eapply R_trans; [exact H2|]].
  { eapply (addObjects_stable R); first [exact HQc | eassumption]. }
  eapply R_trans; [exact H3|].
  eapply R_trans; [|eapply R_trans; [|eapply R_trans; [exact H4 | apply R_emit]]].
  { eapply (addObjects_stable R);
      first [intros s Hs; eapply HQu, Hs | eassumption]. }
  apply R_emit.
Qed.

Context (R_config : forall c v, R v (set_configuration c v)).

Lemma configUpdated_stable model v v' : configUpdated model v = OK v' -> R v v'.
Proof.
  unfold configUpdated. intros H. do 4 bind_inv H. injection H as <-.
  apply deactivate_pass in Hv0. apply activate_pass in Hv3.
  eapply R_trans; [exact Hv0|]. eapply R_trans; [|by apply emits_stable].
  eapply R_trans; [|exact Hv3].
  assert (H1 : forall w, R w (if negb (shapeOpacity (m_configuration model)
                                        =? shapeOpacity (configuration v0))%N
                || negb (selectedShapeOpacity (m_configuration model)
                         =? selectedShapeOpacity (configuration v0))%N
                || negb (bool_decide (outlinedBorders (m_configuration model)
                                      = outlinedBorders (configuration v0)))
                || negb (bool_decide (colorBy (m_configuration model)
                                      = colorBy (configuration v0)))
              then emit (DOM UpdateShapeViews) w else w)).
  { intros w. split_if; [apply R_emit | apply R_refl]. }
  eapply R_trans; [apply H1|]. clear H1.
  assert (H2 : R (if negb (shapeOpacity (m_configuration model)
                           =? shapeOpacity (configuration v0))%N
                || negb (selectedShapeOpacity (m_configuration model)
                         =? selectedShapeOpacity (configuration v0))%N
                || negb (bool_decide (outlinedBorders (m_configuration model)
                                      = outlinedBorders (configuration v0)))
                || negb (bool_decide (colorBy (m_configuration model)
                                      = colorBy (configuration v0)))
              then emit (DOM UpdateShapeViews) v0 else v0) v1).
  { destruct (_ && _) in Hv1.
    - injection Hv1 as <-. apply (fold_left_rel R R_refl R_trans). intros i w _.
      split_if; [apply R_refl|].
      destruct (drawnStates w !! i); [|apply R_refl].
      eapply R_trans; [|apply R_texts]. apply (addText_stable (fun _ => True)); auto.
    - destruct (_ && _) in Hv1; [|injection Hv1 as <-; apply R_refl].
      eapply (forEach_rel R R_refl R_trans); [|exact Hv1]. intros i w w' _ Hw.
      cbv beta in Hw.
      destruct (decide (Some i ≠ _)) in Hw; [|injection Hw as <-; apply R_refl].
      eapply (deleteText_stable (fun _ => True)); eauto. }
  eapply R_trans; [exact H2|]. clear H2 Hv1.
  set (v4 := match smoothImage (m_configuration model) with
             | Some b => emit (DOM (SmoothImage b)) v1
             | None => v1
             end) in *.
  assert (H3 : R v1 v4)
    by (subst v4; destruct (smoothImage _); [apply R_emit | apply R_refl]).
  clearbody v4. eapply R_trans; [exact H3|]. clear H3.
  eapply R_trans; [apply (R_config (m_configuration model))|].
  assert (H4 : R (set_configuration (m_configuration model) v4) v2).
  { destruct (negb _) in Hv2; [|injection Hv2 as <-; apply R_refl].
    eapply (forEach_rel R R_refl R_trans); [|exact Hv2]. intros i w w' _ Hw.
    cbv beta in Hw.
    destruct (decide (i ∈ _)) in Hw; [|injection Hw as <-; apply R_refl].
    bind_inv Hw. injection Hw as <-.
    eapply R_trans; [eapply (deleteText_stable (fun _ => True)); eauto|].
    destruct (findState _ _); [|apply R_refl].
    eapply R_trans; [|apply R_texts]. apply (addText_stable (fun _ => True)); auto. }
  eapply R_trans; [exact H4|]. clear H4 Hv2.
  eapply R_trans; [|destruct (CSSImageFilter _); [apply R_emit | apply R_refl]].
  split_if; [|apply R_refl].
  apply (fold_left_rel R R_refl R_trans). intros i w _.
  split_if; [apply R_emit | apply R_refl].
Qed.
End Pass.

(** ** The mode across a notification *)

(** The mode is kept, or reset to [IDLE]. *)
Definition quiet (v v' : CanvasView) : Prop :=
  mode v' = mode v \/ mode v' = Mode.IDLE.

Lemma quiet_refl v : quiet v v.
Proof. by left. Qed.

Lemma quiet_trans v1 v2 v3 : quiet v1 v2 -> quiet v2 v3 -> quiet v1 v3.
Proof. unfold quiet. intros [H1|H1] [H2|H2]; rewrite ?H2, ?H1; auto. Qed.

Lemma quiet_same v v' : mode v' = mode v -> quiet v v'.
Proof. by left. Qed.

Lemma setupObjects_quiet states v v' : setupObjects states v = OK v' -> quiet v v'.
Proof.
  apply setupObjects_stable with (Q := fun _ => True);
    first [exact quiet_refl | exact quiet_trans | done | intros; first [by left | by right]].
Qed.

Lemma activate_quiet ae v v' : activate ae v = OK v' -> quiet v v'.
Proof.
  apply (activate_pass quiet quiet_refl quiet_trans); intros; by left.
Qed.

Lemma configUpdated_quiet model v v' : configUpdated model v = OK v' -> quiet v v'.
Proof.
  apply (configUpdated_stable quiet quiet_refl quiet_trans); intros; by left.
Qed.

#[local] Arguments setupInnerFlags : simpl never.

Lemma setupInnerFlags_mode id value v v' :
  setupInnerFlags id value v = OK v' -> mode v' = mode v.
Proof.
  unfold setupInnerFlags. destruct value.
  - intros H. bind_inv H. injection H as <-.
    transitivity (mode v0); [by destruct (bool_decide _)|].
    destruct (svgShapes v !! id), (drawnStates v !! id); try discriminate;
      by injection Hv0 as <-.
  - intros [= <-]. destruct (drawnStates v !! id) as [st|]; [|done].
    destruct (_ && _); [|done].
    by destruct (svgShapes v !! id), (bool_decide _).
Qed.

(** How a notification can change the mode. *)
Definition modeTransition (reason : UpdateReasons.t) (v v' : CanvasView) : Prop :=
  mode v' = mode v \/
  mode v' = Mode.IDLE \/
  (reason = UpdateReasons.DRAW /\ mode v = Mode.IDLE /\
   dd_enabled (c_drawData (controller v)) = true /\ mode v' = Mode.DRAW) \/
  (reason = UpdateReasons.INTERACT /\ mode v = Mode.IDLE /\
   id_enabled (c_interactionData (controller v)) = true /\ mode v' = Mode.INTERACT) \/
  (reason = UpdateReasons.MERGE /\
   enabled (c_mergeData (controller v)) = true /\ mode v' = Mode.MERGE) \/
  (reason = UpdateReasons.SPLIT /\
   enabled (c_splitData (controller v)) = true /\ mode v' = Mode.SPLIT) \/
  (reason = UpdateReasons.GROUP /\
   enabled (c_groupData (controller v)) = true /\ mode v' = Mode.GROUP).

Lemma quiet_transition reason v v' : quiet v v' -> modeTransition reason v v'.
Proof. unfold modeTransition. intros [H|H]; auto. Qed.

Lemma notify_branch_transition model reason v v' :
  notify model reason v = OK v' -> modeTransition reason v v'.
Proof.
  unfold notify. intros H. bind_inv H. injection H as <-.
  assert (Hlast : forall w, mode (if m_imageBitmap model
                                     && (bool_decide (reason = UpdateReasons.IMAGE_CHANGED)
                                         || bool_decide (reason = UpdateReasons.OBJECTS_UPDATED))
                                  then emit (DOM RedrawBitmap) w else w) = mode w)
    by (intros w; split_if; reflexivity).
  unfold modeTransition. rewrite Hlast. clear Hlast.
  fold (modeTransition reason v v0).
  destruct reason; simpl in Hv0;
    try (injection Hv0 as <-; apply quiet_transition, quiet_same;
         repeat split_if; reflexivity).
  - (* OBJECTS_UPDATED *)
    bind_inv Hv0. injection Hv0 as <-. apply quiet_transition.
    eapply quiet_trans; [|eapply quiet_trans; [eapply setupObjects_quiet; eassumption|]].
    + apply quiet_same. split_if; reflexivity.
    + apply quiet_same. split_if; reflexivity.
  - (* SHAPE_ACTIVATED *)
    eapply quiet_transition, activate_quiet; eassumption.
  - (* FITTED_CANVAS *)
    bind_inv Hv0. injection Hv0 as <-. apply quiet_transition.
    eapply quiet_trans; [eapply setupObjects_quiet; eassumption | by left].
  - (* INTERACT *)
    injection Hv0 as <-.
    destruct (id_enabled (c_interactionData (controller v))) eqn:He; simpl.
    + destruct (bool_decide (mode v = Mode.IDLE)) eqn:Hm; simpl.
      * apply bool_decide_eq_true in Hm.
        destruct (id_intermediateShape _); simpl; [by left|].
        right; right; right; left. done.
      * destruct (id_intermediateShape _); simpl; [by left|].
        left. by split_if.
    + left. by split_if.
  - (* DRAW *)
    destruct (dd_enabled (c_drawData (controller v))) eqn:He; simpl in Hv0.
    + destruct (bool_decide (mode v = Mode.IDLE)) eqn:Hm; simpl in Hv0.
      * apply bool_decide_eq_true in Hm. bind_inv Hv0. injection Hv0 as <-.
        right; right; left. repeat split; try done.
        destruct (dd_redraw _); [|by injection Hv1 as <-].
        by apply setupInnerFlags_mode in Hv1.
      * injection Hv0 as <-. left. by split_if.
    + injection Hv0 as <-. left. by split_if.
  - (* MERGE *)
    injection Hv0 as <-.
    destruct (enabled (c_mergeData (controller v))) eqn:He; [|by left].
    do 4 right. left. done.
  - (* SPLIT *)
    injection Hv0 as <-.
    destruct (enabled (c_splitData (controller v))) eqn:He; [|by left].
    do 5 right. left. done.
  - (* GROUP *)
    injection Hv0 as <-.
    destruct (enabled (c_groupData (controller v))) eqn:He; [|by left].
    do 6 right. done.
  - (* SELECT *)
    injection Hv0 as <-. left. unfold mode.
    destruct (c_mode (controller v)) eqn:E; simpl; congruence.
  - (* CANCEL *)
    injection Hv0 as <-. right. by left.
  - (* CONFIG_UPDATED *)
    eapply quiet_transition, configUpdated_quiet; eassumption.
Qed.


(** An idle view whose controller asks to draw. *)
Definition drawRequested : CanvasView :=
  newView sampleModel
    (mkController Mode.IDLE [] (mkActive None None) (mkDrawData true None)
       (mkInteractionData false false) (mkModeData false) (mkModeData false)
       (mkModeData false) None sampleConfiguration 0 0).

Definition drawEntered : CanvasView :=
  emit (Call (draw (mkDrawData true None)))
    (set_mode Mode.DRAW (set_cursor crosshair drawRequested)).


(** A view in the middle of a drawing whose controller asks to merge. *)
Definition mergeWhileDrawing : CanvasView :=
  set_mode Mode.DRAW
    (newView sampleModel
       (mkController Mode.IDLE [] (mkActive None None) (mkDrawData true None)
          (mkInteractionData false false) (mkModeData true) (mkModeData false)
          (mkModeData false) None sampleConfiguration 0 0)).


Definition rectangle1 : ObjectState := sampleState 1 Rectangle [0; 0; 10; 10]%Z 1.

(** A view that redraws object 1: the object is drawn and hidden. *)
Definition redrawing : CanvasView :=
  set_drawHidden {[1%N]}
    (set_mode Mode.DRAW
       (addObjects [rectangle1]
          (newView sampleModel (sampleController [rectangle1] (mkActive None None))))).

Lemma redraw_done_is_an_edit_witness :
  r_clientID (mkDrawResult (Some 1%N) (Some [0; 0; 5; 5]%Z) None) = Some 1%N /\
  resultPoints (mkDrawResult (Some 1%N) (Some [0; 0; 5; 5]%Z) None)
    = Some [0; 0; 5; 5]%Z /\
  findState 1 (c_objects (controller redrawing)) = Some rectangle1 /\
  exists v' es,
    onDrawDone (Some (mkDrawResult (Some 1%N) (Some [0; 0; 5; 5]%Z) None)) 3 None
      redrawing = OK v' /\
    log v' = log redrawing ++ es /\
    dispatched es
      = [canvas_canceled;
         canvas_edited rectangle1 [0; 0; 5; 5]%Z (rotation rectangle1)] /\
    controllerCalls es = [] /\
    mode v' = Mode.IDLE.
Proof.
  repeat (split; [reflexivity|]).
  apply (redraw_done_is_an_edit _ 1%N [0; 0; 5; 5]%Z rectangle1 3 None redrawing);
    reflexivity.
Defined.

(** ** The calls that take the rotation of a shape off and put it back *)

Section RotationRestored.
Import RotatedShape.
Context {Shape Matrix num : Type}.
Context (transformRotation : Shape -> Q).
Context (rotate : Q -> option (Q * Q) -> Shape -> Shape).
Context (getScreenCTM : Shape -> Result Matrix).
Context (contentScreenCTMInverse : Result Matrix).
Context (matrixTransform : num * num -> Matrix -> Result (num * num)).

End RotationRestored.

(** ** Angles *)

Lemma addTurns_nonneg (angle : Q) : (0 <= addTurns angle)%Q.
Proof. funelim (addTurns angle); assumption. Qed.

Lemma jsRem_range (x : Q) : (0 <= x)%Q -> (0 <= jsRem x 360 /\ jsRem x 360 < 360)%Q.
Proof.
  intros Hx. unfold jsRem, Qtrunc.
  assert (Hq : (0 <= x / 360)%Q) by (apply Qle_shift_div_l; lra).
  destruct (Qlt_le_dec (x / 360) 0) as [Hneg|_]; [lra|].
  pose proof (Qfloor_le (x / 360)) as Hlow.
  pose proof (Qlt_floor (x / 360)) as Hup.
  rewrite inject_Z_plus in Hup. change (inject_Z 1) with 1%Q in Hup.
  assert (E : (x == 360 * (x / 360))%Q) by (field; try lra).
  revert Hlow Hup E. generalize (inject_Z (Qfloor (x / 360))), (x / 360)%Q.
  intros f t Hlow Hup E. lra.
Qed.

Lemma normalizeRotation_range (angle : Q) :
  (0 <= normalizeRotation angle /\ normalizeRotation angle < 360)%Q.
Proof. apply jsRem_range, addTurns_nonneg. Qed.

Lemma showDirection_returns state id v :
  shaped state = true ->
  (forall d, drawnStates v !! id = Some d -> shaped d = true) ->
  showDirection state id v = OK v.
Proof.
  intros Hs Hd. unfold showDirection, shaped in *.
  destruct (directed state); [|done]. simpl in Hs. rewrite Hs.
  destruct (drawnStates v !! id) as [d|]; [|done].
  simpl. by rewrite (Hd d eq_refl).
Qed.

Lemma resizedone_reports state id pts angle unrotate v d :
  drawnStates v !! id = Some d ->
  shaped state = true -> shaped d = true ->
  exists v' pts',
    resizedone state id true pts angle unrotate v = OK v' /\
    dispatched (drop (length (log v)) (log v'))
    = [canvas_edited state pts' (normalizeRotation (default 0%Q angle));
       canvas_resizeshape (clientID state)].
Proof.
  intros Hd Hs Hsd. unfold resizedone.
  set (v1 := showText id (set_mode Mode.IDLE (setRemoveListener id false v))).
  assert (Hd' : drawnStates v1 !! id = Some d).
  { subst v1. unfold setRemoveListener. by destruct (svgShapes v !! id). }
  assert (Hlog : log v1
                 = log v ++ [DOM (SetTextHidden id false); DOM (UpdateTextPosition id)]).
  { subst v1. unfold setRemoveListener. destruct (svgShapes v !! id); simpl;
      by rewrite <- app_assoc. }
  clearbody v1. rewrite (showDirection_returns state id v1 Hs);
    [|intros d' Hd''; congruence].
  cbn [bind].
  rewrite Hd'. eexists _, _. split; [reflexivity|].
  simpl. rewrite Hlog, <- !app_assoc, drop_app_length. reflexivity.
Qed.

Lemma dragend_reports state id pts angle unrotate v d :
  drawnStates v !! id = Some d ->
  exists v' pts',
    dragend state id true pts angle unrotate v = OK v' /\
    dispatched (drop (length (log v)) (log v'))
    = [canvas_edited state pts' (rotation state); canvas_dragshape (clientID state)].
Proof.
  intros Hd. unfold dragend.
  set (v1 := showText id (set_mode Mode.IDLE (setRemoveListener id false v))).
  assert (Hd' : drawnStates v1 !! id = Some d).
  { subst v1. unfold setRemoveListener. by destruct (svgShapes v !! id). }
  assert (Hlog : log v1
                 = log v ++ [DOM (SetTextHidden id false); DOM (UpdateTextPosition id)]).
  { subst v1. unfold setRemoveListener. destruct (svgShapes v !! id); simpl;
      by rewrite <- app_assoc. }
  clearbody v1. rewrite Hd'. eexists _, _. split; [reflexivity|].
  simpl. rewrite Hlog, <- !app_assoc, drop_app_length. reflexivity.
Qed.

Lemma onEditDone_reports state pts angle v :
  dispatched (drop (length (log v))
                (log (onEditDone (Some state) (Some pts) angle v)))
  = [canvas_edited state pts (default (rotation state) angle)].
Proof.
  unfold onEditDone. simpl. rewrite drop_app_length. by destruct angle.
Qed.

Section DirectionOfCoincidentPoints.
Import Direction.
Local Open Scope R_scope.

Lemma directionAngle_coincident scalarProduct vectorLength (p : Point) :
  vectorLength (mkVector 0 0) = 0 ->
  directionAngle scalarProduct vectorLength p p = 90.
Proof.
  intros Hzero. unfold directionAngle. simpl.
  replace (x p - x p) with 0 by ring. replace (y p - y p) with 0 by ring.
  rewrite Hzero. destruct (Req_EM_T 0 0) as [_|Hne]; [|by destruct Hne].
  unfold signOrOne. destruct (Rlt_dec 0 0) as [Hlt|_]; [lra|].
  rewrite acos_0. field. split; [apply PI_neq0 | lra].
Qed.

Lemma euclidLength_zero : euclidLength (mkVector 0 0) = 0.
Proof. unfold euclidLength. simpl. rewrite Rmult_0_l, Rplus_0_l. apply sqrt_0. Qed.
End DirectionOfCoincidentPoints.


(** Object 1 with a rotation of 400 degrees, drawn. *)
Definition turned : ObjectState := withRotation 400 rectangle1.

Definition turnedView : CanvasView :=
  addObjects [turned]
    (newView sampleModel (sampleController [turned] (mkActive None None))).



(** ** Activation: the highlight of an attribute *)

Definition isHighlight (e : Effect) : Prop :=
  match e with DOM (HighlightAttribute _ _ _) => True | _ => False end.

Lemma dispatched_highlight es : Forall isHighlight es -> dispatched es = [].
Proof. induction 1 as [|[| | |[]] es He _ IH]; simpl in *; try done. Qed.

Lemma activateShape_missing id v :
  findState id (c_objects (controller v)) = None -> activateShape id v = OK v.
Proof. intros H. unfold activateShape. by rewrite H. Qed.

Lemma activateAttribute_highlight id attr v :
  exists es, Forall isHighlight es /\
    log (activateAttribute id attr v) = log v ++ es /\
    svgShapes (activateAttribute id attr v) = svgShapes v /\
    svgTexts (activateAttribute id attr v) = svgTexts v /\
    drawnStates (activateAttribute id attr v) = drawnStates v /\
    ae_clientID (activeElement (activateAttribute id attr v))
    = ae_clientID (activeElement v).
Proof.
  unfold activateAttribute. destruct (decide (id ∈ svgTexts v)).
  - exists [DOM (HighlightAttribute id attr true)]. repeat split. by repeat constructor.
  - exists []. rewrite app_nil_r. by repeat split.
Qed.

Lemma deactivateAttribute_highlight v :
  exists es, Forall isHighlight es /\
    log (deactivateAttribute v) = log v ++ es /\
    ae_clientID (activeElement (deactivateAttribute v))
    = ae_clientID (activeElement v).
Proof.
  unfold deactivateAttribute.
  destruct (ae_clientID (activeElement v)) as [id|] eqn:Eid;
    [|exists []; rewrite app_nil_r; by repeat split].
  destruct (ae_attributeID (activeElement v)) as [attr|];
    [|exists []; rewrite app_nil_r; by repeat split].
  destruct (decide (id ∈ svgTexts v)).
  - exists [DOM (HighlightAttribute id attr false)]. simpl. repeat split; [|done].
    by repeat constructor.
  - exists []. simpl. rewrite app_nil_r. by repeat split.
Qed.

(** Object 1 is drawn and active; object 2 does not exist. *)
Definition activeRectangle : CanvasView :=
  match activate (mkActive (Some 1%N) None)
          (addObjects [rectangle1]
             (newView sampleModel (sampleController [rectangle1] (mkActive None None))))
  with
  | OK v => v
  | Throw _ => newView sampleModel (sampleController [] (mkActive None None))
  end.

(** ** The partition of a reconciliation pass *)

Lemma elem_of_objectKeys {A} (m : gmap N A) (k : N) : k ∈ objectKeys m <-> k ∈ dom m.
Proof.
  unfold objectKeys. rewrite merge_sort_Permutation.
  rewrite elem_of_dom, list_elem_of_fmap. split.
  - intros ([k' a] & -> & H). apply elem_of_map_to_list in H. by exists a.
  - intros [a H]. exists (k, a). split; [done|]. by apply elem_of_map_to_list.
Qed.

Lemma created_of_nil drawn states :
  created_of drawn states = [] <-> forall s, s ∈ states -> clientID s ∈ dom drawn.
Proof.
  unfold created_of. split.
  - intros H s Hs. apply elem_of_dom.
    destruct (drawn !! clientID s) eqn:E; [by eexists|].
    assert (Hin : s ∈ filter (fun state => drawn !! clientID state = None) states)
      by (apply list_elem_of_filter; auto).
    rewrite H in Hin. by apply elem_of_nil in Hin.
  - intros H. apply elem_of_nil_inv. intros s Hs.
    apply list_elem_of_filter in Hs as [Hnone Hs].
    apply H, elem_of_dom in Hs as [d Hd]. congruence.
Qed.

Definition inSync (drawnState state : ObjectState) : Prop :=
  updated drawnState = updated state /\ frame drawnState = frame state.

Lemma changed_false drawn state :
  changed drawn state = false <->
  forall d, drawn !! clientID state = Some d -> inSync d state.
Proof.
  unfold changed, inSync. destruct (drawn !! clientID state) as [d|]; [|by split].
  rewrite orb_false_iff, !negb_false_iff, !Z.eqb_eq. split.
  - intros H d' [= <-]. exact H.
  - intros H. by apply H.
Qed.

Lemma updated_of_nil drawn states :
  updated_of drawn states = [] <->
  forall s d, s ∈ states -> drawn !! clientID s = Some d -> inSync d s.
Proof.
  unfold updated_of. split.
  - intros H s d Hs Hd.
    destruct (changed drawn s) eqn:E; [|by apply (changed_false drawn s)].
    assert (Hin : s ∈ filter (fun state => changed drawn state = true) states)
      by (apply list_elem_of_filter; auto).
    rewrite H in Hin. by apply elem_of_nil in Hin.
  - intros H. apply elem_of_nil_inv. intros s Hs.
    apply list_elem_of_filter in Hs as [Hch Hs].
    assert (changed drawn s = false) by (apply changed_false; eauto). congruence.
Qed.

Lemma elem_of_deletedIDs drawn states k :
  k ∈ deletedIDs drawn states <-> (k ∈ dom drawn) /\ (k ∉ List.map clientID states).
Proof.
  unfold deletedIDs. rewrite list_elem_of_filter, elem_of_objectKeys. tauto.
Qed.

Lemma elem_of_deleted_of drawn states d :
  d ∈ deleted_of drawn states <->
  exists k, (k ∉ List.map clientID states) /\ drawn !! k = Some d.
Proof.
  unfold deleted_of. rewrite list_elem_of_omap. split.
  - intros (k & Hk & Hd). apply elem_of_deletedIDs in Hk as [_ Hk]. eauto.
  - intros (k & Hk & Hd). exists k. split; [|done].
    apply elem_of_deletedIDs. split; [|done]. apply elem_of_dom. eauto.
Qed.

Lemma deleted_of_nil drawn states :
  deleted_of drawn states = [] <->
  forall k, k ∈ dom drawn -> k ∈ List.map clientID states.
Proof.
  split.
  - intros H k Hk. destruct (decide (k ∈ List.map clientID states)); [done|].
    apply elem_of_dom in Hk as [d Hd].
    assert (Hin : d ∈ deleted_of drawn states) by (apply elem_of_deleted_of; eauto).
    rewrite H in Hin. by apply elem_of_nil in Hin.
  - intros H. apply elem_of_nil_inv. intros d Hd.
    apply elem_of_deleted_of in Hd as (k & Hk & Hd). apply Hk, H, elem_of_dom. eauto.
Qed.

(** With an empty partition the pass does nothing. *)
Lemma setupObjects_nothing_to_do states v :
  created_of (drawnStates v) states = [] ->
  updated_of (drawnStates v) states = [] ->
  deleted_of (drawnStates v) states = [] ->
  setupObjects states v = OK v.
Proof. intros Hc Hu Hd. unfold setupObjects. by rewrite Hc, Hu, Hd. Qed.

(** ** An object that comes again with other points *)

(** Scenario B: object 1 has been reconciled; it comes again with other
    points and the same version. *)
Definition afterFirstPass : CanvasView :=
  match setupObjects [rectangle1]
          (newView sampleModel (sampleController [rectangle1] (mkActive None None)))
  with
  | OK v => v
  | Throw _ => newView sampleModel (sampleController [] (mkActive None None))
  end.

Definition rectangle1Moved : ObjectState :=
  sampleState 1 Rectangle [0; 0; 20; 20]%Z 1.

(** ** The store of drawn states across the steps of a pass *)

Definition sameDrawn (v v' : CanvasView) : Prop := drawnStates v' = drawnStates v.

Lemma sameDrawn_refl v : sameDrawn v v.
Proof. done. Qed.

Lemma sameDrawn_trans v1 v2 v3 : sameDrawn v1 v2 -> sameDrawn v2 v3 -> sameDrawn v1 v3.
Proof. unfold sameDrawn. congruence. Qed.

Lemma addText_drawn s v : drawnStates (addText s v) = drawnStates v.
Proof.
  apply (addText_stable (fun _ => True) sameDrawn sameDrawn_refl sameDrawn_trans); done.
Qed.

Lemma deactivate_drawn v v' : deactivate v = OK v' -> drawnStates v' = drawnStates v.
Proof.
  apply (deactivate_stable (fun _ => True) sameDrawn sameDrawn_refl sameDrawn_trans); done.
Qed.

Lemma activate_drawn ae v v' : activate ae v = OK v' -> drawnStates v' = drawnStates v.
Proof.
  apply (activate_stable (fun _ => True) sameDrawn sameDrawn_refl sameDrawn_trans); done.
Qed.

(** [updateObjects] ends every iteration by saving the state. *)
Lemma updateObject_last s v v' :
  updateObject s v = OK v' ->
  exists w, v' = set_drawnStates (<[clientID s := saveState s]> (drawnStates w)) w.
Proof.
  unfold updateObject. intros H.
  destruct (drawnStates v !! clientID s); [|discriminate].
  do 8 bind_inv H. injection H as <-. eauto.
Qed.

Lemma updateObject_store s v v' :
  updateObject s v = OK v' ->
  drawnStates v' = <[clientID s := saveState s]> (drawnStates v).
Proof.
  intros H.
  assert (Hstep : drawnStates v' = drawnStates v \/
                  drawnStates v' = <[clientID s := saveState s]> (drawnStates v)).
  { revert H.
    apply (updateObject_stable
             (fun v v' => drawnStates v' = drawnStates v \/
                          drawnStates v' = <[clientID s := saveState s]> (drawnStates v)))
      with (Q := fun s' => s' = s); try (intros; by left); try done.
    - intros v1 v2 v3 [H1|H1] [H2|H2]; rewrite H2, H1; auto.
      right. apply insert_insert_eq.
    - intros s' w ->. by right.
    - intros w w' _ Hw. bind_inv Hw. left.
      apply activate_drawn in Hw. apply deactivate_drawn in Hv0. congruence. }
  destruct Hstep as [Hsame|Hins]; [|done].
  apply updateObject_last in H as [w ->]. simpl in *.
  rewrite <- Hsame. symmetry. apply insert_insert_eq.
Qed.

Lemma updateObjects_other states k v v' :
  updateObjects states v = OK v' ->
  (forall s, s ∈ states -> clientID s <> k) ->
  drawnStates v' !! k = drawnStates v !! k.
Proof.
  unfold updateObjects. revert v. induction states as [|x rest IH]; simpl; intros v H Hk.
  - by injection H as <-.
  - bind_inv H. rewrite (IH v0 H) by (intros s Hs; apply Hk; by right).
    rewrite (updateObject_store _ _ _ Hv0). apply lookup_insert_ne, Hk. left.
Qed.

(** After [updateObjects], every state of the list is saved. *)
Lemma updateObjects_saved states v v' :
  NoDup (List.map clientID states) ->
  updateObjects states v = OK v' ->
  forall s, s ∈ states -> drawnStates v' !! clientID s = Some (saveState s).
Proof.
  unfold updateObjects. revert v.
  induction states as [|x rest IH]; simpl; intros v Hnodup H s Hs.
  - by apply elem_of_nil in Hs.
  - apply NoDup_cons in Hnodup as [Hx Hnodup]. bind_inv H.
    apply elem_of_cons in Hs as [->|Hs]; [|by eapply IH].
    rewrite (updateObjects_other rest (clientID x) v0 v' H).
    + rewrite (updateObject_store _ _ _ Hv0). apply lookup_insert_eq.
    + intros s Hs Heq. apply Hx. rewrite <- Heq.
      apply list_elem_of_In, in_map, list_elem_of_In, Hs.
Qed.

(** [deleteObjects] only removes entries, and it removes the entry of
    every state of its list. *)
Lemma deleteObjects_subset states v v' :
  deleteObjects states v = OK v' -> drawnStates v' ⊆ drawnStates v.
Proof.
  apply (deleteObjects_stable (fun v v' => drawnStates v' ⊆ drawnStates v));
    try done.
  - intros v1 v2 v3 H1 H2. by transitivity (drawnStates v2).
  - intros k w. apply delete_subseteq.
Qed.

Lemma deleteObject_removed s v v' :
  deleteObject s v = OK v' -> drawnStates v' !! clientID s = None.
Proof.
  destruct s as [f els]. simpl. intros H. do 2 bind_inv H. injection H as <-.
  unfold clientID. simpl. split_if.
  - apply lookup_delete_eq.
  - by apply not_elem_of_dom.
Qed.

Lemma deleteObjects_removed states v v' :
  deleteObjects states v = OK v' ->
  forall s, s ∈ states -> drawnStates v' !! clientID s = None.
Proof.
  unfold deleteObjects. revert v.
  induction states as [|x rest IH]; simpl; intros v H s Hs.
  - by apply elem_of_nil in Hs.
  - bind_inv H. apply elem_of_cons in Hs as [->|Hs]; [|by eapply IH].
    apply deleteObject_removed in Hv0.
    pose proof (deleteObjects_subset rest v0 v' H) as Hsub.
    destruct (drawnStates v' !! clientID x) as [d|] eqn:E; [|done].
    eapply lookup_weaken in E; [|exact Hsub]. congruence.
Qed.

(** ** Reconciling the same list twice *)

(** The store is keyed by the identifier of the saved state. *)
Definition keyed (drawn : gmap N ObjectState) : Prop :=
  forall k d, drawn !! k = Some d -> clientID d = k.

Definition savedFrom (states : list ObjectState) (k : N) (d : ObjectState) : Prop :=
  exists s, (s ∈ states) /\ clientID s = k /\ d = saveState s.

(** Every entry of the store after the step was there before it, or is the
    snapshot of an object of the list. *)
Definition keptOrSaved (states : list ObjectState) (v v' : CanvasView) : Prop :=
  forall k d, drawnStates v' !! k = Some d ->
    drawnStates v !! k = Some d \/ savedFrom states k d.

Lemma saveState_sync s : inSync (saveState s) s.
Proof. by destruct s. Qed.

Lemma saveState_clientID s : clientID (saveState s) = clientID s.
Proof. by destruct s. Qed.

Lemma nonEmpty_false {A} (l : list A) : nonEmpty l = false -> l = [].
Proof. by destruct l. Qed.

Lemma NoDup_filter_ids (T : ObjectState -> Prop) `{forall x, Decision (T x)}
    (states : list ObjectState) :
  NoDup (List.map clientID states) -> NoDup (List.map clientID (filter T states)).
Proof.
  change (NoDup (clientID <$> states) -> NoDup (clientID <$> filter T states)).
  intros Hnodup. eapply sublist_NoDup; [exact Hnodup|].
  apply fmap_sublist, sublist_filter.
Qed.

Lemma NoDup_ids_inj (states : list ObjectState) s s' :
  NoDup (List.map clientID states) ->
  s ∈ states -> s' ∈ states -> clientID s = clientID s' -> s = s'.
Proof.
  induction states as [|x rest IH]; simpl; intros Hnodup Hs Hs' Heq.
  - by apply elem_of_nil in Hs.
  - apply NoDup_cons in Hnodup as [Hx Hnodup].
    assert (Hmem : forall t, t ∈ rest -> clientID t ∈ List.map clientID rest)
      by (intros t Ht; apply list_elem_of_In, in_map, list_elem_of_In, Ht).
    apply elem_of_cons in Hs as [->|Hs]; apply elem_of_cons in Hs' as [->|Hs'].
    + done.
    + exfalso. apply Hx. rewrite Heq. by apply Hmem.
    + exfalso. apply Hx. rewrite <- Heq. by apply Hmem.
    + by apply IH.
Qed.

Lemma savedFrom_sync states s d :
  NoDup (List.map clientID states) ->
  s ∈ states -> savedFrom states (clientID s) d -> inSync d s.
Proof.
  intros Hnodup Hs (s' & Hs' & Heq & ->).
  rewrite (NoDup_ids_inj states s s') by done. apply saveState_sync.
Qed.

Section KeptOrSaved.
Context (states : list ObjectState).

Lemma keptOrSaved_refl v : keptOrSaved states v v.
Proof. intros k d H. by left. Qed.

Lemma keptOrSaved_trans v1 v2 v3 :
  keptOrSaved states v1 v2 -> keptOrSaved states v2 v3 -> keptOrSaved states v1 v3.
Proof.
  intros H1 H2 k d H. destruct (H2 k d H) as [H'|H']; [by apply H1 | by right].
Qed.

Lemma keptOrSaved_same v v' :
  drawnStates v' = drawnStates v -> keptOrSaved states v v'.
Proof. intros Heq k d H. left. by rewrite <- Heq. Qed.

Lemma keptOrSaved_delete k v :
  keptOrSaved states v (set_drawnStates (delete k (drawnStates v)) v).
Proof.
  intros k' d H. left. simpl in H. apply lookup_delete_Some in H. tauto.
Qed.

Lemma keptOrSaved_insert s v :
  s ∈ states ->
  keptOrSaved states v
    (set_drawnStates (<[clientID s := saveState s]> (drawnStates v)) v).
Proof.
  intros Hs k d H. simpl in H. apply lookup_insert_Some in H as [[<- <-]|[_ H]].
  - right. by exists s.
  - by left.
Qed.

Lemma deleteObjects_kept l v v' :
  deleteObjects l v = OK v' -> keptOrSaved states v v'.
Proof.
  intros H k d Hd. left.
  eapply lookup_weaken; [exact Hd | by eapply deleteObjects_subset].
Qed.

Lemma addObjects_kept l v :
  (forall s, s ∈ l -> s ∈ states) -> keptOrSaved states v (addObjects l v).
Proof.
  apply (addObjects_stable (keptOrSaved states))
    with (Q := fun s => s ∈ states);
    first [ apply keptOrSaved_refl | apply keptOrSaved_trans
          | apply keptOrSaved_insert
          | intros; by apply keptOrSaved_same ].
Qed.

Lemma updateObjects_kept l v v' :
  (forall s, s ∈ l -> s ∈ states) ->
  updateObjects l v = OK v' -> keptOrSaved states v v'.
Proof.
  apply (updateObjects_stable (keptOrSaved states))
    with (Q := fun s => s ∈ states);
    first [ apply keptOrSaved_refl | apply keptOrSaved_trans
          | apply keptOrSaved_insert
          | intros; by apply keptOrSaved_same | idtac ].
  intros w w' _ Hw. bind_inv Hw. apply keptOrSaved_same.
  apply activate_drawn in Hw. apply deactivate_drawn in Hv0. congruence.
Qed.

Lemma setupObjects_kept v v' :
  setupObjects states v = OK v' -> keptOrSaved states v v'.
Proof.
  apply (setupObjects_stable (keptOrSaved states))
    with (Q := fun s => s ∈ states);
    first [ apply keptOrSaved_refl | apply keptOrSaved_trans
          | apply keptOrSaved_insert | apply keptOrSaved_delete
          | intros; by apply keptOrSaved_same | done ].
Qed.
End KeptOrSaved.

(** After a pass the store has no identifier beyond those of the list, and
    the entry of every object of the list has its version and its frame. *)
Lemma setupObjects_in_sync states v w :
  keyed (drawnStates v) ->
  NoDup (List.map clientID states) ->
  setupObjects states v = OK w ->
  (forall k, k ∈ dom (drawnStates w) -> k ∈ List.map clientID states) /\
  (forall s d, s ∈ states -> drawnStates w !! clientID s = Some d -> inSync d s).
Proof.
  intros Hkeyed Hnodup H. unfold setupObjects in H.
  destruct (nonEmpty _ || nonEmpty _ || nonEmpty _) eqn:Hmut.
  2: { injection H as <-.
       apply orb_false_iff in Hmut as [Hmut _]. apply orb_false_iff in Hmut as [Hd Hu].
       apply nonEmpty_false in Hd, Hu.
       split; [by apply deleted_of_nil | by apply updated_of_nil]. }
  clear Hmut. do 5 bind_inv H. injection H as <-.
  set (created := created_of (drawnStates v) states) in *.
  set (updated := updated_of (drawnStates v) states) in *.
  set (deleted := deleted_of (drawnStates v) states) in *.
  set (skeletons := filter (fun state => shapeType state = Skeleton) updated) in *.
  set (others := filter (fun state => shapeType state <> Skeleton) updated) in *.
  set (a := addObjects created v1) in *.
  set (b := addObjects skeletons v3) in *.
  assert (Hc : forall s, s ∈ created -> s ∈ states)
    by (intros s; apply created_of_subset).
  assert (Hs : forall s, s ∈ skeletons -> s ∈ states).
  { intros s Hin. apply list_elem_of_filter in Hin as [_ Hin].
    eapply updated_of_subset, Hin. }
  assert (Ho : forall s, s ∈ others -> s ∈ states).
  { intros s Hin. apply list_elem_of_filter in Hin as [_ Hin].
    eapply updated_of_subset, Hin. }
  assert (E0 : drawnStates v0 = drawnStates v).
  { destruct (bool_decide _) in Hv0; [by apply deactivate_drawn|]. by injection Hv0 as <-. }
  assert (E4 : drawnStates v4 = drawnStates b).
  { destruct (ae_clientID (c_activeElement _)) in Hv4; [|by injection Hv4 as <-].
    destruct (decide (_ ∈ _)) in Hv4; [|by injection Hv4 as <-].
    by apply activate_drawn in Hv4. }
  pose proof (deleteObjects_kept states _ _ _ Hv1) as K01.
  pose proof (addObjects_kept states created v1 Hc) as K1a.
  pose proof (updateObjects_kept states _ _ _ Ho Hv2) as Ka2.
  pose proof (deleteObjects_kept states _ _ _ Hv3) as K23.
  pose proof (addObjects_kept states skeletons v3 Hs) as K3b.
  fold a in K1a. fold b in K3b.
  assert (K2b : keptOrSaved states v2 b) by (eapply keptOrSaved_trans; eauto).
  assert (K1b : keptOrSaved states v1 b).
  { eapply keptOrSaved_trans; [exact K1a|]. eapply keptOrSaved_trans; eauto. }
  assert (K0b : keptOrSaved states v0 b) by (eapply keptOrSaved_trans; eauto).
  simpl. rewrite E4. split.
  - intros k Hk. apply elem_of_dom in Hk as [d Hd].
    destruct (K1b k d Hd) as [Hkept|(s & Hin & <- & _)].
    2: { apply list_elem_of_In, in_map, list_elem_of_In, Hin. }
    destruct (decide (k ∈ List.map clientID states)) as [|Hnot]; [done|]. exfalso.
    assert (Hold : drawnStates v !! k = Some d).
    { rewrite <- E0. eapply lookup_weaken; [exact Hkept|].
      by eapply deleteObjects_subset. }
    assert (Hdel : d ∈ deleted) by (apply elem_of_deleted_of; eauto).
    apply (deleteObjects_removed _ _ _ Hv1) in Hdel.
    rewrite (Hkeyed k d Hold) in Hdel. congruence.
  - intros s d Hin Hd.
    destruct (changed (drawnStates v) s) eqn:Hch.
    + assert (Hup : s ∈ updated) by (apply list_elem_of_filter; auto).
      destruct (decide (shapeType s = Skeleton)) as [Hsk|Hsk].
      * assert (Hmem : s ∈ skeletons) by (apply list_elem_of_filter; auto).
        apply (deleteObjects_removed _ _ _ Hv3) in Hmem.
        destruct (K3b _ _ Hd) as [Hkept|Hsaved]; [congruence|].
        by apply (savedFrom_sync states).
      * assert (Hmem : s ∈ others) by (apply list_elem_of_filter; auto).
        assert (Hids : NoDup (List.map clientID others)).
        { unfold others, updated, updated_of. by do 2 apply NoDup_filter_ids. }
        pose proof (updateObjects_saved _ _ _ Hids Hv2 s Hmem) as Hsaved.
        destruct (K2b _ _ Hd) as [Hkept|Hfrom].
        -- rewrite Hsaved in Hkept. injection Hkept as <-. apply saveState_sync.
        -- by apply (savedFrom_sync states).
    + destruct (K0b _ _ Hd) as [Hkept|Hfrom].
      * rewrite E0 in Hkept. by apply (changed_false (drawnStates v) s).
      * by apply (savedFrom_sync states).
Qed.

(** C1 (amended). From a store keyed by identifier, for a list of objects
    with pairwise distinct identifiers: after a pass with the list, a pass
    with the same list finds [updated] and [deleted] empty; when every
    object of the list has a drawn state after the first pass, [created]
    is empty as well and the second pass returns the view as it is, with
    nothing added to the effect log. The store is keyed again. *)
Theorem reconcile_twice (states : list ObjectState) (v v1 : CanvasView) :
  keyed (drawnStates v) ->
  NoDup (List.map clientID states) ->
  setupObjects states v = OK v1 ->
  updated_of (drawnStates v1) states = [] /\
  deleted_of (drawnStates v1) states = [] /\
  ((forall s, s ∈ states -> clientID s ∈ dom (drawnStates v1)) ->
   created_of (drawnStates v1) states = [] /\
   setupObjects states v1 = OK v1) /\
  keyed (drawnStates v1).
Proof.
  intros Hkeyed Hnodup H.
  destruct (setupObjects_in_sync states v v1 Hkeyed Hnodup H) as [Hdom Hsync].
  assert (Hu : updated_of (drawnStates v1) states = []) by by apply updated_of_nil.
  assert (Hd : deleted_of (drawnStates v1) states = []) by by apply deleted_of_nil.
  repeat split; try assumption.
  - by apply created_of_nil.
  - apply setupObjects_nothing_to_do; try assumption. by apply created_of_nil.
  - intros k d Hk. destruct (setupObjects_kept states v v1 H k d Hk)
      as [Hkept|(s & _ & <- & ->)]; [by apply Hkeyed | apply saveState_clientID].
Qed.

(** Two passes with object 1 moved, from the view in which it is drawn. *)
Definition afterSecondPass : CanvasView :=
  match setupObjects [sampleState 1 Rectangle [0; 0; 20; 20]%Z 2] afterFirstPass with
  | OK v => v
  | Throw _ => afterFirstPass
  end.

Lemma reconcile_twice_witness :
  keyed (drawnStates afterFirstPass) /\
  NoDup (List.map clientID [sampleState 1 Rectangle [0; 0; 20; 20]%Z 2]) /\
  setupObjects [sampleState 1 Rectangle [0; 0; 20; 20]%Z 2] afterFirstPass
    = OK afterSecondPass /\
  afterSecondPass <> afterFirstPass /\
  setupObjects [sampleState 1 Rectangle [0; 0; 20; 20]%Z 2] afterSecondPass
    = OK afterSecondPass.
Proof.
  assert (Hstore : drawnStates afterFirstPass = {[1%N := rectangle1]})
    by (vm_compute; reflexivity).
  assert (Hkeyed : keyed (drawnStates afterFirstPass)).
  { rewrite Hstore. intros k d Hk. apply lookup_singleton_Some in Hk as [<- <-].
    reflexivity. }
  assert (Hnodup : NoDup (List.map clientID [sampleState 1 Rectangle [0; 0; 20; 20]%Z 2])).
  { apply NoDup_singleton. }
  assert (Hpass : setupObjects [sampleState 1 Rectangle [0; 0; 20; 20]%Z 2] afterFirstPass
                  = OK afterSecondPass) by (vm_compute; reflexivity).
  repeat (split; [assumption|]). split.
  - intros Heq. apply (f_equal (fun v => length (log v))) in Heq.
    vm_compute in Heq. discriminate.
  - destruct (reconcile_twice _ _ _ Hkeyed Hnodup Hpass) as (_ & _ & Hnoop & _).
    apply Hnoop. intros s Hs. apply list_elem_of_singleton in Hs as ->.
    apply elem_of_dom. eexists. vm_compute. reflexivity.
Defined.

(** Object 2 has a shape type that [addObjects] skips. *)
Definition skipped2 : ObjectState := sampleState 2 Unsupported [0; 0; 5; 5]%Z 1.

Definition withSkipped : list ObjectState := [rectangle1; skipped2].

Definition freshView : CanvasView :=
  newView sampleModel (sampleController withSkipped (mkActive (Some 1%N) None)).

(** A list with a skipped shape type is not reconciled idempotently:
    object 2 gets no drawn state, so it is in [created] again on the
    second pass, which deactivates and reactivates object 1, removes and
    adds its label, and sorts the scene. *)
Lemma second_pass_with_skipped_shape_mutates :
  exists v1 v2,
    setupObjects withSkipped freshView = OK v1 /\
    drawnStates v1 !! clientID skipped2 = None /\
    created_of (drawnStates v1) withSkipped = [skipped2] /\
    setupObjects withSkipped v1 = OK v2 /\
    log v2 = log v1 ++
      [DOM (DeactivateShape 1); DOM (RemoveText 1); DOM SortObjects;
       DOM SortObjects; DOM (AddText 1); DOM (UpdateTextPosition 1);
       DOM (ActivateShape 1 true); Dispatch (canvas_activated rectangle1);
       Call updateObjects_autoborder].
Proof.
  do 2 eexists. split; [vm_compute; reflexivity|].
  split; [vm_compute; reflexivity|]. split; [vm_compute; reflexivity|].
  split; vm_compute; reflexivity.
Qed.

(** ** Deactivation at the head of a mutating pass *)

(** The active element of the controller is kept and the log only grows. *)
Definition later (v v' : CanvasView) : Prop :=
  c_activeElement (controller v') = c_activeElement (controller v) /\
  exists es, log v' = log v ++ es.

Lemma later_refl v : later v v.
Proof. split; [done|]. exists []. by rewrite app_nil_r. Qed.

Lemma later_trans v1 v2 v3 : later v1 v2 -> later v2 v3 -> later v1 v3.
Proof.
  intros [Hc1 [es1 Hl1]] [Hc2 [es2 Hl2]]. split; [congruence|].
  exists (es1 ++ es2). by rewrite Hl2, Hl1, app_assoc.
Qed.

Lemma later_emit e v : later v (emit e v).
Proof. split; [done|]. by exists [e]. Qed.

Lemma later_same v v' :
  controller v' = controller v -> log v' = log v -> later v v'.
Proof. intros Hc Hl. split; [by rewrite Hc|]. exists []. by rewrite app_nil_r. Qed.

Lemma later_idle v : later v (set_mode Mode.IDLE v).
Proof. split; [done|]. exists []. simpl. by rewrite app_nil_r. Qed.

(** An inactive view stays inactive. *)
Definition mid (v v' : CanvasView) : Prop :=
  (activeElement v = mkActive None None -> activeElement v' = mkActive None None) /\
  later v v'.

Lemma mid_refl v : mid v v.
Proof. split; [done | apply later_refl]. Qed.

Lemma mid_trans v1 v2 v3 : mid v1 v2 -> mid v2 v3 -> mid v1 v3.
Proof.
  intros [Ha1 Hl1] [Ha2 Hl2]. split; [auto | by eapply later_trans].
Qed.

Lemma mid_emit e v : mid v (emit e v).
Proof. split; [done | apply later_emit]. Qed.

Lemma mid_same v v' :
  activeElement v' = activeElement v -> controller v' = controller v ->
  log v' = log v -> mid v v'.
Proof. intros Ha Hc Hl. split; [congruence | by apply later_same]. Qed.

Lemma mid_idle v : mid v (set_mode Mode.IDLE v).
Proof. split; [done | apply later_idle]. Qed.

Lemma deactivate_later v v' : deactivate v = OK v' -> later v v'.
Proof.
  apply (deactivate_pass later later_refl later_trans later_emit);
    intros; by apply later_same.
Qed.

Lemma activate_later ae v v' : activate ae v = OK v' -> later v v'.
Proof.
  apply (activate_pass later later_refl later_trans later_emit);
    intros; by apply later_same.
Qed.

Lemma mid_pin v v' :
  ae_clientID (activeElement v) <> None ->
  (w <~ deactivate v ;; activate (activeElement v) w) = OK v' -> mid v v'.
Proof.
  intros Hactive H. split.
  - intros Hnone. rewrite Hnone in Hactive. by destruct Hactive.
  - bind_inv H. eapply later_trans; [by eapply deactivate_later | by eapply activate_later].
Qed.

Lemma deleteObjects_mid l v v' : deleteObjects l v = OK v' -> mid v v'.
Proof.
  apply (deleteObjects_stable mid);
    first [ exact mid_refl | exact mid_trans | exact mid_emit | exact mid_idle
          | intros; by apply mid_same ].
Qed.

Lemma addObjects_mid l v : mid v (addObjects l v).
Proof.
  apply (addObjects_stable mid) with (Q := fun _ => True);
    first [ exact mid_refl | exact mid_trans | exact mid_emit | exact mid_idle
          | intros; by apply mid_same | done ].
Qed.

Lemma updateObjects_mid l v v' : updateObjects l v = OK v' -> mid v v'.
Proof.
  apply (updateObjects_stable mid) with (Q := fun _ => True);
    first [ exact mid_refl | exact mid_trans | exact mid_emit | exact mid_idle
          | exact mid_pin | intros; by apply mid_same | done ].
Qed.

(** What [deactivate] leaves alone, and what it appends to the log. *)
Definition deactivated (v v' : CanvasView) : Prop :=
  svgShapes v' = svgShapes v /\ drawnStates v' = drawnStates v /\
  exists es, log v' = log v ++ es /\ Forall isDeactivation es.

Lemma deactivated_refl v : deactivated v v.
Proof. repeat split. exists []. by rewrite app_nil_r. Qed.

Lemma deactivated_trans v1 v2 v3 :
  deactivated v1 v2 -> deactivated v2 v3 -> deactivated v1 v3.
Proof.
  intros (Hs1 & Hd1 & es1 & Hl1 & Hf1) (Hs2 & Hd2 & es2 & Hl2 & Hf2).
  split; [congruence|]. split; [congruence|].
  exists (es1 ++ es2). split; [by rewrite Hl2, Hl1, app_assoc | by apply Forall_app].
Qed.

Lemma deactivated_same v v' :
  svgShapes v' = svgShapes v -> drawnStates v' = drawnStates v ->
  log v' = log v -> deactivated v v'.
Proof. intros Hs Hd Hl. repeat split; try done. exists []. by rewrite app_nil_r. Qed.

Lemma deactivate_deactivated v v' : deactivate v = OK v' -> deactivated v v'.
Proof.
  apply (deactivate_stable isDeactivation deactivated
           deactivated_refl deactivated_trans); try done.
  - intros e w He. repeat split. exists [e]. split; [done|]. by apply Forall_singleton.
  - intros; by apply deactivated_same.
  - intros; by apply deactivated_same.
Qed.

Definition sameActive (v v' : CanvasView) : Prop := activeElement v' = activeElement v.

Lemma deleteText_active id v v' : deleteText id v = OK v' -> sameActive v v'.
Proof.
  apply (deleteText_stable (fun _ => True) sameActive); try done.
  unfold sameActive. congruence.
Qed.

Lemma deactivate_inactive v v' :
  ae_clientID (activeElement v) <> None ->
  deactivate v = OK v' -> activeElement v' = mkActive None None.
Proof.
  unfold deactivate. intros Hactive H.
  assert (Ha : ae_clientID (activeElement (deactivateAttribute v))
               = ae_clientID (activeElement v) /\
               ae_attributeID (activeElement (deactivateAttribute v)) = None).
  { unfold deactivateAttribute.
    destruct (ae_clientID (activeElement v)) as [id|] eqn:Eid; [|by destruct Hactive].
    destruct (ae_attributeID (activeElement v)) as [attr|] eqn:Eattr; [|done].
    simpl. split; [|done]. by destruct (decide (id ∈ svgTexts v)). }
  destruct Ha as [Hid Hattr]. set (w := deactivateAttribute v) in *. clearbody w.
  unfold deactivateShape in H.
  destruct (ae_clientID (activeElement w)) as [id|] eqn:Eid;
    [|rewrite <- Hid in Hactive; by destruct Hactive].
  destruct (svgShapes w !! id); [|discriminate].
  destruct (drawnStates w !! id); [|discriminate].
  bind_inv H. injection H as <-. simpl. f_equal.
  transitivity (ae_attributeID (activeElement (emit (DOM (DeactivateShape id)) w)));
    [|exact Hattr].
  f_equal. destruct (_ && _) in Hv0.
  - by apply deleteText_active in Hv0.
  - by injection Hv0 as <-.
Qed.

(** From an inactive view, [activate] records the identifier it is given. *)
Lemma activate_from_inactive ae id v v' :
  ae_clientID (activeElement v) = None ->
  ae_clientID ae = Some id ->
  activate ae v = OK v' -> ae_clientID (activeElement v') = Some id.
Proof.
  unfold activate. intros Hnone Hid H. rewrite Hnone, Hid in H. simpl in H.
  rewrite Hnone in H.
  destruct (decide (None ≠ Some id)) as [_|Hne]; [|by destruct Hne].
  bind_inv H. bind_inv Hv0. injection Hv0 as <-.
  destruct (ae_attributeID ae) as [attr|]; [|by injection H as <-].
  destruct (decide (_ ≠ Some attr)) in H; injection H as <-; [|done].
  unfold activateAttribute. by split_if.
Qed.

(** C5. When a pass mutates (one of [deleted], [updated], [created] is not
    empty) while an element is active, and it completes: [deactivate]
    runs first, on the view as the pass found it; it leaves no element
    active, it touches neither the shapes nor the drawn states, and it
    appends deactivation effects only; every other effect of the pass,
    the deletions and the creations among them, comes after these in the
    log. At the end an element is active only if it is the active element
    of the controller and its identifier is in the incoming list; with the
    empty list the active element is [{clientID: null, attributeID: null}]. *)
Theorem deactivation_comes_first (states : list ObjectState) (v v' : CanvasView) :
  ae_clientID (activeElement v) <> None ->
  nonEmpty (deleted_of (drawnStates v) states)
    || nonEmpty (updated_of (drawnStates v) states)
    || nonEmpty (created_of (drawnStates v) states) = true ->
  setupObjects states v = OK v' ->
  exists v0 es es',
    deactivate v = OK v0 /\
    activeElement v0 = mkActive None None /\
    svgShapes v0 = svgShapes v /\ drawnStates v0 = drawnStates v /\
    log v0 = log v ++ es /\ Forall isDeactivation es /\
    log v' = log v0 ++ es' /\
    (activeElement v' = mkActive None None \/
     exists id, ae_clientID (c_activeElement (controller v)) = Some id /\
                (id ∈ List.map clientID states) /\
                ae_clientID (activeElement v') = Some id) /\
    (states = [] -> activeElement v' = mkActive None None).
Proof.
  intros Hactive Hmut H. unfold setupObjects in H. rewrite Hmut in H.
  rewrite bool_decide_eq_true_2 in H by done.
  do 5 bind_inv H. injection H as <-.
  pose proof (deactivate_inactive v v0 Hactive Hv0) as Hnone.
  destruct (deactivate_deactivated v v0 Hv0) as (Hshapes & Hdrawn & es & Hlog & Hes).
  pose proof (deactivate_later v v0 Hv0) as [Hctrl _].
  match type of Hv4 with
  | match ae_clientID (c_activeElement (controller ?c)) with _ => _ end = _ =>
      assert (M : mid v0 c)
  end.
  { eapply mid_trans; [by eapply deleteObjects_mid|].
    eapply mid_trans; [apply addObjects_mid|].
    eapply mid_trans; [by eapply updateObjects_mid|].
    eapply mid_trans; [by eapply deleteObjects_mid|].
    eapply mid_trans; [apply addObjects_mid | apply mid_emit]. }
  destruct M as [Hmid [Hc Hl]]. specialize (Hmid Hnone).
  rewrite Hc, Hctrl in Hv4.
  match type of Hl with
  | exists es, log ?c = _ => set (w := c) in *; clearbody w
  end.
  assert (Hend : later w v4 /\
                 (activeElement v4 = mkActive None None \/
                  exists id, ae_clientID (c_activeElement (controller v)) = Some id /\
                             (id ∈ List.map clientID states) /\
                             ae_clientID (activeElement v4) = Some id) /\
                 (states = [] -> activeElement v4 = mkActive None None)).
  { destruct (ae_clientID (c_activeElement (controller v))) as [id|] eqn:Eid.
    2: { injection Hv4 as <-. split; [apply later_refl | auto]. }
    destruct (decide (id ∈ List.map clientID states)) as [Hin|Hout].
    2: { injection Hv4 as <-. split; [apply later_refl | auto]. }
    split; [by eapply activate_later|]. split.
    - right. exists id. repeat split; try done.
      eapply activate_from_inactive; [|exact Eid|exact Hv4]. by rewrite Hmid.
    - intros ->. by apply elem_of_nil in Hin. }
  destruct Hend as (Hlater & Hfinal & Hempty).
  assert (Hrest : later v0 (emit (Call updateObjects_autoborder) v4)).
  { eapply later_trans; [split; [exact Hc | exact Hl]|].
    eapply later_trans; [exact Hlater | apply later_emit]. }
  destruct Hrest as [_ [es' Hes']].
  exists v0, es, es'. repeat split; assumption.
Qed.

(** Scenario C: object 1 is drawn and active, and the empty list comes. *)
Definition afterEmptyPass : CanvasView :=
  match setupObjects [] activeRectangle with
  | OK v => v
  | Throw _ => activeRectangle
  end.

Lemma deactivation_comes_first_witness :
  ae_clientID (activeElement activeRectangle) = Some 1%N /\
  setupObjects [] activeRectangle = OK afterEmptyPass /\
  log afterEmptyPass = log activeRectangle ++
    [DOM (DeactivateShape 1); DOM (RemoveText 1); DOM SortObjects;
     DOM (RemoveShape 1); DOM SortObjects; Call updateObjects_autoborder] /\
  activeElement afterEmptyPass = mkActive None None /\
  exists v0, deactivate activeRectangle = OK v0 /\
             activeElement v0 = mkActive None None /\
             drawnStates v0 = drawnStates activeRectangle.
Proof.
  assert (Hactive : ae_clientID (activeElement activeRectangle) <> None)
    by (vm_compute; discriminate).
  assert (Hmut : nonEmpty (deleted_of (drawnStates activeRectangle) [])
                 || nonEmpty (updated_of (drawnStates activeRectangle) [])
                 || nonEmpty (created_of (drawnStates activeRectangle) []) = true)
    by (vm_compute; reflexivity).
  assert (Hpass : setupObjects [] activeRectangle = OK afterEmptyPass)
    by (vm_compute; reflexivity).
  split; [vm_compute; reflexivity|]. split; [exact Hpass|].
  split; [vm_compute; reflexivity|].
  destruct (deactivation_comes_first [] activeRectangle afterEmptyPass
              Hactive Hmut Hpass)
    as (v0 & es & es' & Hv0 & Hnone & _ & Hdrawn & _ & _ & _ & _ & Hempty).
  split; [by apply Hempty|]. exists v0. by repeat split.
Defined.

(** Distinct identifiers are needed: of two objects with one identifier
    and different versions the store keeps the last, and the other is
    patched on the next pass. *)
Lemma duplicate_identifiers_are_patched_again :
  exists v1,
    setupObjects [rectangle1; sampleState 1 Rectangle [0; 0; 10; 10]%Z 2]
      (newView sampleModel (sampleController [] (mkActive None None))) = OK v1 /\
    updated_of (drawnStates v1)
      [rectangle1; sampleState 1 Rectangle [0; 0; 10; 10]%Z 2] = [rectangle1].
Proof.
  eexists. split; [vm_compute; reflexivity|]. vm_compute. reflexivity.
Qed.

(** ** Activation of a missing identifier *)

(** The objects of the controller stay. *)
Definition sameObjects (v v' : CanvasView) : Prop :=
  c_objects (controller v') = c_objects (controller v).

Lemma sameObjects_refl v : sameObjects v v.
Proof. done. Qed.

Lemma sameObjects_trans v1 v2 v3 :
  sameObjects v1 v2 -> sameObjects v2 v3 -> sameObjects v1 v3.
Proof. unfold sameObjects. congruence. Qed.

Lemma deactivate_sameObjects v v' : deactivate v = OK v' -> sameObjects v v'.
Proof.
  apply (deactivate_pass sameObjects sameObjects_refl sameObjects_trans); by intros.
Qed.

Lemma deleteObjects_sameObjects l v v' : deleteObjects l v = OK v' -> sameObjects v v'.
Proof.
  apply (deleteObjects_stable sameObjects sameObjects_refl sameObjects_trans);
    by intros.
Qed.

Lemma addObjects_sameObjects l v : sameObjects v (addObjects l v).
Proof.
  apply (addObjects_stable sameObjects sameObjects_refl sameObjects_trans)
    with (Q := fun _ => True); by intros.
Qed.

Lemma updateObjects_sameObjects l v v' : updateObjects l v = OK v' -> sameObjects v v'.
Proof.
  apply (updateObjects_stable sameObjects sameObjects_refl sameObjects_trans)
    with (Q := fun _ => True); try (by intros).
  apply (pin_pass sameObjects sameObjects_refl sameObjects_trans); by intros.
Qed.

Lemma activate_sameObjects ae v v' : activate ae v = OK v' -> sameObjects v v'.
Proof.
  apply (activate_pass sameObjects sameObjects_refl sameObjects_trans); by intros.
Qed.

Lemma dispatched_deactivation es : Forall isDeactivation es -> dispatched es = [].
Proof.
  induction 1 as [|e es He _ IH]; [done|].
  by destruct e as [| | |d].
Qed.

(** [activate] on an identifier that the object list does not have: the
    element that was active is deactivated, and after that at most the
    highlight of an attribute changes. *)
Lemma activate_missing id attr v v' :
  findState id (c_objects (controller v)) = None ->
  ae_clientID (activeElement v) <> Some id ->
  activate (mkActive (Some id) attr) v = OK v' ->
  exists v0 es,
    (if decide (ae_clientID (activeElement v) = None)
     then v0 = v else deactivate v = OK v0) /\
    log v' = log v0 ++ es /\ Forall isHighlight es /\
    svgShapes v' = svgShapes v0 /\ svgTexts v' = svgTexts v0 /\
    drawnStates v' = drawnStates v0.
Proof.
  intros Hmissing Hother H. unfold activate in H. bind_inv H. bind_inv H.
  cbn [ae_clientID ae_attributeID] in *.
  assert (H0 : (if decide (ae_clientID (activeElement v) = None)
                then v0 = v else deactivate v = OK v0)).
  { destruct (ae_clientID (activeElement v)) as [j|] eqn:Ej.
    - rewrite decide_False by done.
      destruct (decide (Some j ≠ Some id)) as [_|Heq] in Hv0; [done|].
      apply dec_stable in Heq. by destruct Hother.
    - rewrite decide_True by done. by injection Hv0 as <-. }
  assert (Hobjects : c_objects (controller v0) = c_objects (controller v)).
  { destruct (decide (ae_clientID (activeElement v) = None)); [by subst|].
    by apply deactivate_sameObjects. }
  assert (H1 : log v1 = log v0 /\ svgShapes v1 = svgShapes v0 /\
               svgTexts v1 = svgTexts v0 /\ drawnStates v1 = drawnStates v0).
  { destruct (decide (ae_clientID (activeElement v0) ≠ Some id)) in Hv1;
      [|by injection Hv1 as <-].
    rewrite activateShape_missing in Hv1 by by rewrite Hobjects.
    simpl in Hv1. by injection Hv1 as <-. }
  destruct H1 as (Hl1 & Hs1 & Ht1 & Hd1).
  exists v0. rewrite <- Hl1, <- Hs1, <- Ht1, <- Hd1.
  destruct attr as [a|];
    [|injection H as <-; exists []; rewrite app_nil_r; by repeat split].
  destruct (decide (ae_attributeID (activeElement v1) ≠ Some a)) in H;
    injection H as <-; [|exists []; rewrite app_nil_r; by repeat split].
  destruct (activateAttribute_highlight id a v1) as (es & Hes & Hlog & A & B & C & _).
  exists es. by repeat split.
Qed.

(** [activate] on a missing identifier throws only where the deactivation
    of the active element does. *)
Lemma activate_missing_returns id attr v :
  findState id (c_objects (controller v)) = None ->
  ae_clientID (activeElement v) <> Some id ->
  (ae_clientID (activeElement v) = None \/ exists v0, deactivate v = OK v0) ->
  exists v', activate (mkActive (Some id) attr) v = OK v'.
Proof.
  intros Hmissing Hother Hhead. unfold activate. simpl.
  assert (H0 : exists v0,
    match ae_clientID (activeElement v) with
    | Some _ =>
        if decide (ae_clientID (activeElement v) ≠ Some id)
        then deactivate v
        else if decide (ae_attributeID (activeElement v) ≠ attr)
             then OK (deactivateAttribute v)
             else OK v
    | None => OK v
    end = OK v0 /\
    ae_clientID (activeElement v0) = None /\
    findState id (c_objects (controller v0)) = None).
  { destruct (ae_clientID (activeElement v)) as [k|] eqn:Hk.
    - destruct Hhead as [Hnone|[v0 Hv0]]; [discriminate|].
      destruct (decide (Some k ≠ Some id)) as [_|Hne]; [|by destruct Hne].
      exists v0. split; [done|].
      assert (Hsome : ae_clientID (activeElement v) <> None) by congruence.
      rewrite (deactivate_inactive v v0 Hsome Hv0). split; [done|].
      by rewrite (deactivate_sameObjects v v0 Hv0).
    - by exists v. }
  destruct H0 as (v0 & -> & Hnone & Hmissing0). simpl. rewrite Hnone.
  destruct (decide (None ≠ Some id)) as [_|Hne]; [|by destruct Hne].
  rewrite (activateShape_missing id v0 Hmissing0). simpl.
  destruct attr as [attr|]; [|by eexists].
  destruct (decide (ae_attributeID (activeElement v0) ≠ Some attr)); by eexists.
Qed.

(** C9 (as amended). [activateShape] on an identifier that is absent from
    the object list returns at once: no exception, no change of the view,
    nothing dispatched.  [activate] on such an identifier, whenever it
    returns, has dispatched nothing and has left the shapes and the drawn
    states as they were: the element that was active, if there was one,
    has been deactivated as [deactivate] does it, and after that at most
    the highlight of an attribute has changed, so that with no element
    active the labels are left as they were too.  It returns when no
    element is active, and otherwise whenever the deactivation of the
    active element returns.  [activate] on the identifier that is already
    active does not run the shape activation: at most the attribute
    highlight changes, and nothing changes when the attribute is the
    same. *)
Theorem activation_violations :
  (forall id v,
     findState id (c_objects (controller v)) = None ->
     activateShape id v = OK v) /\
  (forall id attr v v',
     findState id (c_objects (controller v)) = None ->
     ae_clientID (activeElement v) <> Some id ->
     activate (mkActive (Some id) attr) v = OK v' ->
     exists v0 es,
       (if decide (ae_clientID (activeElement v) = None)
        then v0 = v else deactivate v = OK v0) /\
       log v' = log v0 ++ es /\ Forall isHighlight es /\
       svgTexts v' = svgTexts v0 /\
       svgShapes v' = svgShapes v /\ drawnStates v' = drawnStates v /\
       dispatched (drop (length (log v)) (log v')) = []) /\
  (forall id attr v,
     findState id (c_objects (controller v)) = None ->
     ae_clientID (activeElement v) <> Some id ->
     (ae_clientID (activeElement v) = None \/ exists v0, deactivate v = OK v0) ->
     exists v', activate (mkActive (Some id) attr) v = OK v') /\
  (forall ae id v,
     ae_clientID ae = Some id ->
     ae_clientID (activeElement v) = Some id ->
     exists v' es,
       activate ae v = OK v' /\
       log v' = log v ++ es /\ Forall isHighlight es /\
       (ae_attributeID ae = ae_attributeID (activeElement v) -> v' = v)).
Proof.
  split; [exact activateShape_missing|]. split; [|split].
  - intros id attr v v' Hmissing Hother H.
    destruct (activate_missing id attr v v' Hmissing Hother H)
      as (v0 & es & H0 & Hlog & Hes & Hs & Ht & Hd).
    assert (Hdeact : deactivated v v0).
    { destruct (decide (ae_clientID (activeElement v) = None));
        [subst; apply deactivated_refl | by apply deactivate_deactivated]. }
    destruct Hdeact as (Hs0 & Hd0 & es0 & Hlog0 & Hes0).
    exists v0, es. do 4 (split; [done|]).
    split; [congruence|]. split; [congruence|].
    rewrite Hlog, Hlog0, <- app_assoc, drop_app_length.
    unfold dispatched. rewrite omap_app.
    fold (dispatched es0). fold (dispatched es).
    by rewrite dispatched_deactivation, dispatched_highlight.
  - apply activate_missing_returns.
  - intros ae id v Hae Hactive. unfold activate. rewrite Hactive, Hae. simpl.
    destruct (decide (Some id ≠ Some id)) as [Hne|_]; [by destruct Hne|].
    destruct (decide (ae_attributeID (activeElement v) ≠ ae_attributeID ae))
      as [Hattr|Hattr]; simpl.
    + destruct (deactivateAttribute_highlight v) as (es1 & Hes1 & Hlog1 & Hid1).
      rewrite Hid1, Hactive.
      destruct (decide (Some id ≠ Some id)) as [Hne|_]; [by destruct Hne|]. simpl.
      destruct (ae_attributeID ae) as [attr|];
        [|exists (deactivateAttribute v), es1; repeat split; try assumption; congruence].
      destruct (decide (ae_attributeID (activeElement (deactivateAttribute v)) ≠ Some attr));
        [|exists (deactivateAttribute v), es1; repeat split; try assumption; congruence].
      destruct (activateAttribute_highlight id attr (deactivateAttribute v))
        as (es2 & Hes2 & Hlog2 & _).
      exists (activateAttribute id attr (deactivateAttribute v)), (es1 ++ es2).
      repeat split; [|by apply Forall_app|congruence].
      by rewrite Hlog2, Hlog1, app_assoc.
    + rewrite Hactive.
      destruct (decide (Some id ≠ Some id)) as [Hne|_]; [by destruct Hne|]. simpl.
      apply dec_stable in Hattr.
      destruct (ae_attributeID ae) as [attr|];
        [|exists v, []; rewrite app_nil_r; by repeat split].
      destruct (decide (ae_attributeID (activeElement v) ≠ Some attr)) as [Hne|_];
        [by destruct Hne|].
      exists v, []. rewrite app_nil_r. by repeat split.
Qed.

(** The missing identifier 2 is activated while 1 is active: object 1 is
    deactivated first, and nothing is dispatched. *)
Lemma activation_violations_witness :
  findState 2 (c_objects (controller activeRectangle)) = None /\
  ae_clientID (activeElement activeRectangle) = Some 1%N /\
  exists v',
    activate (mkActive (Some 2%N) None) activeRectangle = OK v' /\
    dispatched (drop (length (log activeRectangle)) (log v')) = [].
Proof.
  split; [reflexivity|]. split; [reflexivity|].
  assert (Hrun : exists v', activate (mkActive (Some 2%N) None) activeRectangle = OK v').
  { apply (proj1 (proj2 (proj2 activation_violations)));
      [reflexivity | discriminate | right; eexists; vm_compute; reflexivity]. }
  destruct Hrun as [v' Hv']. exists v'. split; [exact Hv'|].
  destruct (proj1 (proj2 activation_violations) 2%N None activeRectangle v')
    as (_ & _ & _ & _ & _ & _ & _ & _ & Hnothing);
    [reflexivity | discriminate | exact Hv' | exact Hnothing].
Defined.

(** Activating the missing identifier 2 while 1 is active changes the
    scene: the affordances of 1 are stripped and its label is removed. *)
Lemma missing_activation_changes_scene :
  findState 2 (c_objects (controller activeRectangle)) = None /\
  exists v',
    activate (mkActive (Some 2%N) None) activeRectangle = OK v' /\
    log v' = (log activeRectangle
              ++ [DOM (DeactivateShape 1); DOM (RemoveText 1); DOM SortObjects]) /\
    (1%N ∈ svgTexts activeRectangle) /\ (1%N ∉ svgTexts v').
Proof.
  split; [reflexivity|]. eexists. split; [vm_compute; reflexivity|].
  repeat split; vm_compute; try reflexivity; try done.
  all: intros H; by vm_compute in H.
Qed.

(** [activate] assigns the identifier to the active element after
    [activateShape], whether or not a state was found; the next activation
    of another identifier then deactivates it and dereferences its shape,
    which is undefined. *)
Lemma second_missing_activation_throws :
  exists v',
    activate (mkActive (Some 3%N) None)
      (newView sampleModel (sampleController [] (mkActive None None))) = OK v' /\
    activeElement v' = mkActive (Some 3%N) None /\
    activate (mkActive (Some 7%N) None) v' = Throw TypeError.
Proof. eexists. repeat split; reflexivity. Qed.

(** ** The synchronization key *)

(** The identifiers of an object state and of its elements, at any
    depth. *)
Fixpoint idsOf (s : ObjectState) : list N :=
  match s with
  | State f els => f_clientID f :: flat_map idsOf els
  end.

Lemma idsOf_clientID s : clientID s ∈ idsOf s.
Proof. destruct s. left. Qed.

Lemma idsOf_element s e k : e ∈ elementsOf s -> k ∈ idsOf e -> k ∈ idsOf s.
Proof.
  destruct s as [f els]. simpl. intros He Hk. right.
  apply list_elem_of_In, in_flat_map. exists e. by rewrite <- !list_elem_of_In.
Qed.

Lemma idsOf_saveState s k : k ∈ idsOf (saveState s) -> k ∈ idsOf s.
Proof.
  revert k. induction s as [f els IH] using ObjectState_ind. intros k. simpl.
  rewrite !elem_of_cons. intros [->|Hk]; [by left|]. right.
  destruct (f_shapeType f); try (by apply elem_of_nil in Hk).
  apply list_elem_of_In, in_flat_map in Hk as (e' & He' & Hk).
  apply in_map_iff in He' as (e & <- & He).
  apply list_elem_of_In, in_flat_map. exists e. split; [done|].
  apply list_elem_of_In. rewrite List.Forall_forall in IH.
  apply (IH e He). by apply list_elem_of_In.
Qed.

(** The identifiers an effect is about. *)
Definition targets (e : Effect) : list N :=
  match e with
  | DOM d =>
      match d with
      | AddShape id _ _ | AddSkeletonElement id | RemoveShape id | AddText id
      | RemoveText id | UpdateTextPosition id | SetHidden id _ | SetTextHidden id _
      | SetZOrder id _ | SetOccluded id _ | Untransform id | SetGeometry id _
      | ResetPoints id | Rotate id _ | RebuildText id | PatchTextAttribute id _ _
      | Colorize id | ActivateShape id _ | DeactivateShape id
      | HighlightAttribute id _ _ | PointerEvents id _ | FocusRegion id => [id]
      | _ => []
      end
  | Dispatch ev =>
      match ev with
      | canvas_drawn data _ _ _ => option_list (r_clientID data)
      | canvas_edited state _ _ | canvas_splitted state | canvas_activated state =>
          [clientID state]
      | canvas_merged states | canvas_groupped states => List.map clientID states
      | canvas_dragshape id | canvas_resizeshape id => [id]
      | _ => []
      end
  | _ => []
  end.

(** No effect on [id]. *)
Definition free (id : N) (e : Effect) : Prop := id ∉ targets e.

(** The view holds nothing that ties [id] to another object: [id] is not
    the active identifier, and it is neither the identifier nor the
    identifier of an element of a drawn state under another key, nor of
    another object of the controller. *)
Definition apart (id : N) (v : CanvasView) : Prop :=
  ae_clientID (activeElement v) <> Some id /\
  (forall k d, drawnStates v !! k = Some d -> k <> id -> id ∉ idsOf d) /\
  (forall st, st ∈ c_objects (controller v) -> clientID st <> id -> id ∉ idsOf st).

(** What the view holds for [id] is left as it is, and no effect is
    about [id]. *)
Definition untouched (id : N) (v v' : CanvasView) : Prop :=
  svgShapes v' !! id = svgShapes v !! id /\
  drawnStates v' !! id = drawnStates v !! id /\
  (id ∈ svgTexts v' <-> id ∈ svgTexts v) /\
  c_objects (controller v') = c_objects (controller v) /\
  c_activeElement (controller v') = c_activeElement (controller v) /\
  exists es, log v' = log v ++ es /\ Forall (free id) es.

Definition aside (id : N) (v v' : CanvasView) : Prop :=
  apart id v -> untouched id v v' /\ apart id v'.

Lemma untouched_refl id v : untouched id v v.
Proof. do 5 (split; [done|]). exists []. by rewrite app_nil_r. Qed.

Lemma untouched_trans id v1 v2 v3 :
  untouched id v1 v2 -> untouched id v2 v3 -> untouched id v1 v3.
Proof.
  intros (A1 & B1 & C1 & D1 & E1 & es1 & L1 & F1) (A2 & B2 & C2 & D2 & E2 & es2 & L2 & F2).
  split; [congruence|]. split; [congruence|]. split; [tauto|].
  split; [congruence|]. split; [congruence|].
  exists (es1 ++ es2). split; [by rewrite L2, L1, app_assoc | by apply Forall_app].
Qed.

Lemma aside_refl id v : aside id v v.
Proof. intros H. split; [apply untouched_refl | done]. Qed.

Lemma aside_trans id v1 v2 v3 : aside id v1 v2 -> aside id v2 v3 -> aside id v1 v3.
Proof.
  intros H12 H23 H1. destruct (H12 H1) as [U12 H2]. destruct (H23 H2) as [U23 H3].
  split; [by eapply untouched_trans | done].
Qed.

Lemma aside_emit id e v : free id e -> aside id v (emit e v).
Proof.
  intros He H. split; [|exact H].
  do 5 (split; [done|]). exists [e]. split; [done|]. by apply Forall_singleton.
Qed.

Lemma aside_texts id t v : (id ∈ t <-> id ∈ svgTexts v) -> aside id v (set_svgTexts t v).
Proof.
  intros Ht H. split; [|exact H].
  do 2 (split; [done|]). split; [exact Ht|]. do 2 (split; [done|]).
  exists []. by rewrite app_nil_r.
Qed.

Lemma aside_shapes id m v :
  m !! id = svgShapes v !! id -> aside id v (set_svgShapes m v).
Proof.
  intros Hm H. split; [|exact H].
  split; [exact Hm|]. do 4 (split; [done|]). exists []. by rewrite app_nil_r.
Qed.

Lemma aside_active id a v :
  ae_clientID a <> Some id -> aside id v (set_activeElement a v).
Proof.
  intros Ha (_ & Hd & Hc). split; [|by split].
  do 5 (split; [done|]). exists []. by rewrite app_nil_r.
Qed.

Lemma aside_idle id v : aside id v (set_mode Mode.IDLE v).
Proof.
  intros H. split; [|exact H].
  do 5 (split; [done|]). exists []. simpl. by rewrite app_nil_r.
Qed.

Lemma aside_delete id k v :
  k <> id -> aside id v (set_drawnStates (delete k (drawnStates v)) v).
Proof.
  intros Hk (Ha & Hd & Hc). split.
  - split; [done|]. split; [simpl; by rewrite lookup_delete_ne|].
    do 3 (split; [done|]). exists []. by rewrite app_nil_r.
  - split; [done|]. split; [|done]. intros k' d. simpl. intros Hk'.
    apply lookup_delete_Some in Hk' as [_ Hk']. by apply (Hd k' d).
Qed.

Lemma aside_insert id s v :
  id ∉ idsOf s ->
  aside id v (set_drawnStates (<[clientID s := saveState s]> (drawnStates v)) v).
Proof.
  intros Hs (Ha & Hd & Hc).
  assert (Hne : clientID s <> id).
  { intros <-. apply Hs, idsOf_clientID. }
  split.
  - split; [done|]. split; [simpl; by rewrite lookup_insert_ne|].
    do 3 (split; [done|]). exists []. by rewrite app_nil_r.
  - split; [done|]. split; [|done]. intros k' d. simpl. intros Hk' Hk'id.
    apply lookup_insert_Some in Hk' as [[_ <-]|[_ Hk']]; [|by apply (Hd k' d)].
    intros Hin. by apply Hs, idsOf_saveState.
Qed.

Lemma idsOf_cons_inv id f els :
  id ∉ idsOf (State f els) -> f_clientID f <> id /\ Forall (fun e => id ∉ idsOf e) els.
Proof.
  simpl. rewrite not_elem_of_cons. intros [Hne Hels]. split; [done|].
  apply List.Forall_forall. intros e He Hin. apply Hels.
  apply list_elem_of_In, in_flat_map. exists e. split; [done|].
  by apply list_elem_of_In.
Qed.

(** An effect about another identifier. *)
Ltac free_of :=
  unfold free; cbn [targets];
  first [apply not_elem_of_nil | rewrite list_elem_of_singleton; congruence].

Lemma addText_aside id s v : id ∉ idsOf s -> aside id v (addText s v).
Proof.
  revert v. induction s as [f els IH] using ObjectState_ind. intros v Hid.
  apply idsOf_cons_inv in Hid as [Hne Hels]. simpl.
  assert (Hemit : forall w, aside id w (emit (DOM (AddText (f_clientID f))) w)).
  { intros w. apply aside_emit. free_of. }
  destruct (f_shapeType f); try apply Hemit.
  revert v. induction IH as [|e els He _ IHels]; intros v; simpl.
  - apply Hemit.
  - apply Forall_cons in Hels as [Hide Hels].
    eapply aside_trans; [|by apply IHels].
    destruct (decide (clientID e ∈ svgTexts v)); [apply aside_refl|].
    eapply aside_trans; [by apply He|].
    apply aside_texts. rewrite elem_of_union, elem_of_singleton.
    assert (clientID e <> id) by (intros <-; apply Hide, idsOf_clientID).
    intuition congruence.
Qed.

Lemma apart_elements id k d e v :
  apart id v -> drawnStates v !! k = Some d -> k <> id -> e ∈ elementsOf d ->
  clientID e <> id.
Proof.
  intros (_ & Hd & _) Hk Hne He <-. apply (Hd k d Hk Hne).
  eapply idsOf_element; [exact He | apply idsOf_clientID].
Qed.

Lemma deleteText_rec_aside id depth k v v' :
  k <> id -> deleteText_rec depth k v = OK v' -> aside id v v'.
Proof.
  revert k v v'. induction depth as [|depth IH]; simpl; intros k v v' Hk H;
    [discriminate|].
  set (v1 := if decide (k ∈ svgTexts v)
             then emit (DOM (RemoveText k)) (set_svgTexts (svgTexts v ∖ {[k]}) v)
             else v) in *.
  assert (H1 : aside id v v1).
  { subst v1. destruct (decide (k ∈ svgTexts v)); [|apply aside_refl].
    eapply aside_trans.
    - apply (aside_texts id (svgTexts v ∖ {[k]})). rewrite elem_of_difference.
      split; [tauto|]. intros Hin. split; [done|].
      rewrite not_elem_of_singleton. congruence.
    - apply aside_emit. free_of. }
  intros Hap. destruct (H1 Hap) as [U1 Hap1].
  assert (H2 : aside id v1 v'); [|destruct (H2 Hap1) as [U2 Hap2]; split;
    [by eapply untouched_trans | done]].
  destruct (drawnStates v1 !! k) as [d|] eqn:Hd; [|injection H as <-; apply aside_refl].
  destruct (decide (shapeType d = Skeleton)); [|injection H as <-; apply aside_refl].
  assert (Hels : forall el, el ∈ elementsOf d -> clientID el <> id).
  { intros el He. by eapply apart_elements. }
  eapply (forEach_rel (aside id) (aside_refl id) (aside_trans id)); [|exact H].
  intros x w w' Hx. apply IH. by apply Hels.
Qed.


Lemma deleteText_aside id k v v' : k <> id -> deleteText k v = OK v' -> aside id v v'.
Proof. apply deleteText_rec_aside. Qed.

Lemma deactivateAttribute_aside id v : aside id v (deactivateAttribute v).
Proof.
  intros Hap. revert Hap. unfold deactivateAttribute.
  destruct (ae_clientID (activeElement v)) as [k|] eqn:Hk; [|apply aside_refl].
  destruct (ae_attributeID (activeElement v)) as [attr|]; [|apply aside_refl].
  intros Hap. assert (Hne : k <> id) by (destruct Hap as [Ha _]; congruence).
  revert Hap. eapply aside_trans;
    [|apply aside_active; simpl; destruct (decide (k ∈ svgTexts v)); simpl; congruence].
  destruct (decide (k ∈ svgTexts v)); [|apply aside_refl].
  apply aside_emit. free_of.
Qed.

Lemma deactivateShape_aside id v v' : deactivateShape v = OK v' -> aside id v v'.
Proof.
  intros H Hap. revert Hap. unfold deactivateShape in H.
  destruct (ae_clientID (activeElement v)) as [k|] eqn:Hk;
    [|injection H as <-; apply aside_refl].
  destruct (svgShapes v !! k); [|discriminate].
  destruct (drawnStates v !! k); [|discriminate].
  bind_inv H. injection H as <-.
  intros Hap. assert (Hne : k <> id) by (destruct Hap as [Ha _]; congruence).
  revert Hap.
  eapply aside_trans; [apply (aside_emit id (DOM (DeactivateShape k)));
                       free_of|].
  eapply aside_trans; [|eapply aside_trans;
    [apply (aside_emit id (DOM SortObjects)); free_of | by apply aside_active]].
  destruct (_ && _) in Hv0.
  - by eapply deleteText_aside.
  - injection Hv0 as <-. apply aside_refl.
Qed.

Lemma deactivate_aside id v v' : deactivate v = OK v' -> aside id v v'.
Proof.
  intros H. unfold deactivate in H.
  eapply aside_trans; [apply deactivateAttribute_aside | by eapply deactivateShape_aside].
Qed.

Lemma findState_Some id objects st :
  findState id objects = Some st -> st ∈ objects /\ clientID st = id.
Proof.
  unfold findState. intros H. apply head_Some_elem_of in H.
  by apply list_elem_of_filter in H as [? ?].
Qed.

Lemma activateAttribute_aside id k attr v :
  k <> id -> aside id v (activateAttribute k attr v).
Proof.
  intros Hk Hap. revert Hap. unfold activateAttribute.
  destruct (decide (k ∈ svgTexts v)); [|apply aside_refl].
  intros Hap. assert (Hne : ae_clientID (activeElement v) <> Some id)
    by (by destruct Hap).
  revert Hap. eapply aside_trans; [|apply aside_active; simpl; exact Hne].
  apply aside_emit. free_of.
Qed.

Lemma activateShape_aside id k v v' :
  k <> id -> activateShape k v = OK v' -> aside id v v'.
Proof.
  intros Hk H Hap. revert Hap. unfold activateShape in H. bind_inv H.
  assert (H0 : aside id v v0).
  { destruct (findState k (c_objects (controller v))) as [st|];
      [|injection Hv0 as <-; apply aside_refl].
    destruct (decide (shapeType st = Points)); [|injection Hv0 as <-; apply aside_refl].
    destruct (svgShapes v !! k); [|discriminate].
    injection Hv0 as <-. apply aside_emit. free_of. }
  intros Hap. destruct (H0 Hap) as [U0 Hap0].
  assert (H1 : aside id v0 v'); [|destruct (H1 Hap0) as [U1 Hap1]; split;
    [by eapply untouched_trans | done]].
  clear Hv0.
  destruct (findState k (c_objects (controller v))) as [st|] eqn:Hfind;
    [|injection H as <-; apply aside_refl].
  apply findState_Some in Hfind as [Hst Hid].
  assert (Hids : id ∉ idsOf st).
  { destruct Hap as (_ & _ & Hc). apply Hc; [done | congruence]. }
  destruct (hidden st || outside st); [injection H as <-; apply aside_refl|].
  set (v2 := if decide (k ∈ svgTexts v0) then v0
             else let w := addText st v0 in
                  set_svgTexts ({[clientID st]} ∪ svgTexts w) w) in *.
  assert (H2 : aside id v0 v2).
  { subst v2. destruct (decide (k ∈ svgTexts v0)); [apply aside_refl|].
    eapply aside_trans; [by apply addText_aside|].
    apply aside_texts. rewrite elem_of_union, elem_of_singleton.
    intuition congruence. }
  assert (H3 : aside id v2 (updateTextPosition k v2)).
  { apply aside_emit. free_of. }
  destruct (stateIsLocked st (updateTextPosition k v2)).
  { injection H as <-. by eapply aside_trans. }
  destruct (svgShapes v0 !! k); [|discriminate].
  bind_inv H. apply showDirection_OK in Hv1 as ->. injection H as <-.
  eapply aside_trans; [exact H2|]. eapply aside_trans; [exact H3|].
  eapply aside_trans; [|apply aside_emit; free_of]. apply aside_emit; free_of.
Qed.

Lemma activate_aside id ae v v' :
  ae_clientID ae <> Some id -> activate ae v = OK v' -> aside id v v'.
Proof.
  intros Hae H. unfold activate in H. bind_inv H. bind_inv H.
  assert (H0 : aside id v v0).
  { destruct (ae_clientID (activeElement v)); [|injection Hv0 as <-; apply aside_refl].
    destruct (decide (_ ≠ _)) in Hv0.
    - by eapply deactivate_aside.
    - destruct (decide (_ ≠ _)) in Hv0; injection Hv0 as <-; [|apply aside_refl].
      apply deactivateAttribute_aside. }
  assert (H1 : aside id v0 v1).
  { destruct (ae_clientID ae) as [k|]; [|injection Hv1 as <-; apply aside_refl].
    destruct (decide (_ ≠ _)) in Hv1; [|injection Hv1 as <-; apply aside_refl].
    bind_inv Hv1. injection Hv1 as <-.
    eapply aside_trans; [|by apply aside_active].
    eapply activateShape_aside; [|eassumption]. congruence. }
  eapply aside_trans; [exact H0|]. eapply aside_trans; [exact H1|].
  destruct (ae_clientID ae) as [k|]; [|injection H as <-; apply aside_refl].
  destruct (ae_attributeID ae) as [attr|]; [|injection H as <-; apply aside_refl].
  destruct (decide (_ ≠ _)) in H; injection H as <-; [|apply aside_refl].
  apply activateAttribute_aside. congruence.
Qed.

Lemma deleteObject_aside id s v v' :
  id ∉ idsOf s -> deleteObject s v = OK v' -> aside id v v'.
Proof.
  revert v v'. induction s as [f els IH] using ObjectState_ind. intros v v' Hid H.
  apply idsOf_cons_inv in Hid as [Hne Hels].
  simpl in H. bind_inv H. bind_inv H. injection H as <-.
  assert (H0 : aside id v v0).
  { destruct (decide (_ ∈ _)) in Hv0; [|injection Hv0 as <-; apply aside_refl].
    by eapply deleteText_aside. }
  assert (H1 : aside id v0 v1).
  { clear Hv0 H0. destruct (f_shapeType f); try (injection Hv1 as <-; apply aside_refl).
    revert v0 Hv1. induction IH as [|e els He _ IHels]; intros v0 Hv1; simpl in Hv1.
    - injection Hv1 as <-. apply aside_refl.
    - apply Forall_cons in Hels as [Hide Hels]. bind_inv Hv1.
      eapply aside_trans; [eapply He; eassumption | eapply IHels; eassumption]. }
  eapply aside_trans; [exact H0|]. eapply aside_trans; [exact H1|].
  match goal with |- aside _ _ (if _ then set_drawnStates _ ?w else ?w) =>
    assert (H2 : aside id v1 w) end.
  { destruct (svgShapes v1 !! f_clientID f) as [shape|]; [|apply aside_refl].
    eapply aside_trans; [|eapply aside_trans;
      [apply aside_shapes | apply aside_emit; free_of]].
    - destruct (removeListener shape); [|apply aside_refl].
      eapply aside_trans; [apply aside_idle | apply aside_emit; free_of].
    - by rewrite lookup_delete_ne. }
  destruct (decide (_ ∈ dom _)); [|exact H2].
  eapply aside_trans; [exact H2 | by apply aside_delete].
Qed.

Lemma deleteObjects_aside id states v v' :
  (forall s, s ∈ states -> id ∉ idsOf s) ->
  deleteObjects states v = OK v' -> aside id v v'.
Proof.
  intros Hs. apply (forEach_rel (aside id) (aside_refl id) (aside_trans id)).
  intros s w w' Hin. by apply deleteObject_aside, Hs.
Qed.

Lemma addSkeleton_aside id state v : id ∉ idsOf state -> aside id v (addSkeleton state v).
Proof.
  intros Hid. unfold addSkeleton.
  assert (Hne : clientID state <> id) by (intros <-; apply Hid, idsOf_clientID).
  eapply aside_trans;
    [apply (aside_emit id (DOM (AddShape (clientID state) Skeleton (pointsOf state))));
     free_of|].
  apply (fold_left_rel (aside id) (aside_refl id) (aside_trans id)). intros e w He.
  destruct (decide (_ = _)); [|apply aside_refl].
  assert (Hnee : clientID e <> id).
  { intros <-. eapply Hid, idsOf_element; [exact He | apply idsOf_clientID]. }
  eapply aside_trans; [apply aside_shapes | apply aside_emit; free_of].
  by rewrite lookup_insert_ne.
Qed.

Lemma addObject_aside id state v : id ∉ idsOf state -> aside id v (addObject state v).
Proof.
  intros Hid. unfold addObject.
  assert (Hne : clientID state <> id) by (intros <-; apply Hid, idsOf_clientID).
  assert (Hfinish : forall v1, aside id v v1 ->
    aside id v
        (let v2 := set_svgShapes (<[clientID state := mkShape false]> (svgShapes v1)) v1 in
         let v3 := if displayAllText (configuration v2)
                   then let w := addText state v2 in
                        updateTextPosition (clientID state)
                          (set_svgTexts ({[clientID state]} ∪ svgTexts w) w)
                   else v2 in
         set_drawnStates (<[clientID state := saveState state]> (drawnStates v3)) v3)).
  { intros v1 H1. cbv zeta. eapply aside_trans; [|by apply aside_insert].
    eapply aside_trans; [exact H1|].
    eapply aside_trans; [apply aside_shapes; by rewrite lookup_insert_ne|].
    destruct (displayAllText _); [|apply aside_refl].
    eapply aside_trans; [|apply aside_emit; free_of].
    eapply aside_trans; [by apply addText_aside|].
    apply aside_texts. rewrite elem_of_union, elem_of_singleton. intuition congruence. }
  destruct (shapeType state);
    try (apply Hfinish, aside_emit; free_of).
  - by apply Hfinish, addSkeleton_aside.
  - apply aside_refl.
Qed.

Lemma addObjects_aside id states v :
  (forall s, s ∈ states -> id ∉ idsOf s) -> aside id v (addObjects states v).
Proof.
  intros Hs. apply (fold_left_rel (aside id) (aside_refl id) (aside_trans id)).
  intros s w Hin. by apply addObject_aside, Hs.
Qed.

Lemma emits_aside id es v : Forall (free id) es -> aside id v (emits es v).
Proof.
  intros Hes. revert v. induction Hes as [|e es He _ IH]; intros v.
  - rewrite emits_nil. apply aside_refl.
  - rewrite emits_cons. eapply aside_trans; [by apply aside_emit | apply IH].
Qed.

Lemma onShape_aside id shape d v v' :
  free id (DOM d) -> onShape shape d v = OK v' -> aside id v v'.
Proof.
  intros Hd. destruct shape; simpl; [intros [= <-]; by apply aside_emit | discriminate].
Qed.

Lemma when_aside id b f v v' :
  (forall w w', f w = OK w' -> aside id w w') -> when b f v = OK v' -> aside id v v'.
Proof. intros Hf. destruct b; simpl; [apply Hf | intros [= <-]; apply aside_refl]. Qed.

Lemma pin_aside id v v' :
  (w <~ deactivate v ;; activate (activeElement v) w) = OK v' -> aside id v v'.
Proof.
  intros H Hap. assert (Hne : ae_clientID (activeElement v) <> Some id)
    by (by destruct Hap).
  revert Hap. bind_inv H.
  eapply aside_trans; [by eapply deactivate_aside | by eapply activate_aside].
Qed.

Lemma updateObject_aside id state v v' :
  id ∉ idsOf state -> updateObject state v = OK v' -> aside id v v'.
Proof.
  unfold updateObject. intros Hid H.
  assert (Hne : clientID state <> id) by (intros <-; apply Hid, idsOf_clientID).
  destruct (drawnStates v !! clientID state) as [d|]; [|discriminate].
  do 8 bind_inv H. injection H as <-.
  assert (H9 : exists v9, aside id v6 v9 /\ aside id v9 v7) by
    (match type of Hv7 with
     | when _ _ (if _ then match _ with Some _ => emit _ ?w | None => _ end else _) = _ =>
         exists w
     end; split;
     [ split_if;
       [ split_if; [|apply aside_refl];
         eapply aside_trans;
           [|apply aside_texts; rewrite elem_of_union, elem_of_singleton;
             intuition congruence];
         eapply aside_trans; [|by apply addText_aside];
         apply aside_emit; free_of
       | split_if; [|apply aside_refl];
         apply emits_aside, List.Forall_forall; intros e He;
         apply in_map_iff in He as (kv & <- & _); free_of ]
     | eapply aside_trans;
         [|eapply when_aside; [|exact Hv7]; intros w w'; apply onShape_aside; free_of];
       split_if; [|apply aside_refl];
       destruct (svgShapes v !! clientID state);
         [apply aside_emit; free_of | apply aside_refl] ]).
  clear Hv7. destruct H9 as (v9 & H8 & H9).
  repeat match goal with
         | Hw : when _ (onShape _ _) _ = OK _ |- _ =>
             apply (when_aside id) in Hw;
               [|intros ? ?; apply onShape_aside; free_of]
         end.
  assert (H1 : aside id v v0).
  { eapply when_aside; [|eassumption]. intros w w' Hw. bind_inv Hw.
    injection Hw as <-.
    eapply aside_trans; [eapply onShape_aside; [|eassumption]; free_of|].
    split_if; [|apply aside_refl]. split_if; [apply aside_emit; free_of|].
    eapply aside_trans; [|apply aside_emit; free_of]. apply aside_emit; free_of. }
  assert (H4 : aside id v2 v3).
  { destruct (negb _ && bool_decide (ae_clientID (activeElement v2) ≠ None)) eqn:Hg;
      simpl in Hv3; [|injection Hv3 as <-; apply aside_refl].
    by apply pin_aside. }
  assert (H6 : aside id v4 v5).
  { eapply when_aside; [|eassumption]. intros w w' Hw. bind_inv Hw.
    injection Hw as <-.
    eapply aside_trans; [eapply onShape_aside; [|eassumption]; free_of|].
    split_if; [apply aside_emit; free_of | apply aside_refl]. }
  clear Hv0 Hv3 Hv5.
  eapply aside_trans; [|by apply aside_insert].
  eapply aside_trans; [exact H1|]. eapply aside_trans; [exact Hv1|].
  eapply aside_trans; [exact Hv2|]. eapply aside_trans; [exact H4|].
  eapply aside_trans; [exact Hv4|]. eapply aside_trans; [exact H6|].
  eapply aside_trans; [exact Hv6|]. eapply aside_trans; [exact H8 | exact H9].
Qed.

Lemma updateObjects_aside id states v v' :
  (forall s, s ∈ states -> id ∉ idsOf s) ->
  updateObjects states v = OK v' -> aside id v v'.
Proof.
  intros Hs. apply (forEach_rel (aside id) (aside_refl id) (aside_trans id)).
  intros s w w' Hin. by apply updateObject_aside, Hs.
Qed.

(** What [activate] leaves alone, and what it appends to the log. *)
Definition activated (v v' : CanvasView) : Prop :=
  svgShapes v' = svgShapes v /\ drawnStates v' = drawnStates v /\
  exists es, log v' = log v ++ es /\
             Forall (fun e => isDeactivation e \/ isActivation e) es.

Lemma activated_refl v : activated v v.
Proof. repeat split. exists []. by rewrite app_nil_r. Qed.

Lemma activated_trans v1 v2 v3 : activated v1 v2 -> activated v2 v3 -> activated v1 v3.
Proof.
  intros (Hs1 & Hd1 & es1 & Hl1 & Hf1) (Hs2 & Hd2 & es2 & Hl2 & Hf2).
  split; [congruence|]. split; [congruence|].
  exists (es1 ++ es2). split; [by rewrite Hl2, Hl1, app_assoc | by apply Forall_app].
Qed.

Lemma activated_same v v' :
  svgShapes v' = svgShapes v -> drawnStates v' = drawnStates v ->
  log v' = log v -> activated v v'.
Proof. intros Hs Hd Hl. repeat split; try done. exists []. by rewrite app_nil_r. Qed.

Lemma activate_activated ae v v' : activate ae v = OK v' -> activated v v'.
Proof.
  apply (activate_stable (fun e => isDeactivation e \/ isActivation e) activated
           activated_refl activated_trans); try done.
  - intros e w He. repeat split. exists [e]. split; [done|]. by apply Forall_singleton.
  - intros; by apply activated_same.
  - intros; by apply activated_same.
Qed.

(** The identifier of [state] is its own: no other object of the list, of
    the store or of the controller has it, as its identifier or as that
    of one of its elements. *)
Definition alone (state : ObjectState) (states : list ObjectState) (v : CanvasView)
    : Prop :=
  (forall s, s ∈ states -> s <> state -> clientID state ∉ idsOf s) /\
  (forall k d, drawnStates v !! k = Some d -> k <> clientID state ->
               clientID state ∉ idsOf d) /\
  (forall st, st ∈ c_objects (controller v) -> clientID st <> clientID state ->
              clientID state ∉ idsOf st).

(** The steps of a mutating pass between the deactivation at its head and
    the activation at its end. *)
Lemma middle_aside states v state drawnState v0 v1 v2 v3 :
  state ∈ states ->
  drawnStates v !! clientID state = Some drawnState ->
  inSync drawnState state ->
  alone state states v ->
  deleteObjects (deleted_of (drawnStates v) states) v0 = OK v1 ->
  updateObjects
    (filter (fun s => shapeType s <> Skeleton) (updated_of (drawnStates v) states))
    (addObjects (created_of (drawnStates v) states) v1) = OK v2 ->
  deleteObjects
    (filter (fun s => shapeType s = Skeleton) (updated_of (drawnStates v) states))
    v2 = OK v3 ->
  aside (clientID state) v0
    (sortObjects
       (addObjects
          (filter (fun s => shapeType s = Skeleton) (updated_of (drawnStates v) states))
          v3)).
Proof.
  intros Hin Hdrawn Hsync (Hlist & Hstore & _) H1 H2 H3.
  set (id := clientID state) in *.
  assert (Hc : forall s, s ∈ created_of (drawnStates v) states -> id ∉ idsOf s).
  { intros s Hs. apply list_elem_of_filter in Hs as [Hnone Hs].
    apply Hlist; [done|]. intros ->. fold id in Hnone. congruence. }
  assert (Hu : forall s, s ∈ updated_of (drawnStates v) states -> id ∉ idsOf s).
  { intros s Hs. apply list_elem_of_filter in Hs as [Hch Hs].
    apply Hlist; [done|]. intros ->.
    assert (changed (drawnStates v) state = false); [|congruence].
    apply changed_false. intros d Hd. fold id in Hd. congruence. }
  assert (Hd : forall s, s ∈ deleted_of (drawnStates v) states -> id ∉ idsOf s).
  { intros s Hs. apply elem_of_deleted_of in Hs as (k & Hk & Hs).
    apply (Hstore k s Hs). intros ->. apply Hk.
    apply list_elem_of_In, in_map, list_elem_of_In, Hin. }
  assert (Huf : forall (T : ObjectState -> Prop) `{forall x, Decision (T x)} s,
             s ∈ filter T (updated_of (drawnStates v) states) -> id ∉ idsOf s).
  { intros T ? s Hs. apply list_elem_of_filter in Hs as [_ Hs]. by apply Hu. }
  eapply aside_trans; [by eapply deleteObjects_aside|].
  eapply aside_trans;
    [apply (addObjects_aside id (created_of (drawnStates v) states)), Hc|].
  eapply aside_trans; [eapply updateObjects_aside; [|exact H2]; apply Huf|].
  eapply aside_trans; [eapply deleteObjects_aside; [|exact H3]; apply Huf|].
  eapply aside_trans; [|apply aside_emit; free_of].
  apply addObjects_aside. intros s Hs. eapply Huf, Hs.
Qed.

Lemma untouched_free id v v' es :
  untouched id v v' -> log v' = log v ++ es -> Forall (free id) es.
Proof.
  intros (_ & _ & _ & _ & _ & es' & Hl & Hes) Hlog.
  rewrite Hl in Hlog. by apply app_inv_head in Hlog as <-.
Qed.

(** The pass on an object that is in sync and whose identifier is its
    own. *)
Lemma setupObjects_unchanged_object states v state drawnState v' :
  state ∈ states ->
  drawnStates v !! clientID state = Some drawnState ->
  inSync drawnState state ->
  alone state states v ->
  setupObjects states v = OK v' ->
  drawnStates v' !! clientID state = Some drawnState /\
  svgShapes v' !! clientID state = svgShapes v !! clientID state /\
  (v' = v \/
   exists es1 es2 es3,
     log v' = log v ++ es1 ++ es2 ++ es3 ++ [Call updateObjects_autoborder] /\
     Forall isDeactivation es1 /\
     Forall (free (clientID state)) es2 /\
     Forall (fun e => isDeactivation e \/ isActivation e) es3 /\
     (ae_clientID (activeElement v) <> Some (clientID state) ->
      Forall (free (clientID state)) es1) /\
     (ae_clientID (c_activeElement (controller v)) <> Some (clientID state) ->
      Forall (free (clientID state)) es3)) /\
  (ae_clientID (activeElement v) <> Some (clientID state) ->
   ae_clientID (c_activeElement (controller v)) <> Some (clientID state) ->
   (clientID state ∈ svgTexts v' <-> clientID state ∈ svgTexts v)).
Proof.
  intros Hin Hdrawn Hsync Halone H. unfold setupObjects in H.
  destruct (_ || _) in H; [|injection H as <-; by eauto 10].
  do 5 bind_inv H. injection H as <-.
  pose proof (middle_aside states v state drawnState v0 v1 v2 v3
                Hin Hdrawn Hsync Halone Hv1 Hv2 Hv3) as Hmid.
  clear Hv1 Hv2 Hv3. destruct Halone as (Hlist & Hstore & Hctrl).
  set (id := clientID state) in *.
  match type of Hmid with aside _ _ ?w => set (v7 := w) in * end. clearbody v7.
  (* the head *)
  assert (Hhead : deactivated v v0 /\ sameObjects v v0 /\ later v v0).
  { destruct (bool_decide _) in Hv0.
    - split; [by apply deactivate_deactivated|].
      split; [by apply deactivate_sameObjects | by apply deactivate_later].
    - injection Hv0 as <-.
      split; [apply deactivated_refl|]. split; [done | apply later_refl]. }
  destruct Hhead as ((Hs0 & Hd0 & es1 & Hl0 & He1) & Ho0 & Hc0 & _).
  assert (Hap0 : apart id v0 /\
                 (ae_clientID (activeElement v) <> Some id -> untouched id v v0)).
  { destruct (decide (ae_clientID (activeElement v) = Some id)) as [Hact|Hact].
    - split; [|done].
      assert (Hsome : ae_clientID (activeElement v) <> None) by congruence.
      rewrite bool_decide_eq_true_2 in Hv0 by done.
      apply deactivate_inactive in Hv0; [|done].
      split; [by rewrite Hv0|]. split.
      + intros k d. rewrite Hd0. apply Hstore.
      + intros st. rewrite Ho0. apply Hctrl.
    - assert (Hap : apart id v) by done.
      assert (Has : aside id v v0).
      { destruct (bool_decide _) in Hv0; [by eapply deactivate_aside|].
        injection Hv0 as <-. apply aside_refl. }
      destruct (Has Hap) as [U0 Hap0]. by split. }
  clear Hv0. destruct Hap0 as [Hap0 Hfree0].
  destruct (Hmid Hap0) as [Umid Hap7].
  (* the end *)
  assert (Hc7 : c_activeElement (controller v7) = c_activeElement (controller v)).
  { destruct Umid as (_ & _ & _ & _ & Hc & _). congruence. }
  assert (Htail : activated v7 v4 /\
            (ae_clientID (c_activeElement (controller v)) <> Some id ->
             untouched id v7 v4)).
  { rewrite Hc7 in Hv4.
    destruct (ae_clientID (c_activeElement (controller v))) as [k|] eqn:Hk;
      [|injection Hv4 as <-; split; [apply activated_refl | intros; apply untouched_refl]].
    destruct (decide (_ ∈ _)) in Hv4;
      [|injection Hv4 as <-; split; [apply activated_refl | intros; apply untouched_refl]].
    split; [by eapply activate_activated|].
    intros Hne. eapply activate_aside; [|exact Hv4|exact Hap7]. by rewrite Hk. }
  clear Hv4. destruct Htail as ((Hs4 & Hd4 & es3 & Hl4 & He3) & Hfree4).
  destruct Umid as (Hs7 & Hd7 & Ht7 & _ & _ & es2 & Hl7 & He2).
  split; [simpl; by rewrite Hd4, Hd7, Hd0|].
  split; [simpl; by rewrite Hs4, Hs7, Hs0|].
  split.
  - right. exists es1, es2, es3. split.
    { simpl. rewrite Hl4, Hl7, Hl0. by rewrite <- !app_assoc. }
    do 3 (split; [done|]). split.
    + intros Hne. eapply untouched_free; [by apply Hfree0 | exact Hl0].
    + intros Hne. eapply untouched_free; [by apply Hfree4 | exact Hl4].
  - intros Hne1 Hne2. simpl.
    destruct (Hfree0 Hne1) as (_ & _ & Ht0 & _).
    destruct (Hfree4 Hne2) as (_ & _ & Ht4 & _). tauto.
Qed.

(** C2 (as amended). For an object of the incoming list whose identifier
    has a drawn state with the same [updated] version and the same
    [frame], whatever its points: the object is neither in [created] nor
    in [updated], and its identifier is not among the deleted ones; when
    this holds of every object of the list and the store has no other
    identifier, the pass returns the view as it is.  When the identifier
    is the object's own and the pass completes, whatever it does for
    other objects: the drawn state, with the stored points, and the shape
    of the object are kept; the pass returns the view as it is, or what
    it appends to the log is the deactivation at its head, then effects
    that are about other identifiers, then the activation at its end and
    the call of the autoborder handler; the deactivation is about the
    object only when it is the active element of the view, the activation
    only when it is the active element of the controller, and when it is
    neither its label is kept as well. *)
Theorem version_and_frame_are_the_sync_key (states : list ObjectState)
    (v : CanvasView) (state drawnState : ObjectState) :
  state ∈ states ->
  drawnStates v !! clientID state = Some drawnState ->
  updated drawnState = updated state ->
  frame drawnState = frame state ->
  (state ∉ created_of (drawnStates v) states) /\
  (state ∉ updated_of (drawnStates v) states) /\
  (clientID state ∉ deletedIDs (drawnStates v) states) /\
  ((forall s, s ∈ states ->
      exists d, drawnStates v !! clientID s = Some d /\
                updated d = updated s /\ frame d = frame s) ->
   (forall k, k ∈ dom (drawnStates v) -> k ∈ List.map clientID states) ->
   setupObjects states v = OK v) /\
  (forall v',
     alone state states v ->
     setupObjects states v = OK v' ->
     drawnStates v' !! clientID state = Some drawnState /\
     svgShapes v' !! clientID state = svgShapes v !! clientID state /\
     (v' = v \/
      exists es1 es2 es3,
        log v' = log v ++ es1 ++ es2 ++ es3 ++ [Call updateObjects_autoborder] /\
        Forall isDeactivation es1 /\
        Forall (free (clientID state)) es2 /\
        Forall (fun e => isDeactivation e \/ isActivation e) es3 /\
        (ae_clientID (activeElement v) <> Some (clientID state) ->
         Forall (free (clientID state)) es1) /\
        (ae_clientID (c_activeElement (controller v)) <> Some (clientID state) ->
         Forall (free (clientID state)) es3)) /\
     (ae_clientID (activeElement v) <> Some (clientID state) ->
      ae_clientID (c_activeElement (controller v)) <> Some (clientID state) ->
      (clientID state ∈ svgTexts v' <-> clientID state ∈ svgTexts v))).
Proof.
  intros Hin Hdrawn Hupdated Hframe. split; [|split; [|split; [|split]]].
  - unfold created_of. rewrite list_elem_of_filter. intros [Hnone _]. congruence.
  - unfold updated_of. rewrite list_elem_of_filter. intros [Hch _].
    assert (changed (drawnStates v) state = false); [|congruence].
    apply changed_false. intros d Hd. rewrite Hdrawn in Hd. injection Hd as <-. by split.
  - rewrite elem_of_deletedIDs. intros [_ Hnot]. apply Hnot.
    apply list_elem_of_In, in_map, list_elem_of_In, Hin.
  - intros Hall Hdom. apply setupObjects_nothing_to_do.
    + apply created_of_nil. intros s Hs. destruct (Hall s Hs) as (d & Hd & _).
      apply elem_of_dom. eauto.
    + apply updated_of_nil. intros s d Hs Hd. destruct (Hall s Hs) as (d' & Hd' & Hsync).
      rewrite Hd in Hd'. injection Hd' as <-. exact Hsync.
    + by apply deleted_of_nil.
  - intros v' Halone H.
    by apply (setupObjects_unchanged_object states v state drawnState v').
Qed.

(** Object 2 is new in the list. *)
Definition square2 : ObjectState := sampleState 2 Rectangle [20; 20; 30; 30]%Z 1.

Lemma version_and_frame_are_the_sync_key_witness :
  pointsOf rectangle1 <> pointsOf rectangle1Moved /\
  setupObjects [rectangle1Moved] afterFirstPass = OK afterFirstPass /\
  exists v',
    setupObjects [rectangle1Moved; square2] afterFirstPass = OK v' /\
    drawnStates v' !! 2%N = Some square2 /\
    drawnStates v' !! 1%N = Some rectangle1 /\
    svgShapes v' !! 1%N = svgShapes afterFirstPass !! 1%N /\
    (1%N ∈ svgTexts v' <-> 1%N ∈ svgTexts afterFirstPass) /\
    exists es, log v' = log afterFirstPass ++ es /\ Forall (free 1%N) es.
Proof.
  assert (Hstore : drawnStates afterFirstPass = {[1%N := rectangle1]})
    by (vm_compute; reflexivity).
  assert (Hdrawn : drawnStates afterFirstPass !! clientID rectangle1Moved
                   = Some rectangle1) by reflexivity.
  split; [discriminate|]. split.
  - assert (Hin : rectangle1Moved ∈ [rectangle1Moved]) by apply list_elem_of_here.
    destruct (version_and_frame_are_the_sync_key [rectangle1Moved] afterFirstPass
                rectangle1Moved rectangle1 Hin Hdrawn eq_refl eq_refl)
      as (_ & _ & _ & Hpass & _).
    apply Hpass.
    + intros s Hs. apply list_elem_of_singleton in Hs as ->.
      exists rectangle1. repeat split.
    + intros k Hk. rewrite Hstore, dom_singleton_L in Hk.
      apply elem_of_singleton in Hk as ->. apply list_elem_of_here.
  - assert (Hin : rectangle1Moved ∈ [rectangle1Moved; square2])
      by apply list_elem_of_here.
    assert (Halone : alone rectangle1Moved [rectangle1Moved; square2] afterFirstPass).
    { split; [|split].
      - intros s Hs Hne. apply elem_of_cons in Hs as [->|Hs]; [done|].
        apply list_elem_of_singleton in Hs as ->. vm_compute.
        intros H1. apply list_elem_of_singleton in H1. discriminate.
      - intros k d Hk Hne. rewrite Hstore in Hk.
        apply lookup_singleton_Some in Hk as [<- _]. by destruct Hne.
      - intros st Hst Hne. apply list_elem_of_singleton in Hst as ->.
        by destruct Hne. }
    destruct (setupObjects [rectangle1Moved; square2] afterFirstPass) as [v'|]
      eqn:Hpass; [|vm_compute in Hpass; discriminate].
    destruct (version_and_frame_are_the_sync_key [rectangle1Moved; square2]
                afterFirstPass rectangle1Moved rectangle1 Hin Hdrawn eq_refl eq_refl)
      as (_ & _ & _ & _ & Hkept).
    destruct (Hkept v' Halone Hpass) as (Hd & Hs & Hlog & Htext).
    exists v'. split; [done|].
    split; [vm_compute in Hpass; injection Hpass as <-; vm_compute; reflexivity|].
    split; [exact Hd|]. split; [exact Hs|].
    split; [apply Htext; discriminate|].
    destruct Hlog as [->|(es1 & es2 & es3 & Hl & _ & H2 & _ & H1 & H3)].
    + exists []. split; [by rewrite app_nil_r | done].
    + exists (es1 ++ es2 ++ es3 ++ [Call updateObjects_autoborder]).
      split; [exact Hl|]. rewrite !Forall_app.
      split; [apply H1; discriminate|]. split; [exact H2|].
      split; [apply H3; discriminate|]. apply Forall_singleton. free_of.
Defined.

(** Object 1 is drawn and active; the controller holds the list of the
    next pass and has object 1 active. *)
Definition activeInSync : CanvasView :=
  withController
    (sampleController [rectangle1Moved; square2] (mkActive (Some 1%N) None))
    activeRectangle.

(** A skeleton whose only element has the identifier of object 1. *)
Definition skeleton5 (version : Z) : ObjectState :=
  State (mkFields 5 Skeleton [0; 0; 8; 8]%Z 0 false false false false false 0 version 0
           1 "#ff0000" 0 "#000000" [] ∅)
    [sampleState 1 Points [3; 3]%Z 1].

(** An object that is in sync is not always left alone.  When it is the
    active element and the pass creates object 2, it is deactivated, its
    label is removed and added again, and it is activated again.  When
    another object of the list has its identifier and another version,
    its drawn state is replaced by the snapshot of that object.  When a
    skeleton that is patched has an element with its identifier, its
    shape is removed and its drawn state is deleted. *)
Lemma in_sync_object_is_operated_on :
  (drawnStates activeInSync !! clientID rectangle1Moved = Some rectangle1 /\
   inSync rectangle1 rectangle1Moved /\
   exists v',
     setupObjects [rectangle1Moved; square2] activeInSync = OK v' /\
     log v' = log activeInSync ++
       [DOM (DeactivateShape 1); DOM (RemoveText 1); DOM SortObjects;
        DOM (AddShape 2 Rectangle [20; 20; 30; 30]%Z); DOM SortObjects;
        DOM (AddText 1); DOM (UpdateTextPosition 1); DOM (ActivateShape 1 true);
        Dispatch (canvas_activated rectangle1Moved);
        Call updateObjects_autoborder]) /\
  (drawnStates afterFirstPass !! clientID rectangle1Moved = Some rectangle1 /\
   exists v',
     setupObjects [rectangle1Moved; sampleState 1 Rectangle [0; 0; 10; 10]%Z 2]
       afterFirstPass = OK v' /\
     drawnStates v' !! clientID rectangle1Moved
       = Some (sampleState 1 Rectangle [0; 0; 10; 10]%Z 2)) /\
  (exists v v',
     setupObjects [rectangle1; skeleton5 1]
       (newView sampleModel (sampleController [] (mkActive None None))) = OK v /\
     drawnStates v !! clientID rectangle1Moved = Some rectangle1 /\
     setupObjects [rectangle1Moved; skeleton5 2] v = OK v' /\
     drawnStates v' !! clientID rectangle1Moved = None /\
     log v' = log v ++
       [DOM (RemoveShape 1); DOM (RemoveShape 5);
        DOM (AddShape 5 Skeleton [0; 0; 8; 8]%Z); DOM (AddSkeletonElement 1);
        DOM SortObjects; Call updateObjects_autoborder]).
Proof.
  split; [|split].
  - split; [vm_compute; reflexivity|]. split; [by split|].
    eexists. split; vm_compute; reflexivity.
  - split; [vm_compute; reflexivity|].
    eexists. split; vm_compute; reflexivity.
  - do 2 eexists. split; [vm_compute; reflexivity|].
    split; [vm_compute; reflexivity|]. split; [vm_compute; reflexivity|].
    split; vm_compute; reflexivity.
Qed.

(** * Further properties of the view *)

(** ** Objects hidden for a redraw *)

Lemma elem_of_setKeys (s : gset N) (k : N) : k ∈ setKeys s <-> k ∈ s.
Proof. unfold setKeys. by rewrite merge_sort_Permutation, elem_of_elements. Qed.

(** Showing an object again only takes it out of [drawHidden]. *)
Lemma setupInnerFlags_false_fields id v v' :
  setupInnerFlags id false v = OK v' ->
  drawHidden v' = drawHidden v ∖ {[id]} /\
  svgShapes v' = svgShapes v /\ drawnStates v' = drawnStates v /\
  svgTexts v' = svgTexts v /\ activeElement v' = activeElement v.
Proof.
  unfold setupInnerFlags. intros [= <-].
  destruct (drawnStates v !! id) as [st|]; [|done].
  destruct (negb (outside st) && negb (hidden st)); [|done].
  by destruct (svgShapes v !! id), (bool_decide (id ∈ svgTexts v)).
Qed.

Lemma unhide_fields l v v' :
  forEach (fun hiddenID => setupInnerFlags hiddenID false) l v = OK v' ->
  (forall k, k ∈ drawHidden v' <-> (k ∈ drawHidden v) /\ (k ∉ l)) /\
  svgShapes v' = svgShapes v /\ drawnStates v' = drawnStates v /\
  svgTexts v' = svgTexts v /\ activeElement v' = activeElement v.
Proof.
  revert v. induction l as [|x l IH]; intros v H; cbn [forEach] in H.
  - injection H as <-. split; [|done]. intros k.
    split; [intros Hk; split; [done | apply not_elem_of_nil] | tauto].
  - bind_inv H. apply setupInnerFlags_false_fields in Hv0 as (Hh & Hs & Hd & Ht & Ha).
    destruct (IH _ H) as (Hh' & Hs' & Hd' & Ht' & Ha').
    split; [|repeat split; congruence].
    intros k. rewrite Hh', Hh, not_elem_of_cons, elem_of_difference, elem_of_singleton.
    tauto.
Qed.

(** X1. When the draw completion callback returns, whatever the payload
    and the continuation flag, no object is hidden for drawing any more,
    and the shapes, the drawn states, the labels and the active element
    are the ones it found. *)
Theorem draw_done_shows_hidden_objects (data : option DrawResult) (duration : Z)
    (continueDraw : option bool) (v v' : CanvasView) :
  onDrawDone data duration continueDraw v = OK v' ->
  drawHidden v' = ∅ /\ (forall id, isInnerHidden id v' = false) /\
  svgShapes v' = svgShapes v /\ drawnStates v' = drawnStates v /\
  svgTexts v' = svgTexts v /\ activeElement v' = activeElement v.
Proof.
  unfold onDrawDone. intros H. bind_inv H.
  apply unhide_fields in Hv0 as (Hh & Hs & Hd & Ht & Ha).
  assert (Hempty : drawHidden v0 = ∅).
  { apply set_eq. intros k. rewrite Hh, elem_of_setKeys.
    split; [tauto | intros Hk; by apply elem_of_empty in Hk]. }
  assert (Hsame : drawHidden v' = drawHidden v0 /\ svgShapes v' = svgShapes v0 /\
                  drawnStates v' = drawnStates v0 /\ svgTexts v' = svgTexts v0 /\
                  activeElement v' = activeElement v0).
  { destruct data as [d|].
    - destruct (resultPoints d); [|discriminate].
      destruct (r_clientID d); injection H as <-.
      + unfold onEditDone. by destruct (findState _ _).
      + by destruct (negb (flag continueDraw)).
    - injection H as <-. by destruct (negb (flag continueDraw)). }
  destruct Hsame as (Hh' & Hs' & Hd' & Ht' & Ha').
  repeat split; try congruence.
  intros id. unfold isInnerHidden. apply bool_decide_eq_false.
  rewrite Hh', Hempty. apply not_elem_of_empty.
Qed.

(** Object 1 is drawn, and hidden while it is drawn again. *)
Definition hiddenRectangle : CanvasView :=
  match setupInnerFlags 1 true afterFirstPass with
  | OK v => v
  | Throw _ => afterFirstPass
  end.

Lemma draw_done_shows_hidden_objects_witness :
  isInnerHidden 1 hiddenRectangle = true /\
  exists v', onDrawDone None 0 None hiddenRectangle = OK v' /\
             drawHidden v' = ∅ /\ isInnerHidden 1 v' = false.
Proof.
  split; [vm_compute; reflexivity|]. eexists. split; [vm_compute; reflexivity|].
  match goal with |- drawHidden ?w = ∅ /\ _ =>
    destruct (draw_done_shows_hidden_objects None 0 None hiddenRectangle w)
      as (Hempty & Hnone & _)
  end; [vm_compute; reflexivity|].
  split; [exact Hempty | apply Hnone].
Defined.

(** ** Activation and deactivation *)

(** X2. When [deactivate] returns, no element is active, and a second
    [deactivate] returns the view as it is: it emits nothing and cannot
    throw. *)
Theorem deactivate_twice (v v0 : CanvasView) :
  deactivate v = OK v0 ->
  ae_clientID (activeElement v0) = None /\ deactivate v0 = OK v0.
Proof.
  intros H.
  assert (Hnone : ae_clientID (activeElement v0) = None).
  { destruct (ae_clientID (activeElement v)) as [id|] eqn:Eid.
    - rewrite (deactivate_inactive v v0); [done | by rewrite Eid | done].
    - unfold deactivate, deactivateAttribute, deactivateShape in H.
      rewrite Eid in H. simpl in H. rewrite Eid in H. by injection H as <-. }
  split; [exact Hnone|].
  unfold deactivate, deactivateAttribute, deactivateShape.
  rewrite Hnone. simpl. by rewrite Hnone.
Qed.

Lemma deactivate_twice_witness :
  ae_clientID (activeElement activeRectangle) = Some 1%N /\
  exists v0, deactivate activeRectangle = OK v0 /\
             ae_clientID (activeElement v0) = None /\ deactivate v0 = OK v0.
Proof.
  split; [vm_compute; reflexivity|]. eexists. split; [vm_compute; reflexivity|].
  apply (deactivate_twice activeRectangle). vm_compute. reflexivity.
Defined.

(** An attribute is active only on an active element. *)
Definition wellActive (a : ActiveElement) : Prop :=
  ae_clientID a = None -> ae_attributeID a = None.

Lemma activateShape_active id v v' :
  activateShape id v = OK v' -> activeElement v' = activeElement v.
Proof.
  apply (activateShape_stable (fun _ => True) sameActive); try done.
  unfold sameActive. congruence.
Qed.

Lemma deactivateAttribute_none v :
  ae_attributeID (activeElement v) = None -> deactivateAttribute v = v.
Proof. unfold deactivateAttribute. intros ->. by destruct (ae_clientID _). Qed.

Lemma deactivateAttribute_active v :
  ae_clientID (activeElement v) <> None ->
  ae_clientID (activeElement (deactivateAttribute v)) = ae_clientID (activeElement v) /\
  ae_attributeID (activeElement (deactivateAttribute v)) = None.
Proof.
  unfold deactivateAttribute. intros Hactive.
  destruct (ae_clientID (activeElement v)) as [id|] eqn:Eid; [|by destruct Hactive].
  destruct (ae_attributeID (activeElement v)) as [attr|] eqn:Eattr; [|done].
  simpl. split; [|done]. by destruct (decide (id ∈ svgTexts v)).
Qed.

(** What the three steps of [activate] leave in [activeElement]. *)
Lemma activate_result ae v v' :
  wellActive (activeElement v) ->
  activate ae v = OK v' ->
  ae_clientID (activeElement v') = ae_clientID ae /\
  (ae_attributeID (activeElement v') = None \/
   ae_attributeID (activeElement v') = ae_attributeID ae) /\
  (forall id a, ae_clientID ae = Some id -> ae_attributeID ae = Some a ->
     ae_attributeID (activeElement v') = Some a \/ id ∉ svgTexts v').
Proof.
  intros Hwell H. unfold activate in H. bind_inv H. bind_inv H.
  assert (S1 : (ae_attributeID (activeElement v0) = None \/
                ae_attributeID (activeElement v0) = ae_attributeID ae) /\
               (ae_clientID ae = None -> ae_clientID (activeElement v0) = None) /\
               (ae_clientID (activeElement v0) = None \/
                ae_clientID (activeElement v0) = ae_clientID ae)).
  { destruct (ae_clientID (activeElement v)) as [c|] eqn:Ec.
    - destruct (decide (Some c ≠ ae_clientID ae)) as [Hne|Heq].
      + rewrite (deactivate_inactive v v0); [simpl; auto | by rewrite Ec | done].
      + apply dec_stable in Heq.
        destruct (decide (_ ≠ ae_attributeID ae)) as [Hne|Hsame] in Hv0;
          injection Hv0 as <-.
        * destruct (deactivateAttribute_active v) as [Hc Ha]; [by rewrite Ec|].
          rewrite Hc, Ha, Ec. repeat split; auto. intros Hnone. congruence.
        * apply dec_stable in Hsame. rewrite Ec.
          repeat split; auto. intros Hnone. congruence.
    - injection Hv0 as <-. rewrite Ec. repeat split; auto. }
  destruct S1 as (Sa & Sn & Sc).
  assert (S2 : ae_clientID (activeElement v1) = ae_clientID ae /\
               ae_attributeID (activeElement v1) = ae_attributeID (activeElement v0)).
  { destruct (ae_clientID ae) as [id|] eqn:Eid.
    - destruct (decide (_ ≠ Some id)) as [Hne|Heq] in Hv1.
      + bind_inv Hv1. injection Hv1 as <-. simpl. split; [done|].
        by rewrite (activateShape_active _ _ _ Hv2).
      + apply dec_stable in Heq. by injection Hv1 as <-.
    - injection Hv1 as <-. auto. }
  destruct S2 as (Tc & Ta).
  destruct (ae_clientID ae) as [id|] eqn:Eid;
    [|injection H as <-; rewrite Ta; repeat split; auto; discriminate].
  destruct (ae_attributeID ae) as [a|] eqn:Ea;
    [|injection H as <-; rewrite Ta; repeat split; auto; discriminate].
  destruct (decide (_ ≠ Some a)) as [Hne|Heq] in H; injection H as <-.
  - unfold activateAttribute. destruct (decide (id ∈ svgTexts v1)) as [Hin|Hout]; simpl.
    + repeat split; auto.
    + rewrite Ta. repeat split; auto. intros id' a' [= <-] _. by right.
  - apply dec_stable in Heq. repeat split; auto.
    intros id' a' _ [= <-]. by left.
Qed.

(** X3. When [activate] returns from a view in which an attribute is
    active only on an active element, the requested identifier is the
    active one, and a second [activate] with the same argument returns the
    view as it is: nothing is emitted twice and nothing is dispatched
    again. *)
Theorem activate_twice (ae : ActiveElement) (v v' : CanvasView) :
  wellActive (activeElement v) ->
  activate ae v = OK v' ->
  ae_clientID (activeElement v') = ae_clientID ae /\
  wellActive (activeElement v') /\
  activate ae v' = OK v'.
Proof.
  intros Hwell H.
  destruct (activate_result ae v v' Hwell H) as (C & A & B).
  split; [exact C|]. split.
  { intros Hnone. destruct A as [A|A]; [exact A|].
    unfold activate in H. rewrite C in Hnone. rewrite Hnone in H.
    do 2 bind_inv H. injection H as <-. injection Hv1 as <-.
    destruct (ae_clientID (activeElement v)) as [c|] eqn:Ec.
    - destruct (decide (Some c ≠ None)) as [_|Heq] in Hv0; [|by destruct Heq].
      by rewrite (deactivate_inactive v v0); [| rewrite Ec |].
    - injection Hv0 as <-. by apply Hwell. }
  unfold activate. rewrite C.
  assert (E1 : (match ae_clientID ae with
                | Some _ =>
                    if decide (ae_clientID ae ≠ ae_clientID ae) then deactivate v'
                    else if decide (ae_attributeID (activeElement v') ≠ ae_attributeID ae)
                         then OK (deactivateAttribute v') else OK v'
                | None => OK v'
                end) = OK v').
  { destruct (ae_clientID ae); [|done].
    destruct (decide (_ ≠ _)) as [Hne|_]; [by destruct Hne|].
    destruct (decide (_ ≠ _)) as [Hne|_]; [|done].
    destruct A as [A|A]; [|by destruct Hne]. by rewrite deactivateAttribute_none. }
  rewrite E1. simpl. rewrite C.
  destruct (ae_clientID ae) as [id|] eqn:Eid; [|done].
  destruct (decide (Some id ≠ Some id)) as [Hne|_]; [by destruct Hne|]. simpl.
  destruct (ae_attributeID ae) as [a|] eqn:Ea; [|done].
  destruct (decide (_ ≠ Some a)) as [Hne|_]; [|done].
  destruct (B id a eq_refl eq_refl) as [Hattr|Hout]; [by destruct Hne|].
  unfold activateAttribute. by destruct (decide (id ∈ svgTexts v')).
Qed.

Lemma activate_twice_witness :
  wellActive (activeElement activeRectangle) /\
  exists v',
    activate (mkActive (Some 1%N) (Some 4%N)) activeRectangle = OK v' /\
    activeElement v' = mkActive (Some 1%N) (Some 4%N) /\
    activate (mkActive (Some 1%N) (Some 4%N)) v' = OK v'.
Proof.
  assert (Hwell : wellActive (activeElement activeRectangle))
    by (intros Hnone; vm_compute in Hnone; discriminate).
  split; [exact Hwell|]. eexists. split; [vm_compute; reflexivity|].
  split; [vm_compute; reflexivity|].
  eapply (activate_twice _ activeRectangle); [exact Hwell|]. vm_compute. reflexivity.
Defined.

(** Whatever was active, [activate] records the identifier it is given. *)
Lemma activate_clientID ae v v' :
  activate ae v = OK v' -> ae_clientID (activeElement v') = ae_clientID ae.
Proof.
  intros H. unfold activate in H. bind_inv H. bind_inv H.
  assert (S1 : ae_clientID ae = None -> ae_clientID (activeElement v0) = None).
  { intros Hnone. rewrite Hnone in Hv0.
    destruct (ae_clientID (activeElement v)) as [c|] eqn:Ec.
    - destruct (decide (Some c ≠ None)) as [_|Heq] in Hv0; [|by destruct Heq].
      by rewrite (deactivate_inactive v v0); [| rewrite Ec |].
    - by injection Hv0 as <-. }
  assert (S2 : ae_clientID (activeElement v1) = ae_clientID ae).
  { destruct (ae_clientID ae) as [id|] eqn:Eid.
    - destruct (decide (_ ≠ Some id)) as [Hne|Heq] in Hv1.
      + bind_inv Hv1. by injection Hv1 as <-.
      + apply dec_stable in Heq. by injection Hv1 as <-.
    - injection Hv1 as <-. auto. }
  destruct (ae_clientID ae) as [id|]; [|by injection H as <-].
  destruct (ae_attributeID ae) as [a|]; [|by injection H as <-].
  destruct (decide (_ ≠ Some a)) in H; injection H as <-; [|done].
  unfold activateAttribute. by destruct (decide (id ∈ svgTexts v1)).
Qed.

(** ** Configuration updates *)

(** The fields that only [set_configuration] and the log distinguish. *)
Definition sameScene (v v' : CanvasView) : Prop :=
  svgShapes v' = svgShapes v /\ drawnStates v' = drawnStates v /\
  controller v' = controller v /\ drawHidden v' = drawHidden v /\
  cursor v' = cursor v.

Lemma sameScene_refl v : sameScene v v.
Proof. by repeat split. Qed.

Lemma sameScene_trans v1 v2 v3 : sameScene v1 v2 -> sameScene v2 v3 -> sameScene v1 v3.
Proof.
  intros (A1 & B1 & C1 & D1 & E1) (A2 & B2 & C2 & D2 & E2).
  repeat split; congruence.
Qed.

Lemma configUpdated_sameScene model v v' :
  configUpdated model v = OK v' -> sameScene v v'.
Proof.
  apply (configUpdated_stable sameScene sameScene_refl sameScene_trans);
    intros; by repeat split.
Qed.

Definition sameConfiguration (v v' : CanvasView) : Prop :=
  configuration v' = configuration v /\ activeElement v' = activeElement v.

Lemma sameConfiguration_refl v : sameConfiguration v v.
Proof. by split. Qed.

Lemma sameConfiguration_trans v1 v2 v3 :
  sameConfiguration v1 v2 -> sameConfiguration v2 v3 -> sameConfiguration v1 v3.
Proof. intros [A1 B1] [A2 B2]. split; congruence. Qed.

Lemma addText_sameConfiguration s v : sameConfiguration v (addText s v).
Proof.
  apply (addText_stable (fun _ => True) sameConfiguration
           sameConfiguration_refl sameConfiguration_trans); done.
Qed.

Lemma deleteText_sameConfiguration id v v' :
  deleteText id v = OK v' -> sameConfiguration v v'.
Proof.
  apply (deleteText_stable (fun _ => True) sameConfiguration
           sameConfiguration_refl sameConfiguration_trans); done.
Qed.

Definition sameConfig (v v' : CanvasView) : Prop := configuration v' = configuration v.

Lemma deactivate_sameConfig v v' : deactivate v = OK v' -> sameConfig v v'.
Proof.
  apply (deactivate_stable (fun _ => True) sameConfig); try done.
  unfold sameConfig. congruence.
Qed.

Lemma activate_sameConfig ae v v' : activate ae v = OK v' -> sameConfig v v'.
Proof.
  apply (activate_stable (fun _ => True) sameConfig); try done.
  unfold sameConfig. congruence.
Qed.

(** X4. When a configuration update returns, the view holds the
    configuration of the model; the shapes, the drawn states, the
    controller, the objects hidden for drawing and the cursor are the ones
    it found; and the identifier that was active is active again. *)
Theorem config_update_keeps_the_scene (model : Model) (v v' : CanvasView) :
  configUpdated model v = OK v' ->
  configuration v' = m_configuration model /\
  svgShapes v' = svgShapes v /\ drawnStates v' = drawnStates v /\
  controller v' = controller v /\ drawHidden v' = drawHidden v /\
  cursor v' = cursor v /\
  ae_clientID (activeElement v') = ae_clientID (activeElement v).
Proof.
  intros H.
  destruct (configUpdated_sameScene model v v' H) as (Hs & Hd & Hc & Hh & Hcur).
  repeat (split; [first [assumption | idtac]|]); revgoals.
  - unfold configUpdated in H. do 4 bind_inv H. injection H as <-. simpl.
    by apply activate_clientID in Hv3.
  - unfold configUpdated in H. do 4 bind_inv H. injection H as <-. simpl.
    apply activate_sameConfig in Hv3. rewrite Hv3. clear Hv3 Hv0 Hv1.
    match type of Hv2 with
    | (if _ then forEach ?f ?l ?w else OK ?w) = OK _ =>
        assert (Hstart : configuration w = m_configuration model) by reflexivity;
        assert (Hloop : sameConfiguration w v2);
        [|set (w0 := w) in *; clearbody w0]
    end.
    { destruct (negb (bool_decide _)) in Hv2; [|injection Hv2 as <-; apply sameConfiguration_refl].
      eapply (forEach_rel sameConfiguration sameConfiguration_refl
                sameConfiguration_trans); [|exact Hv2].
      intros id w w' _ Hw. cbv beta in Hw.
      destruct (decide (id ∈ svgTexts w)) in Hw;
        [|injection Hw as <-; apply sameConfiguration_refl].
      bind_inv Hw. injection Hw as <-.
      eapply sameConfiguration_trans; [by eapply deleteText_sameConfiguration|].
      destruct (findState id _); [|apply sameConfiguration_refl].
      eapply sameConfiguration_trans; [apply addText_sameConfiguration | by split]. }
    destruct Hloop as [Hloop _].
    match goal with
    | |- configuration (match _ with Some _ => emit _ ?X | None => _ end) = _ =>
        assert (HX : configuration X = configuration v2)
    end.
    { destruct (_ || _); [|done].
      apply (fold_left_rel sameConfig); [done | unfold sameConfig; congruence |].
      intros i w _. unfold sameConfig. by destruct (decide (i ∈ svgTexts w)). }
    destruct (CSSImageFilter (m_configuration model)); simpl; congruence.
Qed.

(** The labels of all objects are switched on while object 1 is active. *)
Definition allTextModel : Model :=
  mkModel (mkConfiguration true false false "id,label" 14 "auto" 3 5 "" "Label" None None)
    false true.

Definition afterConfigUpdate : CanvasView :=
  match configUpdated allTextModel activeRectangle with
  | OK v => v
  | Throw _ => activeRectangle
  end.

Lemma config_update_keeps_the_scene_witness :
  configUpdated allTextModel activeRectangle = OK afterConfigUpdate /\
  configuration afterConfigUpdate <> configuration activeRectangle /\
  configuration afterConfigUpdate = m_configuration allTextModel /\
  drawnStates afterConfigUpdate = drawnStates activeRectangle /\
  ae_clientID (activeElement afterConfigUpdate) = Some 1%N.
Proof.
  assert (Hpass : configUpdated allTextModel activeRectangle = OK afterConfigUpdate)
    by (vm_compute; reflexivity).
  destruct (config_update_keeps_the_scene allTextModel activeRectangle
              afterConfigUpdate Hpass) as (Hconf & _ & Hdrawn & _ & _ & _ & Hactive).
  split; [exact Hpass|]. split; [|split; [exact Hconf|split; [exact Hdrawn|]]].
  - rewrite Hconf. intros Heq. apply (f_equal displayAllText) in Heq.
    vm_compute in Heq. discriminate.
  - rewrite Hactive. vm_compute. reflexivity.
Defined.

(** ** Adding and deleting one object *)

Lemma saveState_shapeType s : shapeType (saveState s) = shapeType s.
Proof. by destruct s. Qed.

Lemma deleteText_plain id v :
  (forall d, drawnStates v !! id = Some d -> shapeType d <> Skeleton) ->
  deleteText id v =
  OK (if decide (id ∈ svgTexts v)
      then emit (DOM (RemoveText id)) (set_svgTexts (svgTexts v ∖ {[id]}) v)
      else v).
Proof.
  intros Hplain. unfold deleteText. cbn [deleteText_rec].
  destruct (decide (id ∈ svgTexts v)); simpl;
    (destruct (drawnStates v !! id) as [d|] eqn:Ed; [|done]);
    (destruct (decide (shapeType d = Skeleton)) as [Hsk|_]; [|done]);
    by destruct (Hplain d eq_refl).
Qed.

(** What [addObject] registers for a shape type other than a skeleton. *)
Lemma addObject_plain state v :
  shapeType state <> Unsupported -> shapeType state <> Skeleton ->
  svgShapes (addObject state v)
    = <[clientID state := mkShape false]> (svgShapes v) /\
  drawnStates (addObject state v)
    = <[clientID state := saveState state]> (drawnStates v) /\
  svgTexts (addObject state v)
    = (if displayAllText (configuration v)
       then {[clientID state]} ∪ svgTexts v else svgTexts v) /\
  controller (addObject state v) = controller v /\
  configuration (addObject state v) = configuration v /\
  activeElement (addObject state v) = activeElement v /\
  drawHidden (addObject state v) = drawHidden v.
Proof.
  intros Hu Hs. destruct state as [f els].
  unfold addObject, shapeType, clientID in *. simpl in *.
  destruct (f_shapeType f) eqn:Ety; try done; simpl;
    destruct (displayAllText (configuration v)); simpl; rewrite ?Ety; done.
Qed.

Lemma deleteObject_plain state v :
  shapeType state <> Skeleton ->
  (forall d, drawnStates v !! clientID state = Some d -> shapeType d <> Skeleton) ->
  exists v',
    deleteObject state v = OK v' /\
    svgShapes v' = delete (clientID state) (svgShapes v) /\
    drawnStates v' = delete (clientID state) (drawnStates v) /\
    svgTexts v' = svgTexts v ∖ {[clientID state]} /\
    configuration v' = configuration v /\ activeElement v' = activeElement v /\
    drawHidden v' = drawHidden v /\
    ((forall shape, svgShapes v !! clientID state = Some shape ->
        removeListener shape = false) -> controller v' = controller v).
Proof.
  intros Hs Hplain. destruct state as [f els].
  unfold shapeType, clientID in *. cbn [fields] in *. cbn [deleteObject].
  assert (H1 : exists w,
             (if decide (f_clientID f ∈ svgTexts v)
              then deleteText (f_clientID f) v else OK v) = OK w /\
             svgShapes w = svgShapes v /\ drawnStates w = drawnStates v /\
             svgTexts w = svgTexts v ∖ {[f_clientID f]} /\
             configuration w = configuration v /\
             activeElement w = activeElement v /\ drawHidden w = drawHidden v /\
             controller w = controller v).
  { rewrite (deleteText_plain _ _ Hplain).
    destruct (decide (f_clientID f ∈ svgTexts v)) as [Hin|Hout]; eexists; (split; [done|]).
    - by repeat split.
    - repeat split; try done. apply set_eq. intros k.
      rewrite elem_of_difference, elem_of_singleton. split; [|tauto].
      intros Hk. split; [done|]. by intros ->. }
  destruct H1 as (w & -> & A & B & C & D & E & F & G). simpl.
  assert (H2 : (match f_shapeType f with
                | Skeleton =>
                    (fix each (l : list ObjectState) (v : CanvasView) : Result CanvasView :=
                       match l with
                       | [] => OK v
                       | element :: l' => v' <~ deleteObject element v ;; each l' v'
                       end) els w
                | _ => OK w
                end) = OK w) by (by destruct (f_shapeType f)).
  rewrite H2. simpl. eexists. split; [reflexivity|].
  rewrite <- A, <- B, <- C, <- D, <- E, <- F, <- G. clear.
  destruct (svgShapes w !! f_clientID f) as [shape|] eqn:Eshape.
  - destruct (removeListener shape) eqn:Erl; simpl;
      (destruct (decide (_ ∈ dom _)) as [Hin|Hout]; simpl;
       [|apply not_elem_of_dom in Hout; rewrite (delete_id _ _ Hout)]);
      repeat split; try done; intros Hrl; specialize (Hrl shape eq_refl); congruence.
  - rewrite (delete_id _ _ Eshape).
    destruct (decide (_ ∈ dom _)) as [Hin|Hout]; simpl;
      [|apply not_elem_of_dom in Hout; rewrite (delete_id _ _ Hout)];
      by repeat split.
Qed.

(** X5. Adding an object of a shape type other than a skeleton under an
    identifier that the view does not know, and deleting it again, returns
    and restores the shapes, the drawn states and the labels, whether
    labels are displayed for all objects or not; the controller (and with
    it the mode), the configuration, the active element and the objects
    hidden for drawing are untouched. *)
Theorem add_then_delete (state : ObjectState) (v : CanvasView) :
  shapeType state <> Unsupported -> shapeType state <> Skeleton ->
  svgShapes v !! clientID state = None ->
  drawnStates v !! clientID state = None ->
  clientID state ∉ svgTexts v ->
  exists v',
    deleteObject state (addObject state v) = OK v' /\
    svgShapes v' = svgShapes v /\ drawnStates v' = drawnStates v /\
    svgTexts v' = svgTexts v /\ controller v' = controller v /\
    configuration v' = configuration v /\ activeElement v' = activeElement v /\
    drawHidden v' = drawHidden v.
Proof.
  intros Hu Hs Hshape Hdrawn Htext.
  destruct (addObject_plain state v Hu Hs) as (A & B & C & D & E & F & G).
  destruct (deleteObject_plain state (addObject state v) Hs)
    as (v' & Hv' & A' & B' & C' & E' & F' & G' & D').
  { intros d. rewrite B, lookup_insert_eq. intros [= <-].
    by rewrite saveState_shapeType. }
  exists v'. split; [exact Hv'|].
  rewrite A', B', C', E', F', G', A, B, C, E, F, G.
  rewrite !delete_insert_id by assumption. repeat split.
  - apply set_eq. intros k. destruct (displayAllText (configuration v));
      rewrite elem_of_difference, ?elem_of_union, elem_of_singleton;
      split; try tauto; intros Hk; (split; [tauto|]); by intros ->.
  - rewrite D'; [exact D|]. intros shape. rewrite A, lookup_insert_eq.
    by intros [= <-].
Qed.

(** Object 2 is a polygon that the view does not know. *)
Definition polygon2 : ObjectState := sampleState 2 Polygon [0; 0; 4; 0; 4; 4]%Z 1.

Lemma add_then_delete_witness :
  displayAllText (configuration afterConfigUpdate) = true /\
  exists v',
    deleteObject polygon2 (addObject polygon2 afterConfigUpdate) = OK v' /\
    svgShapes v' = svgShapes afterConfigUpdate /\
    drawnStates v' = drawnStates afterConfigUpdate /\
    svgTexts v' = svgTexts afterConfigUpdate.
Proof.
  split; [vm_compute; reflexivity|].
  destruct (add_then_delete polygon2 afterConfigUpdate)
    as (v' & Hv' & Hs & Hd & Ht & _).
  - cbv. discriminate.
  - cbv. discriminate.
  - vm_compute. reflexivity.
  - vm_compute. reflexivity.
  - intros H. by vm_compute in H.
  - exists v'. by repeat split.
Defined.

(** ** Patching with nothing to patch *)

Lemma saveState_fields s : fields (saveState s) = fields s.
Proof. by destruct s. Qed.

Lemma changedAttributes_saved state : changedAttributes state (saveState state) = [].
Proof.
  unfold changedAttributes, attributes. rewrite saveState_fields.
  apply elem_of_nil_inv. intros [k a] H. apply list_elem_of_filter in H as [Hne H].
  rewrite merge_sort_Permutation in H. apply elem_of_map_to_list in H. by destruct Hne.
Qed.

Lemma emits_nothing v : emits [] v = v.
Proof. destruct v. unfold emits. simpl. by rewrite app_nil_r. Qed.

Lemma set_drawnStates_same v : set_drawnStates (drawnStates v) v = v.
Proof. by destruct v. Qed.

(** X6. Patching an object with the state that is already saved for it
    changes nothing when the state has no rotation.  With a rotation the
    patch still takes the rotation off the shape and puts it on again, and
    it throws when the view has no shape for the identifier. *)
Theorem unchanged_patch (state : ObjectState) (v : CanvasView) :
  drawnStates v !! clientID state = Some (saveState state) ->
  updateObject state v =
  if truthy (rotation state) then
    match svgShapes v !! clientID state with
    | Some _ => OK (emit (DOM (Rotate (clientID state) (rotation state)))
                      (emit (DOM (Untransform (clientID state))) v))
    | None => Throw TypeError
    end
  else OK v.
Proof.
  intros Hd. unfold updateObject. rewrite Hd.
  unfold hidden, outside, zOrder, occluded, pinned, rotation, pointsOf, labelID,
    descriptions, color, groupID, groupColor in *.
  rewrite !saveState_fields.
  assert (Hb : forall A (x : A) `{EqDecision A}, bool_decide (x = x) = true)
    by (intros; by apply bool_decide_eq_true_2).
  rewrite !eqb_reflx, Z.eqb_refl, !N.eqb_refl, !Hb.
  rewrite changedAttributes_saved. simpl.
  assert (Hsave : forall w, drawnStates w = drawnStates v ->
            set_drawnStates (<[clientID state := saveState state]> (drawnStates w)) w = w).
  { intros w Hw. rewrite Hw, (insert_id _ _ _ Hd), <- Hw. apply set_drawnStates_same. }
  destruct (truthy (f_rotation (fields state))); simpl.
  - destruct (svgShapes v !! clientID state); [|done]. simpl.
    rewrite emits_nothing. destruct (bool_decide _); by rewrite Hsave.
  - rewrite emits_nothing. destruct (bool_decide _); by rewrite Hsave.
Qed.

Lemma unchanged_patch_witness :
  drawnStates afterFirstPass !! clientID rectangle1 = Some (saveState rectangle1) /\
  updateObject rectangle1 afterFirstPass = OK afterFirstPass.
Proof.
  assert (H : drawnStates afterFirstPass !! clientID rectangle1
              = Some (saveState rectangle1)) by (vm_compute; reflexivity).
  split; [exact H|]. rewrite (unchanged_patch rectangle1 afterFirstPass H).
  reflexivity.
Defined.

(** ** Deleting a label *)

(** The elements of a drawn skeleton are not skeletons of the store. *)
Definition flatSkeletons (drawn : gmap N ObjectState) : Prop :=
  forall k d e d',
    drawn !! k = Some d -> shapeType d = Skeleton -> e ∈ elementsOf d ->
    drawn !! clientID e = Some d' -> shapeType d' <> Skeleton.

(** Taking the label of [id] out of the view. *)
Definition withoutText (id : N) (v : CanvasView) : CanvasView :=
  if decide (id ∈ svgTexts v)
  then emit (DOM (RemoveText id)) (set_svgTexts (svgTexts v ∖ {[id]}) v)
  else v.

Lemma withoutText_fields id v :
  drawnStates (withoutText id v) = drawnStates v /\
  svgShapes (withoutText id v) = svgShapes v /\
  controller (withoutText id v) = controller v /\
  activeElement (withoutText id v) = activeElement v /\
  svgTexts (withoutText id v) = svgTexts v ∖ {[id]}.
Proof.
  unfold withoutText. destruct (decide (id ∈ svgTexts v)) as [Hin|Hout]; simpl.
  - by repeat split.
  - repeat split; try done. apply set_eq. intros k.
    rewrite elem_of_difference, elem_of_singleton. split; [|tauto].
    intros Hk. split; [done|]. by intros ->.
Qed.

Lemma deleteText_rec_leaf depth id v :
  (forall d, drawnStates v !! id = Some d -> shapeType d <> Skeleton) ->
  deleteText_rec (S depth) id v = OK (withoutText id v).
Proof.
  intros Hplain. cbn [deleteText_rec]. fold (withoutText id v).
  destruct (withoutText_fields id v) as (Hd & _). rewrite Hd.
  destruct (drawnStates v !! id) as [d|] eqn:Ed; [|done].
  destruct (decide (shapeType d = Skeleton)) as [Hsk|_]; [|done].
  by destruct (Hplain d eq_refl).
Qed.

Lemma deleteText_elements depth (els : list ObjectState) v :
  (forall e d', e ∈ els -> drawnStates v !! clientID e = Some d' ->
     shapeType d' <> Skeleton) ->
  exists v',
    forEach (fun element => deleteText_rec (S depth) (clientID element)) els v = OK v' /\
    drawnStates v' = drawnStates v /\ svgShapes v' = svgShapes v /\
    controller v' = controller v /\ activeElement v' = activeElement v /\
    (forall k, k ∈ svgTexts v' <->
       (k ∈ svgTexts v) /\ (forall e, e ∈ els -> clientID e <> k)).
Proof.
  revert v. induction els as [|x els IH]; intros v Hleaf; cbn [forEach].
  - exists v. do 5 (split; [done|]). intros k. split; [|tauto].
    intros Hk. split; [done|]. intros e He. by apply elem_of_nil in He.
  - rewrite deleteText_rec_leaf by (intros d; apply Hleaf; left). simpl.
    destruct (withoutText_fields (clientID x) v) as (Hd & Hs & Hc & Ha & Ht).
    destruct (IH (withoutText (clientID x) v)) as (v' & Hv' & Hd' & Hs' & Hc' & Ha' & Ht').
    { intros e d' He. rewrite Hd. apply Hleaf. by right. }
    exists v'. split; [exact Hv'|]. do 4 (split; [congruence|]).
    intros k. rewrite Ht', Ht, elem_of_difference, elem_of_singleton. split.
    + intros [[Hk Hne] Hrest]. split; [done|]. intros e He.
      apply elem_of_cons in He as [->|He]; [congruence | by apply Hrest].
    + intros [Hk Hall]. repeat split; [done | |].
      * intros ->. by apply (Hall x); [left|].
      * intros e He. apply Hall. by right.
Qed.

(** X7. In a store where the elements of a skeleton are not skeletons of
    the store, [deleteText] returns: the labels left are those of before
    without the label of the identifier and, when its drawn state is a
    skeleton, without the labels of its elements; the shapes, the drawn
    states, the controller and the active element are untouched. *)
Theorem deleteText_returns (id : N) (v : CanvasView) :
  flatSkeletons (drawnStates v) ->
  exists v',
    deleteText id v = OK v' /\
    drawnStates v' = drawnStates v /\ svgShapes v' = svgShapes v /\
    controller v' = controller v /\ activeElement v' = activeElement v /\
    (forall k, k ∈ svgTexts v' <->
       (k ∈ svgTexts v) /\ k <> id /\
       (forall d e, drawnStates v !! id = Some d -> shapeType d = Skeleton ->
                    e ∈ elementsOf d -> clientID e <> k)).
Proof.
  intros Hflat. unfold deleteText.
  destruct (withoutText_fields id v) as (Hd & Hs & Hc & Ha & Ht).
  destruct (drawnStates v !! id) as [d|] eqn:Ed.
  2: { rewrite deleteText_rec_leaf by (intros d; congruence).
       eexists. split; [reflexivity|]. do 4 (split; [done|]).
       intros k. rewrite Ht, elem_of_difference, elem_of_singleton. split.
       - intros [Hk Hne]. repeat split; try done; intros; congruence.
       - intros (Hk & Hne & _). split; [done|]. congruence. }
  destruct (decide (shapeType d = Skeleton)) as [Hsk|Hsk].
  2: { rewrite deleteText_rec_leaf by (intros d'; congruence).
       eexists. split; [reflexivity|]. do 4 (split; [done|]).
       intros k. rewrite Ht, elem_of_difference, elem_of_singleton. split.
       - intros [Hk Hne]. repeat split; try done. intros d' e [= <-]. done.
       - intros (Hk & Hne & _). split; [done|]. congruence. }
  destruct (size (drawnStates v)) as [|m] eqn:Esize.
  { apply map_size_empty_inv in Esize. rewrite Esize, lookup_empty in Ed. done. }
  cbn [deleteText_rec]. fold (withoutText id v). rewrite Hd, Ed.
  destruct (decide (shapeType d = Skeleton)) as [_|Hne]; [|by destruct Hne].
  destruct (deleteText_elements m (elementsOf d) (withoutText id v))
    as (v' & Hv' & Hd' & Hs' & Hc' & Ha' & Ht').
  { intros e d' He. rewrite Hd. by apply (Hflat id d). }
  exists v'. split; [exact Hv'|]. do 4 (split; [congruence|]).
  intros k. rewrite Ht', Ht, elem_of_difference, elem_of_singleton. split.
  - intros [[Hk Hne] Hrest]. repeat split; [done | congruence |].
    intros d' e [= <-] _ He. by apply Hrest.
  - intros (Hk & Hne & Hall). repeat split; [done | congruence |].
    intros e He. by apply (Hall d e).
Qed.

(** A skeleton with two point elements, drawn with all labels displayed. *)
Definition skeleton3 : ObjectState :=
  State (mkFields 3 Skeleton [] 0 false false false false false 0 1 0
           1 "#ff0000" 0 "#000000" [] ∅)
    [sampleState 4 Points [1; 1]%Z 1; sampleState 5 Points [2; 2]%Z 1].

Definition skeletonView : CanvasView :=
  addObjects [skeleton3]
    (newView allTextModel (sampleController [skeleton3] (mkActive None None))).

Lemma deleteText_returns_witness :
  flatSkeletons (drawnStates skeletonView) /\
  (4%N ∈ svgTexts skeletonView) /\
  exists v', deleteText 3 skeletonView = OK v' /\
             svgShapes v' = svgShapes skeletonView /\
             (4%N ∉ svgTexts v').
Proof.
  assert (Hstore : drawnStates skeletonView = {[3%N := saveState skeleton3]})
    by (vm_compute; reflexivity).
  assert (Hflat : flatSkeletons (drawnStates skeletonView)).
  { rewrite Hstore. intros k d e d' Hk _ He Hd'.
    apply lookup_singleton_Some in Hk as [<- <-].
    apply lookup_singleton_Some in Hd' as [Hid _].
    simpl in He. apply elem_of_cons in He as [->|He]; [discriminate Hid|].
    apply elem_of_cons in He as [->|He]; [discriminate Hid|].
    by apply elem_of_nil in He. }
  split; [exact Hflat|]. split; [by vm_compute|].
  destruct (deleteText_returns 3 skeletonView Hflat) as (v' & Hv' & _ & Hs & _ & _ & Ht).
  exists v'. split; [exact Hv'|]. split; [exact Hs|].
  intros Hin. apply Ht in Hin as (_ & _ & Hall).
  apply (Hall (saveState skeleton3) (sampleState 4 Points [1; 1]%Z 1)).
  - by rewrite Hstore.
  - reflexivity.
  - simpl. left.
  - reflexivity.
Defined.

(** ** A pass over a scene without skeletons *)

(** A polygon or a polyline has at least two points, so that it can be
    given its arrow when it is activated. *)
Definition wellShaped (s : ObjectState) : Prop := shaped s = true.

(** Every drawn state is saved under its identifier, is not a skeleton
    and has the points its shape type needs, and the identifiers that have
    a shape are those that have a drawn state. *)
Definition plainStore (drawn : gmap N ObjectState) : Prop :=
  forall k d, drawn !! k = Some d ->
    clientID d = k /\ shapeType d <> Skeleton /\ wellShaped d.

Definition consistent (v : CanvasView) : Prop :=
  dom (svgShapes v) = dom (drawnStates v) /\ plainStore (drawnStates v).

Definition plainState (s : ObjectState) : Prop :=
  shapeType s <> Unsupported /\ shapeType s <> Skeleton /\ wellShaped s.

Lemma saveState_wellShaped s : wellShaped s -> wellShaped (saveState s).
Proof. by destruct s. Qed.

(** The stores and the active element are left alone. *)
Definition sameStores (v v' : CanvasView) : Prop :=
  svgShapes v' = svgShapes v /\ drawnStates v' = drawnStates v /\
  activeElement v' = activeElement v.

Lemma sameStores_refl v : sameStores v v.
Proof. by repeat split. Qed.

Lemma sameStores_trans v1 v2 v3 : sameStores v1 v2 -> sameStores v2 v3 -> sameStores v1 v3.
Proof. intros (A1 & B1 & C1) (A2 & B2 & C2). repeat split; congruence. Qed.

Lemma sameStores_emit e v : sameStores v (emit e v).
Proof. by repeat split. Qed.

Lemma addText_sameStores s v : sameStores v (addText s v).
Proof.
  apply (addText_stable (fun _ => True) sameStores sameStores_refl sameStores_trans);
    intros; by repeat split.
Qed.

Lemma plainStore_lookup drawn k d :
  plainStore drawn -> drawn !! k = Some d -> shapeType d <> Skeleton.
Proof. intros H Hk. by destruct (H k d Hk) as (_ & ? & _). Qed.

(** [deactivate] returns when the active identifier has a shape and a
    drawn state. *)
Lemma deactivate_returns v :
  consistent v ->
  (forall a, ae_clientID (activeElement v) = Some a -> a ∈ dom (drawnStates v)) ->
  exists v0, deactivate v = OK v0 /\
             svgShapes v0 = svgShapes v /\ drawnStates v0 = drawnStates v /\
             ae_clientID (activeElement v0) = None.
Proof.
  intros [Hdom Hplain] Hactive.
  destruct (ae_clientID (activeElement v)) as [a|] eqn:Ea.
  2: { exists v. unfold deactivate, deactivateAttribute, deactivateShape.
       rewrite Ea. simpl. by rewrite Ea. }
  assert (Hex : exists v0, deactivate v = OK v0).
  { unfold deactivate.
    destruct (deactivateAttribute_active v) as [Hc _]; [by rewrite Ea|].
    assert (Hw : svgShapes (deactivateAttribute v) = svgShapes v /\
                 drawnStates (deactivateAttribute v) = drawnStates v).
    { unfold deactivateAttribute. rewrite Ea.
      destruct (ae_attributeID (activeElement v)); [|done].
      by destruct (decide (a ∈ svgTexts v)). }
    destruct Hw as [Hs Hd]. set (w := deactivateAttribute v) in *. clearbody w.
    unfold deactivateShape. rewrite Hc, Ea, Hs, Hd.
    specialize (Hactive a eq_refl).
    assert (Hshape : a ∈ dom (svgShapes v)) by by rewrite Hdom.
    apply elem_of_dom in Hactive as [d Hd'], Hshape as [shape Hshape].
    rewrite Hshape, Hd'.
    rewrite deleteText_plain.
    2: { intros d0. simpl. rewrite Hd. intros Hd0. by eapply plainStore_lookup. }
    destruct (_ && _); simpl; eauto. }
  destruct Hex as [v0 Hv0]. exists v0. split; [exact Hv0|].
  destruct (deactivate_deactivated v v0 Hv0) as (Hs & Hd & _).
  repeat split; try done.
  rewrite (deactivate_inactive v v0); [done | by rewrite Ea | done].
Qed.

Lemma deleteObject_consistent s v :
  shapeType s <> Skeleton -> consistent v ->
  exists v',
    deleteObject s v = OK v' /\ consistent v' /\
    drawnStates v' = delete (clientID s) (drawnStates v) /\
    activeElement v' = activeElement v.
Proof.
  intros Hs [Hdom Hplain].
  destruct (deleteObject_plain s v Hs) as (v' & Hv' & A & B & _ & _ & E & _).
  { intros d Hd. by eapply plainStore_lookup. }
  exists v'. split; [exact Hv'|]. split; [|by split].
  split.
  - by rewrite A, B, !dom_delete_L, Hdom.
  - intros k d. rewrite B. intros Hk. apply lookup_delete_Some in Hk as [_ Hk].
    by apply Hplain.
Qed.

Lemma deleteObjects_consistent l v :
  (forall s, s ∈ l -> shapeType s <> Skeleton) -> consistent v ->
  exists v',
    deleteObjects l v = OK v' /\ consistent v' /\
    activeElement v' = activeElement v /\
    (forall k, k ∈ dom (drawnStates v') <->
       (k ∈ dom (drawnStates v)) /\ (k ∉ List.map clientID l)).
Proof.
  unfold deleteObjects. revert v.
  induction l as [|x l IH]; intros v Hl Hv; cbn [forEach].
  - exists v. do 3 (split; [done|]). intros k. split; [|tauto].
    intros Hk. split; [done|]. apply not_elem_of_nil.
  - destruct (deleteObject_consistent x v) as (w & -> & Hw & Hd & Ha);
      [apply Hl; left | done |]. simpl.
    destruct (IH w) as (v' & Hv' & Hc & Ha' & Hk); [intros s Hs; apply Hl; by right | done |].
    exists v'. split; [exact Hv'|]. split; [exact Hc|]. split; [congruence|].
    intros k. rewrite Hk, Hd, dom_delete_L, elem_of_difference, elem_of_singleton.
    simpl. rewrite not_elem_of_cons. split; [intros [[? ?] ?]|intros [? [? ?]]]; auto.
Qed.

Lemma addObject_consistent s v :
  plainState s -> consistent v ->
  consistent (addObject s v) /\
  activeElement (addObject s v) = activeElement v /\
  dom (drawnStates (addObject s v)) = {[clientID s]} ∪ dom (drawnStates v).
Proof.
  intros (Hu & Hs & Hw) [Hdom Hplain].
  destruct (addObject_plain s v Hu Hs) as (A & B & _ & _ & _ & F & _).
  split; [split|split; [exact F|]].
  - by rewrite A, B, !dom_insert_L, Hdom.
  - intros k d. rewrite B. intros Hk.
    apply lookup_insert_Some in Hk as [[<- <-]|[_ Hk]]; [|by apply Hplain].
    rewrite saveState_clientID, saveState_shapeType.
    split; [done|]. split; [done|]. by apply saveState_wellShaped.
  - by rewrite B, dom_insert_L.
Qed.

Lemma addObjects_consistent l v :
  (forall s, s ∈ l -> plainState s) -> consistent v ->
  consistent (addObjects l v) /\
  activeElement (addObjects l v) = activeElement v /\
  (forall k, k ∈ dom (drawnStates (addObjects l v)) <->
     (k ∈ dom (drawnStates v)) \/ (k ∈ List.map clientID l)).
Proof.
  unfold addObjects. revert v.
  induction l as [|x l IH]; intros v Hl Hv; cbn [fold_left].
  - do 2 (split; [done|]). intros k. split; [tauto|].
    intros [Hk|Hk]; [done | by apply elem_of_nil in Hk].
  - destruct (addObject_consistent x v) as (Hw & Ha & Hd); [apply Hl; left | done |].
    destruct (IH (addObject x v)) as (Hc & Ha' & Hk);
      [intros s Hs; apply Hl; by right | done |].
    split; [exact Hc|]. split; [congruence|].
    intros k. rewrite Hk, Hd, elem_of_union, elem_of_singleton. simpl.
    rewrite elem_of_cons. tauto.
Qed.

Lemma when_onShape b shape d v :
  exists w, when b (onShape (Some shape) d) v = OK w /\ sameStores v w.
Proof.
  destruct b; simpl; eexists; (split; [reflexivity|]);
    [apply sameStores_emit | apply sameStores_refl].
Qed.

(** The body of [updateObjects] returns when the identifier has a shape
    and a drawn state and no element is active. *)
Lemma updateObject_returns s v shape d :
  svgShapes v !! clientID s = Some shape ->
  drawnStates v !! clientID s = Some d ->
  ae_clientID (activeElement v) = None ->
  exists v',
    updateObject s v = OK v' /\
    svgShapes v' = svgShapes v /\
    drawnStates v' = <[clientID s := saveState s]> (drawnStates v) /\
    activeElement v' = activeElement v.
Proof.
  intros Hshape Hd Hnone. unfold updateObject. rewrite Hd, Hshape.
  (* step 1 *)
  match goal with |- exists v', (x <~ ?r ;; _) = _ /\ _ =>
    assert (H1 : exists w, r = OK w /\ sameStores v w) end.
  { destruct (_ || _); simpl; [|eexists; split; [reflexivity | apply sameStores_refl]].
    eexists. split; [reflexivity|].
    destruct (bool_decide _); [|apply sameStores_emit].
    destruct (_ || _ || _); by repeat split. }
  destruct H1 as (w1 & -> & K1). cbn [bind].
  destruct (when_onShape (negb (zOrder d =? zOrder s)%Z) shape
              (SetZOrder (clientID s) (zOrder s)) w1) as (w2 & -> & K2). cbn [bind].
  destruct (when_onShape (negb (eqb (occluded d) (occluded s))) shape
              (SetOccluded (clientID s) (occluded s)) w2) as (w3 & -> & K3). cbn [bind].
  assert (K03 : sameStores v w3)
    by (eapply sameStores_trans; [|exact K3]; eapply sameStores_trans; eauto).
  assert (Hpin : bool_decide (ae_clientID (activeElement w3) ≠ None) = false).
  { apply bool_decide_eq_false. destruct K03 as (_ & _ & ->). rewrite Hnone.
    intros Hne. by apply Hne. }
  rewrite Hpin, andb_false_r. cbn [when bind].
  destruct (when_onShape (truthy (rotation d)) shape
              (Untransform (clientID s)) w3) as (w5 & -> & K5). cbn [bind].
  match goal with |- exists v', (x <~ ?r ;; _) = _ /\ _ =>
    assert (H6 : exists w, r = OK w /\ sameStores w5 w) end.
  { destruct (negb _); simpl; [|eexists; split; [reflexivity | apply sameStores_refl]].
    eexists. split; [reflexivity|]. destruct (_ && _); by repeat split. }
  destruct H6 as (w6 & -> & K6). cbn [bind].
  destruct (when_onShape (truthy (rotation s)) shape
              (Rotate (clientID s) (rotation s)) w6) as (w7 & -> & K7). cbn [bind].
  match goal with |- exists v', (x <~ when ?b (onShape _ ?c) ?E ;; _) = _ /\ _ =>
    assert (K9 : sameStores w7 E);
    [|destruct (when_onShape b shape c E) as (w10 & -> & K10)]
  end.
  { assert (K8 : forall (b1 b2 : bool),
               sameStores w7
                 (if b1
                  then if b2
                       then set_svgTexts
                              ({[clientID s]} ∪ svgTexts
                                 (addText s (emit (DOM (RebuildText (clientID s))) w7)))
                              (addText s (emit (DOM (RebuildText (clientID s))) w7))
                       else w7
                  else if b2
                       then emits (List.map (fun kv : N * string =>
                                     DOM (PatchTextAttribute (clientID s) kv.1 kv.2))
                                     (changedAttributes s d)) w7
                       else w7)).
    { intros [] []; try apply sameStores_refl; [|by repeat split].
      eapply sameStores_trans; [apply sameStores_emit|].
      eapply sameStores_trans; [apply addText_sameStores | by repeat split]. }
    destruct (_ || _) eqn:E1 in |- *; [|apply K8].
    eapply sameStores_trans; [apply K8 | apply sameStores_emit]. }
  cbn [bind]. eexists. split; [reflexivity|].
  assert (K : sameStores v w10).
  { eapply sameStores_trans; [exact K03|]. eapply sameStores_trans; [exact K5|].
    eapply sameStores_trans; [exact K6|]. eapply sameStores_trans; [exact K7|].
    eapply sameStores_trans; eauto. }
  destruct K as (A & B & C). simpl. by rewrite A, B, C.
Qed.

Lemma updateObjects_returns l v :
  consistent v -> ae_clientID (activeElement v) = None ->
  (forall s, s ∈ l -> plainState s /\ clientID s ∈ dom (drawnStates v)) ->
  exists v',
    updateObjects l v = OK v' /\ consistent v' /\
    dom (drawnStates v') = dom (drawnStates v) /\
    activeElement v' = activeElement v.
Proof.
  unfold updateObjects. revert v.
  induction l as [|x l IH]; intros v Hv Hnone Hl; cbn [forEach].
  - by exists v.
  - destruct (Hl x) as [(Hu & Hs & Hw) Hin]; [left|]. destruct Hv as [Hdom Hplain].
    assert (Hshape : clientID x ∈ dom (svgShapes v)) by by rewrite Hdom.
    apply elem_of_dom in Hin as [d Hd], Hshape as [shape Hshape].
    destruct (updateObject_returns x v shape d Hshape Hd Hnone) as (w & -> & A & B & C).
    cbn [bind].
    assert (Hdomw : dom (drawnStates w) = dom (drawnStates v)).
    { rewrite B, dom_insert_L. apply set_eq. intros k.
      rewrite elem_of_union, elem_of_singleton. split; [|tauto].
      intros [->|Hk]; [|done]. apply elem_of_dom. eauto. }
    destruct (IH w) as (v' & Hv' & Hc & Hd' & Ha).
    + split; [by rewrite A, Hdomw|]. intros k d0. rewrite B. intros Hk.
      apply lookup_insert_Some in Hk as [[<- <-]|[_ Hk]]; [|by apply Hplain].
      rewrite saveState_clientID, saveState_shapeType.
      split; [done|]. split; [done|]. by apply saveState_wellShaped.
    + by rewrite C.
    + intros s Hin. rewrite Hdomw. apply Hl. by right.
    + exists v'. split; [exact Hv'|]. split; [exact Hc|]. split; congruence.
Qed.

(** [activateShape] returns when the identifier has a shape, and its
    object and its drawn state have the points their shape type needs. *)
Lemma activateShape_returns id v shape :
  svgShapes v !! id = Some shape ->
  (forall st, st ∈ c_objects (controller v) -> wellShaped st) ->
  (forall d, drawnStates v !! id = Some d -> wellShaped d) ->
  exists v', activateShape id v = OK v' /\ sameStores v v'.
Proof.
  intros Hshape Hobjects Hdrawn. unfold activateShape.
  assert (Hst : forall st, findState id (c_objects (controller v)) = Some st ->
                           wellShaped st).
  { intros st Hfind. apply Hobjects. unfold findState in Hfind.
    apply head_Some_elem_of in Hfind. by apply list_elem_of_filter in Hfind as [_ ?]. }
  revert Hst.
  destruct (findState id (c_objects (controller v))) as [st|];
    [|eexists; split; [reflexivity | apply sameStores_refl]].
  intros Hst. specialize (Hst st eq_refl).
  assert (H1 : exists w,
             (if decide (shapeType st = Points)
              then match svgShapes v !! id with
                   | Some _ => OK (emit (DOM (PointerEvents id (stateIsLocked st v))) v)
                   | None => Throw TypeError
                   end
              else OK v) = OK w /\ sameStores v w).
  { rewrite Hshape. destruct (decide _); eexists; (split; [reflexivity|]);
      [apply sameStores_emit | apply sameStores_refl]. }
  destruct H1 as (w & -> & K). cbn [bind].
  destruct (hidden st || outside st); [by exists w|].
  destruct K as (A & B & C). rewrite A, Hshape.
  match goal with |- context [updateTextPosition id ?w2] =>
    assert (K2 : sameStores w w2) end.
  { destruct (decide (id ∈ svgTexts w)); [apply sameStores_refl|].
    eapply sameStores_trans; [apply addText_sameStores | by repeat split]. }
  match goal with |- context [updateTextPosition id ?w2] =>
    set (w' := w2) in *; clearbody w' end.
  destruct K2 as (A2 & B2 & C2).
  destruct (stateIsLocked st _);
    [eexists; split; [reflexivity|]; repeat split; simpl; congruence|].
  match goal with |- context [showDirection st id ?w2] =>
    assert (Hshow : showDirection st id w2 = OK w2) end.
  { apply showDirection_returns; [exact Hst|]. simpl. rewrite B2, B. exact Hdrawn. }
  rewrite Hshow. cbn [bind]. eexists. split; [reflexivity|].
  repeat split; simpl; congruence.
Qed.

(** [activate] returns from an inactive view when the identifier has a
    shape, and the objects of the controller and the drawn states have the
    points their shape types need. *)
Lemma activate_returns ae v :
  ae_clientID (activeElement v) = None ->
  (forall id, ae_clientID ae = Some id -> id ∈ dom (svgShapes v)) ->
  (forall st, st ∈ c_objects (controller v) -> wellShaped st) ->
  plainStore (drawnStates v) ->
  exists v',
    activate ae v = OK v' /\
    svgShapes v' = svgShapes v /\ drawnStates v' = drawnStates v.
Proof.
  intros Hnone Hshape Hobjects Hplain. unfold activate. rewrite Hnone. cbn [bind].
  rewrite Hnone.
  destruct (ae_clientID ae) as [id|]; [|by exists v].
  destruct (decide (None ≠ Some id)) as [_|Hne]; [|by destruct Hne].
  pose proof (Hshape id eq_refl) as Hin. apply elem_of_dom in Hin as [shape Hs].
  destruct (activateShape_returns id v shape Hs Hobjects) as (w & -> & A & B & C).
  { intros d Hd. by destruct (Hplain id d Hd) as (_ & _ & ?). }
  cbn [bind].
  destruct (ae_attributeID ae) as [a|]; [|by eexists].
  destruct (decide _); [|by eexists].
  eexists. split; [reflexivity|]. unfold activateAttribute. simpl.
  by destruct (decide (id ∈ svgTexts w)).
Qed.

Lemma deleted_ids drawn states k :
  plainStore drawn ->
  k ∈ List.map clientID (deleted_of drawn states) <->
  (k ∈ dom drawn) /\ (k ∉ List.map clientID states).
Proof.
  intros Hplain. rewrite list_elem_of_In, in_map_iff. split.
  - intros (d & <- & Hd). apply list_elem_of_In, elem_of_deleted_of in Hd as (k & Hk & Hd).
    destruct (Hplain k d Hd) as [-> _]. split; [|done]. apply elem_of_dom. eauto.
  - intros [Hk Hout]. apply elem_of_dom in Hk as [d Hd]. exists d. split.
    + by destruct (Hplain k d Hd).
    + apply list_elem_of_In, elem_of_deleted_of. eauto.
Qed.

Lemma created_ids drawn states k :
  k ∈ List.map clientID (created_of drawn states) <->
  (k ∈ List.map clientID states) /\ (k ∉ dom drawn).
Proof.
  unfold created_of. rewrite !list_elem_of_In, !in_map_iff. split.
  - intros (s & <- & Hs). apply list_elem_of_In, list_elem_of_filter in Hs as [Hnone Hs].
    split; [|by apply not_elem_of_dom]. exists s. split; [done|]. by apply list_elem_of_In.
  - intros [(s & <- & Hs) Hout]. exists s. split; [done|].
    apply list_elem_of_In, list_elem_of_filter. split; [by apply not_elem_of_dom|].
    by apply list_elem_of_In.
Qed.



(** * Pure computations of the view *)

(** ** The [points] attribute: [stringifyToCanvas] *)

Lemma append_assoc (s1 s2 s3 : string) : (s1 +:+ s2) +:+ s3 = s1 +:+ (s2 +:+ s3).
Proof.
  induction s1 as [|c s1 IH]; [reflexivity|].
  change (String c ((s1 +:+ s2) +:+ s3) = String c (s1 +:+ s2 +:+ s3)). by f_equal.
Qed.

Lemma append_empty_r (s : string) : s +:+ "" = s.
Proof.
  induction s as [|c s IH]; [reflexivity|].
  change (String c (s +:+ "") = String c s). by f_equal.
Qed.

Section Stringify.
(** What a template literal makes of a number. *)
Variable show : Z -> string.

(** The callback of [reduce], with the index it is given. *)
Definition stringifyStep (acc : string * nat) (val : Z) : string * nat :=
  (if Nat.odd acc.2
   then acc.1 +:+ show val +:+ " "
   else acc.1 +:+ show val +:+ ",",
   S acc.2).

Definition stringifyToCanvas (points : list Z) : string :=
  (fold_left stringifyStep points ("", 0)).1.

(** The coordinates of a list of points, in a row. *)
Definition flatten (ps : list (Z * Z)) : list Z :=
  flat_map (fun p => [p.1; p.2]) ps.

Lemma stringify_from (l : list Z) (acc acc' : string) (n m : nat) :
  Nat.odd n = Nat.odd m ->
  (fold_left stringifyStep l (acc +:+ acc', n)).1
  = acc +:+ (fold_left stringifyStep l (acc', m)).1.
Proof.
  revert acc' n m. induction l as [|x l IH]; intros acc' n m Hnm; simpl; [done|].
  unfold stringifyStep at 2 4. simpl. rewrite Hnm.
  assert (Hs : Nat.odd (S n) = Nat.odd (S m))
    by (rewrite !Nat.odd_succ, <- !Nat.negb_odd; by rewrite Hnm).
  destruct (Nat.odd m); rewrite append_assoc; by apply IH.
Qed.

(** X10. [stringifyToCanvas] writes the coordinates two by two: each pair
    as [x,y] followed by a space, in order; what follows a whole number of
    pairs is written as if it stood alone (a single coordinate left over
    gives [x,]). *)
Theorem stringify_pairs (ps : list (Z * Z)) (rest : list Z) :
  stringifyToCanvas (flatten ps ++ rest)
  = fold_right (fun p s => show p.1 +:+ "," +:+ show p.2 +:+ " " +:+ s)
      (stringifyToCanvas rest) ps.
Proof.
  induction ps as [|[x y] ps IH]; simpl; [done|].
  rewrite <- IH. unfold stringifyToCanvas. simpl.
  unfold stringifyStep at 2 3. simpl.
  rewrite <- (append_empty_r (("" +:+ show x +:+ ",") +:+ show y +:+ " ")).
  rewrite (stringify_from _ _ _ 2 0) by done.
  change ("" +:+ show x +:+ ",") with (show x +:+ ","). by rewrite !append_assoc.
Qed.
End Stringify.

(** ** Removing a point of a polygon: Alt and a click on the point *)

(** [Array.prototype.slice]: a negative index counts from the end, and
    both ends are clamped to the array. *)
Definition sliceIndex (len : Z) (i : Z) : Z :=
  if (i <? 0)%Z then Z.max (len + i) 0 else Z.min i len.

Definition jsSlice {A} (start : Z) (stop : option Z) (l : list A) : list A :=
  let len := Z.of_nat (length l) in
  let k := sliceIndex len start in
  let final := match stop with Some e => sliceIndex len e | None => len end in
  take (Z.to_nat (final - k)) (drop (Z.to_nat k) l).

(** [points.slice(0, pointID * 2).concat(points.slice(pointID * 2 + 2))];
    [pointID] is the result of [indexOf], which is [-1] when the target is
    not among the children. *)
Definition removePoint (pointID : Z) (points : list Z) : list Z :=
  jsSlice 0 (Some (pointID * 2)%Z) points ++ jsSlice (pointID * 2 + 2)%Z None points.

Lemma sliceIndex_inside (len i : Z) : (0 <= i <= len)%Z -> sliceIndex len i = i.
Proof. intros H. unfold sliceIndex. destruct (i <? 0)%Z eqn:E; lia. Qed.

Lemma sliceIndex_beyond (len i : Z) : (0 <= len <= i)%Z -> sliceIndex len i = len.
Proof. intros H. unfold sliceIndex. destruct (i <? 0)%Z eqn:E; lia. Qed.

Lemma jsSlice_prefix {A} (n : nat) (l : list A) :
  n <= length l -> jsSlice 0 (Some (Z.of_nat n)) l = take n l.
Proof.
  intros Hn. unfold jsSlice. rewrite !sliceIndex_inside by lia.
  rewrite drop_0. f_equal. lia.
Qed.

Lemma jsSlice_suffix {A} (n : nat) (l : list A) :
  n <= length l -> jsSlice (Z.of_nat n) None l = drop n l.
Proof.
  intros Hn. unfold jsSlice. rewrite sliceIndex_inside by lia.
  rewrite Nat2Z.id. apply take_ge. rewrite length_drop. lia.
Qed.

(** X11. Removing the point of index [n] takes exactly its two
    coordinates out of the list and keeps the others in order; an index
    past the last point removes nothing; and with [-1], the index of a
    target that is not found, the result is the list without its last
    point followed by the whole list. *)
Theorem removePoint_spec :
  (forall (before after : list Z) (x y : Z) (n : nat),
     length before = 2 * n ->
     removePoint (Z.of_nat n) (before ++ x :: y :: after) = before ++ after) /\
  (forall (points : list Z) (n : nat),
     length points <= 2 * n -> removePoint (Z.of_nat n) points = points) /\
  (forall (points : list Z),
     removePoint (-1) points = take (length points - 2) points ++ points).
Proof.
  split; [|split].
  - intros before after x y n Hlen. unfold removePoint.
    replace (Z.of_nat n * 2)%Z with (Z.of_nat (length before)) by lia.
    replace (Z.of_nat (length before) + 2)%Z with (Z.of_nat (length before + 2)) by lia.
    rewrite jsSlice_prefix, jsSlice_suffix by (rewrite length_app; simpl; lia).
    rewrite take_app_length. f_equal.
    rewrite drop_app_ge by lia.
    replace (length before + 2 - length before) with 2 by lia. done.
  - intros points n Hlen. unfold removePoint, jsSlice.
    rewrite (sliceIndex_inside _ 0), !sliceIndex_beyond by lia.
    rewrite Z.sub_0_r, Z.sub_diag, Nat2Z.id, drop_0, take_ge by lia.
    simpl. by rewrite app_nil_r.
  - intros points. unfold removePoint, jsSlice. simpl.
    rewrite (sliceIndex_inside _ 0) by lia. f_equal.
    + rewrite drop_0. f_equal. unfold sliceIndex. simpl. lia.
    + change (-1 * 2 + 2)%Z with 0%Z. rewrite sliceIndex_inside by lia.
      rewrite drop_0, Z.sub_0_r, Nat2Z.id. by apply take_ge.
Qed.

Lemma removePoint_spec_witness :
  removePoint 1 [0; 0; 4; 0; 4; 4]%Z = [0; 0; 4; 4]%Z.
Proof.
  apply (proj1 removePoint_spec [0; 0]%Z [4; 4]%Z 4%Z 0%Z 1). reflexivity.
Defined.

(** ** The rectangle that wraps a skeleton: [addSkeleton] *)

Definition MAX_SAFE_INTEGER : Z := 2 ^ 53 - 1.
Definition MIN_SAFE_INTEGER : Z := - (2 ^ 53 - 1).

Record Box := mkBox { xtl : Z; ytl : Z; xbr : Z; ybr : Z }.

(** The loop over [state.elements]: an element of shape type points that
    is not outside widens the box to its centre [(cx, cy)].  An element
    with fewer than two coordinates has no centre; the result is [None]
    for the [NaN] that [Math.min] then returns. *)
Definition widen (offset : Z) (box : option Box) (element : ObjectState)
    : option Box :=
  if decide (shapeType element = Points) then
    match translateToCanvas offset (pointsOf element) with
    | cx :: cy :: _ =>
        if outside element then box
        else b ← box;
             Some (mkBox (Z.min (xtl b) cx) (Z.min (ytl b) cy)
                         (Z.max (xbr b) cx) (Z.max (ybr b) cy))
    | _ => if outside element then box else None
    end
  else box.

(** The box of the wrapping rectangle, with [consts.SKELETON_RECT_MARGIN]
    as [margin]. *)
Definition wrappingBox (offset margin : Z) (elements : list ObjectState)
    : option Box :=
  b ← fold_left (widen offset) elements
        (Some (mkBox MAX_SAFE_INTEGER MAX_SAFE_INTEGER
                     MIN_SAFE_INTEGER MIN_SAFE_INTEGER));
  Some (mkBox (xtl b - margin) (ytl b - margin) (xbr b + margin) (ybr b + margin)).

(** The centre of an element is inside the box, margin excluded. *)
Definition inside (margin : Z) (b : Box) (cx cy : Z) : Prop :=
  (xtl b + margin <= cx <= xbr b - margin)%Z /\
  (ytl b + margin <= cy <= ybr b - margin)%Z.

Lemma widen_None offset els : fold_left (widen offset) els None = None.
Proof.
  induction els as [|e els IH]; simpl; [done|].
  replace (widen offset None e) with (@None Box); [exact IH|].
  unfold widen. destruct (decide _); [|done].
  destruct (translateToCanvas offset (pointsOf e)) as [|cx [|cy l]];
    by destruct (outside e).
Qed.

Lemma widen_grows offset els b0 b :
  fold_left (widen offset) els (Some b0) = Some b ->
  (xtl b <= xtl b0)%Z /\ (ytl b <= ytl b0)%Z /\
  (xbr b0 <= xbr b)%Z /\ (ybr b0 <= ybr b)%Z.
Proof.
  revert b0. induction els as [|e els IH]; simpl; intros b0 H.
  - injection H as <-. lia.
  - destruct (widen offset (Some b0) e) as [b1|] eqn:E; [|by rewrite widen_None in H].
    apply IH in H. unfold widen in E. destruct (decide _); [|injection E as <-; lia].
    destruct (translateToCanvas offset (pointsOf e)) as [|cx [|cy l]];
      destruct (outside e); try discriminate; injection E as <-; simpl in *; lia.
Qed.

Lemma widen_covers offset els b0 b e x y rest :
  fold_left (widen offset) els (Some b0) = Some b ->
  e ∈ els -> shapeType e = Points -> outside e = false ->
  pointsOf e = x :: y :: rest ->
  (xtl b <= x + offset <= xbr b)%Z /\ (ytl b <= y + offset <= ybr b)%Z.
Proof.
  revert b0. induction els as [|e' els IH]; simpl; intros b0 H He Hty Hout Hpts.
  - by apply elem_of_nil in He.
  - destruct (widen offset (Some b0) e') as [b1|] eqn:E; [|by rewrite widen_None in H].
    apply elem_of_cons in He as [<-|He]; [|by eapply IH].
    apply widen_grows in H. unfold widen in E.
    rewrite Hpts, Hout in E. simpl in E.
    destruct (decide _); [|done]. injection E as <-. simpl in *. lia.
Qed.

(** X12. When the box of the wrapping rectangle is computed, the centre
    of every element of shape type points that is not outside lies in it,
    at least the margin away from its sides. With no such element the box
    is the initial one widened by the margin, whose sides are in reverse
    order: the rectangle gets a negative width and height. *)
Theorem wrappingBox_encloses (offset margin : Z) (elements : list ObjectState) :
  (forall b e x y rest,
     wrappingBox offset margin elements = Some b ->
     e ∈ elements -> shapeType e = Points -> outside e = false ->
     pointsOf e = x :: y :: rest ->
     inside margin b (x + offset) (y + offset)) /\
  ((forall e, e ∈ elements -> shapeType e <> Points \/ outside e = true) ->
   wrappingBox offset margin elements
   = Some (mkBox (MAX_SAFE_INTEGER - margin) (MAX_SAFE_INTEGER - margin)
                 (MIN_SAFE_INTEGER + margin) (MIN_SAFE_INTEGER + margin))).
Proof.
  split.
  - intros b e x y rest H He Hty Hout Hpts. unfold wrappingBox in H.
    destruct (fold_left _ _ _) as [b0|] eqn:E; [|discriminate].
    injection H as <-. pose proof (widen_covers _ _ _ _ _ _ _ _ E He Hty Hout Hpts).
    unfold inside. simpl. lia.
  - intros Hall. unfold wrappingBox.
    assert (E : forall b0, fold_left (widen offset) elements (Some b0) = Some b0).
    { induction elements as [|e els IH]; intros b0; simpl; [done|].
      replace (widen offset (Some b0) e) with (Some b0).
      - apply IH. intros e' He'. apply Hall. by right.
      - unfold widen. destruct (Hall e) as [Hty|Hout]; [left | |].
        + by destruct (decide _).
        + destruct (decide _); [|done]. rewrite Hout.
          by destruct (translateToCanvas offset (pointsOf e)) as [|cx [|cy l]]. }
    by rewrite E.
Qed.

Lemma wrappingBox_encloses_witness :
  exists b,
    wrappingBox 10 5 (elementsOf skeleton3) = Some b /\
    inside 5 b 11 11 /\ inside 5 b 12 12.
Proof.
  eexists. split; [reflexivity|].
  split.
  - apply (proj1 (wrappingBox_encloses 10 5 (elementsOf skeleton3))
             _ (sampleState 4 Points [1; 1]%Z 1) 1%Z 1%Z []);
      try reflexivity. simpl. left.
  - apply (proj1 (wrappingBox_encloses 10 5 (elementsOf skeleton3))
             _ (sampleState 5 Points [2; 2]%Z 1) 2%Z 2%Z []);
      try reflexivity. simpl. right. left.
Defined.

(** ** The scale of a focused region: [onFocusRegion] *)

Section FocusScale.
Local Open Scope Q_scope.
(** [FrameZoom.MIN] and [FrameZoom.MAX] of the canvas model. *)
Variables zoomMin zoomMax : Q.

(** The scale that [onFocusRegion] computes for a region of the given
    width and height; after an odd number of quarter turns the sides of
    the canvas are exchanged.  This is the scale for a region whose width
    and height are not zero: a division by zero is [Infinity] or [NaN] in
    the code and [0] in [Q], so for a side of length zero the two
    differ. *)
Definition focusScale (angle canvasWidth canvasHeight width height : Q) : Q :=
  if truthy (jsRem (angle / 90) 2)
  then Qmin (Qmax (Qmin (canvasWidth / height) (canvasHeight / width)) zoomMin) zoomMax
  else Qmin (Qmax (Qmin (canvasWidth / width) (canvasHeight / height)) zoomMin) zoomMax.

Lemma clamp_bounds (q : Q) :
  zoomMin <= zoomMax -> zoomMin <= Qmin (Qmax q zoomMin) zoomMax <= zoomMax.
Proof.
  intros H. split.
  - apply Q.min_glb; [apply Q.le_max_r | exact H].
  - apply Q.le_min_r.
Qed.

Lemma clamp_below (q : Q) : zoomMin <= q -> Qmin (Qmax q zoomMin) zoomMax <= q.
Proof.
  intros H. rewrite (Q.max_l q zoomMin) by exact H. apply Q.le_min_l.
Qed.

End FocusScale.


(** ** Resizing a skeleton: the [resizing] listener of the wrapping rectangle *)

Section SkeletonResize.
Local Open Scope Q_scope.

(** A circle of the skeleton: the element it stands for and its centre. *)
Record Circle := mkCircle { circle_clientID : N; circle_cx : Q; circle_cy : Q }.

(** The sides that the wrapping rectangle remembers in its [data-]
    attributes. *)
Record Sides := mkSides { s_xtl : Q; s_ytl : Q; s_xbr : Q; s_ybr : Q }.

(** One circle: the circle of a locked element stays, the others keep
    their relative position in the rectangle.  An element that
    [state.elements.find] does not find has no [lock] to read. *)
Definition resizeCircle (elements : list ObjectState) (prev : Sides)
    (x y width height : Q) (c : Circle) : Result Circle :=
  match findState (circle_clientID c) elements with
  | None => Throw TypeError
  | Some el =>
      if lock el then OK c
      else
        let offsetX := (circle_cx c - s_xtl prev) / (s_xbr prev - s_xtl prev) in
        let offsetY := (circle_cy c - s_ytl prev) / (s_ybr prev - s_ytl prev) in
        OK (mkCircle (circle_clientID c) (offsetX * width + x) (offsetY * height + y))
  end.

Fixpoint resizeCircles (elements : list ObjectState) (prev : Sides)
    (x y width height : Q) (circles : list Circle) : Result (list Circle) :=
  match circles with
  | [] => OK []
  | c :: rest =>
      c' <~ resizeCircle elements prev x y width height c ;;
      rest' <~ resizeCircles elements prev x y width height rest ;;
      OK (c' :: rest')
  end.

(** The listener: nothing happens while the remembered rectangle is
    thinner than [0.1]; otherwise the circles move and the new sides are
    remembered. *)
Definition resizing (elements : list ObjectState) (prev : Sides)
    (x y width height : Q) (circles : list Circle)
    : Result (list Circle * Sides) :=
  if Qlt_le_dec (s_xbr prev - s_xtl prev) (1 # 10) then OK (circles, prev)
  else if Qlt_le_dec (s_ybr prev - s_ytl prev) (1 # 10) then OK (circles, prev)
  else
    circles' <~ resizeCircles elements prev x y width height circles ;;
    OK (circles', mkSides x y (x + width) (y + height)).

Definition within (s : Sides) (c : Circle) : Prop :=
  s_xtl s <= circle_cx c <= s_xbr s /\ s_ytl s <= circle_cy c <= s_ybr s.

Lemma rescale_inside (tl br c x w : Q) :
  1 # 10 <= br - tl -> 0 <= w -> tl <= c <= br ->
  x <= (c - tl) / (br - tl) * w + x <= x + w.
Proof.
  intros Hthin Hw [Hl Hr].
  assert (Hpos : 0 < br - tl) by lra.
  assert (H0 : 0 <= (c - tl) / (br - tl)).
  { apply Qle_shift_div_l; [done|]. lra. }
  assert (H1 : (c - tl) / (br - tl) <= 1).
  { apply Qle_shift_div_r; [done|]. lra. }
  split.
  - pose proof (Qmult_le_0_compat _ _ H0 Hw). lra.
  - assert (H2 : (c - tl) / (br - tl) * w <= 1 * w) by (by apply Qmult_le_compat_r).
    lra.
Qed.

Lemma rescale_same (tl br c : Q) :
  1 # 10 <= br - tl -> (c - tl) / (br - tl) * (br - tl) + tl == c.
Proof. intros H. field. lra. Qed.

(** How a circle and its image are related. *)
Definition resized (elements : list ObjectState) (prev : Sides)
    (x y width height : Q) (c c' : Circle) : Prop :=
  circle_clientID c' = circle_clientID c /\
  exists el, findState (circle_clientID c) elements = Some el /\
    if lock el then c' = c
    else (0 <= width -> 0 <= height -> within prev c ->
          within (mkSides x y (x + width) (y + height)) c') /\
         (x == s_xtl prev -> width == s_xbr prev - s_xtl prev ->
          circle_cx c' == circle_cx c) /\
         (y == s_ytl prev -> height == s_ybr prev - s_ytl prev ->
          circle_cy c' == circle_cy c).

End SkeletonResize.


(** ** The regions of issues: [setupIssueRegions] *)

Section IssueRegions.
(** What a template literal makes of a number, and the offset of the
    geometry. *)
Variable show : Z -> string.
Variable offset : Z.

(** A value of the argument [issueRegions]. *)
Record IssueRegion := mkIssueRegion {
  ir_hidden : bool;
  ir_points : list Z
}.

(** The element drawn for a region: a circle with its centre or a polygon
    with its [points] attribute, the number at the end of its [id], and
    whether [display: none] was set on it.  Its class, its fill, the
    diameter of the circle and the stroke width are the same for every
    region and are not carried. *)
Inductive IssueFigure :=
| IssueCircle (cx cy : Z)
| IssuePolygon (points : string).

Record DrawnRegion := mkDrawnRegion {
  dr_figure : IssueFigure;
  dr_id : N;
  dr_hidden : bool
}.

(** The body of the second loop, after its [continue]. *)
Definition drawIssueRegion (issueRegion : N) (region : IssueRegion) : DrawnRegion :=
  let points := translateToCanvas offset (ir_points region) in
  let figure :=
    match points with
    | [p0; p1] => IssueCircle p0 p1
    | [p0; p1; p2; p3] =>
        IssuePolygon (stringifyToCanvas show [p0; p1; p2; p1; p2; p3; p0; p3])
    | _ => IssuePolygon (stringifyToCanvas show points)
    end in
  mkDrawnRegion figure issueRegion (ir_hidden region).

(** The body of the first loop: [!(issueRegion in issueRegions) ||
    !+issueRegion]. *)
Definition removeIssueRegion (issueRegions : gmap N IssueRegion)
    (drawn : gmap N DrawnRegion) (issueRegion : N) : gmap N DrawnRegion :=
  if decide (issueRegions !! issueRegion = None \/ issueRegion = 0%N)
  then delete issueRegion drawn
  else drawn.

(** The body of the second loop; its key comes from
    [Object.keys(issueRegions)], so the region is there. *)
Definition addIssueRegion (issueRegions : gmap N IssueRegion)
    (drawn : gmap N DrawnRegion) (issueRegion : N) : gmap N DrawnRegion :=
  if decide (is_Some (drawn !! issueRegion)) then drawn
  else match issueRegions !! issueRegion with
       | Some region => <[issueRegion := drawIssueRegion issueRegion region]> drawn
       | None => drawn
       end.

(** [setupIssueRegions], on [this.drawnIssueRegions]. *)
Definition setupIssueRegions (issueRegions : gmap N IssueRegion)
    (drawnIssueRegions : gmap N DrawnRegion) : gmap N DrawnRegion :=
  let drawn := fold_left (removeIssueRegion issueRegions)
                 (objectKeys drawnIssueRegions) drawnIssueRegions in
  fold_left (addIssueRegion issueRegions) (objectKeys issueRegions) drawn.

Lemma removeIssueRegions_lookup (issueRegions : gmap N IssueRegion)
    (keys : list N) (drawn : gmap N DrawnRegion) (k : N) :
  fold_left (removeIssueRegion issueRegions) keys drawn !! k
  = if decide (k ∈ keys /\ (issueRegions !! k = None \/ k = 0%N))
    then None else drawn !! k.
Proof.
  revert drawn. induction keys as [|x keys IH]; intros drawn; cbn [fold_left].
  - case_decide as H; [|done]. destruct H as [H _]. by apply elem_of_nil in H.
  - rewrite IH. unfold removeIssueRegion.
    destruct (decide (k ∈ keys /\ _)) as [[Hin Hc]|Hn].
    + rewrite decide_True; [done|]. split; [by right|done].
    + destruct (decide (k = x)) as [->|Hne].
      * destruct (decide (issueRegions !! x = None \/ x = 0%N)) as [Hc|Hc].
        -- rewrite lookup_delete_eq, decide_True; [done|]. split; [by left|done].
        -- rewrite decide_False; [done|]. intros [_ ?]. by apply Hc.
      * assert (Hl : (if decide (issueRegions !! x = None \/ x = 0%N)
                      then delete x drawn else drawn) !! k = drawn !! k).
        { destruct (decide (issueRegions !! x = None \/ x = 0%N));
            [by rewrite lookup_delete_ne|done]. }
        rewrite Hl. rewrite decide_False; [done|].
        intros [Hin Hc]. apply elem_of_cons in Hin as [?|Hin]; [done|].
        by apply Hn.
Qed.

Lemma addIssueRegions_lookup (issueRegions : gmap N IssueRegion)
    (keys : list N) (drawn : gmap N DrawnRegion) (k : N) :
  fold_left (addIssueRegion issueRegions) keys drawn !! k
  = match drawn !! k with
    | Some e => Some e
    | None => if decide (k ∈ keys)
              then drawIssueRegion k <$> issueRegions !! k else None
    end.
Proof.
  revert drawn. induction keys as [|x keys IH]; intros drawn; cbn [fold_left].
  - destruct (drawn !! k); [done|]. rewrite decide_False; [done|]. apply not_elem_of_nil.
  - rewrite IH. unfold addIssueRegion.
    destruct (decide (k = x)) as [->|Hne].
    + destruct (decide (is_Some (drawn !! x))) as [[e He]|Hnone].
      * by rewrite He.
      * apply eq_None_not_Some in Hnone. rewrite Hnone.
        rewrite (decide_True (P := x ∈ x :: keys)) by left.
        destruct (issueRegions !! x) as [r|] eqn:Hr; simpl.
        -- by rewrite lookup_insert_eq.
        -- rewrite Hnone. by destruct (decide (x ∈ keys)).
    + assert (Hl : (if decide (is_Some (drawn !! x)) then drawn
                    else match issueRegions !! x with
                         | Some region => <[x := drawIssueRegion x region]> drawn
                         | None => drawn
                         end) !! k = drawn !! k).
      { destruct (decide (is_Some (drawn !! x))); [done|].
        destruct (issueRegions !! x); [by rewrite lookup_insert_ne|done]. }
      rewrite Hl. destruct (drawn !! k); [done|].
      destruct (decide (k ∈ keys)) as [Hin|Hin].
      * rewrite decide_True; [done|]. by right.
      * rewrite decide_False; [done|].
        intros Hin'. apply elem_of_cons in Hin' as [?|?]; done.
Qed.

(** X15. After [setupIssueRegions] the drawn regions are those of the
    argument.  A region that was drawn under a key other than 0 and is
    still in the argument keeps the element drawn before, whatever points
    and [hidden] flag the argument gives it now; the region of key 0, and
    every region not drawn before, is drawn from the argument. *)
Theorem issue_regions_kept_or_drawn (issueRegions : gmap N IssueRegion)
    (drawn : gmap N DrawnRegion) (k : N) :
  setupIssueRegions issueRegions drawn !! k
  = match issueRegions !! k with
    | None => None
    | Some region =>
        match drawn !! k with
        | Some element =>
            if decide (k = 0%N) then Some (drawIssueRegion k region)
            else Some element
        | None => Some (drawIssueRegion k region)
        end
    end.
Proof.
  unfold setupIssueRegions.
  rewrite addIssueRegions_lookup, removeIssueRegions_lookup.
  destruct (issueRegions !! k) as [region|] eqn:Hr.
  - rewrite (decide_True (P := k ∈ objectKeys issueRegions))
      by (apply elem_of_objectKeys, elem_of_dom; eauto).
    simpl. destruct (drawn !! k) as [e|] eqn:Hd.
    + destruct (decide (k = 0%N)) as [->|Hk].
      * rewrite decide_True; [done|]. split; [|by right].
        apply elem_of_objectKeys, elem_of_dom. eauto.
      * rewrite decide_False; [done|]. intros [_ [?|?]]; done.
    + by case_decide.
  - rewrite (decide_False (P := k ∈ objectKeys issueRegions)).
    2: { rewrite elem_of_objectKeys. by apply not_elem_of_dom. }
    case_decide as Hn; [done|].
    destruct (drawn !! k) as [e|] eqn:Hd; [|done].
    exfalso. apply Hn. split; [|by left].
    apply elem_of_objectKeys, elem_of_dom. eauto.
Qed.
End IssueRegions.

(** ** The arrow of a polygon or a polyline: the click listener of
    [showDirection] *)

(** The listener, as a function of the button, of the shape type of the
    state and of the array [points] that the closure holds: the points it
    hands to [pointsToNumberArray] and [onEditDone], if any, and the array
    afterwards ([reverse] works in place, [slice] makes a copy).
    [showDirection] has read the first two points before it installs the
    listener, so the array is not empty. *)
Definition directionClick (button : Z) (shapeType : ShapeType)
    (points : list (Z * Z)) : option (list (Z * Z)) * list (Z * Z) :=
  if (button =? 0)%Z then
    if decide (shapeType = Polygon) then
      let reversedPoints := take 1 points ++ rev (drop 1 points) in
      (Some reversedPoints, points)
    else
      let reversedPoints := rev points in
      (Some reversedPoints, reversedPoints)
  else (None, points).

Lemma rev_lookup {A} (l : list A) (i : nat) :
  (i < length l)%nat -> rev l !! i = l !! (length l - S i)%nat.
Proof. rewrite rev_alt. apply reverse_lookup. Qed.

(** X16. A click with the main button on the arrow reports the points in
    the opposite order, none lost: the point at index [i] of the report is
    the point at index [length - 1 - i] of the array, except that a
    polygon keeps its first point in front and reverses the others.  A
    click on the arrow of the shape with the reported points gives the
    original points back.  A second click on the same arrow reports the same
    points again for a polygon, and the original points for any other
    shape, whose array the first click has reversed in place. *)
Theorem direction_click_twice (shapeType : ShapeType)
    (points reported held : list (Z * Z)) :
  points <> [] ->
  directionClick 0 shapeType points = (Some reported, held) ->
  reported ≡ₚ points
  /\ (forall i : nat, (i < length points)%nat ->
        reported !! i
        = if decide (shapeType = Polygon)
          then (if decide (i = 0%nat) then points !! 0%nat
                else points !! (length points - i)%nat)
          else points !! (length points - S i)%nat)
  /\ (directionClick 0 shapeType reported).1 = Some points
  /\ (directionClick 0 shapeType held).1
     = Some (if decide (shapeType = Polygon) then reported else points)
  /\ (shapeType = Polygon -> head reported = head points).
Proof.
  intros Hne H. unfold directionClick in *. simpl in *.
  destruct (decide (shapeType = Polygon)) as [Hp|Hp];
    injection H as Hr Hh; subst reported held; simpl.
  - destruct points as [|p rest]; [done|]. simpl.
    rewrite !drop_0, rev_involutive.
    split; [constructor; by rewrite <- Permutation_rev|].
    split; [|done].
    intros i Hi. destruct (decide (i = 0%nat)) as [->|Hi0]; [done|].
    destruct i as [|i]; [done|]. simpl.
    rewrite rev_lookup by lia.
    destruct (length rest - i)%nat as [|k] eqn:Hk; [lia|].
    simpl. f_equal. lia.
  - rewrite rev_involutive. split; [by rewrite <- Permutation_rev|].
    split; [|done]. intros i Hi. by apply rev_lookup.
Qed.

(** A triangle: the first click reports the corners with the last two
    exchanged, and a click on the arrow of that triangle gives the first
    order back. *)
Lemma direction_click_twice_witness :
  directionClick 0 Polygon [(0, 0); (4, 0); (4, 4)]%Z
  = (Some [(0, 0); (4, 4); (4, 0)]%Z, [(0, 0); (4, 0); (4, 4)]%Z)
  /\ (directionClick 0 Polygon [(0, 0); (4, 4); (4, 0)]%Z).1
     = Some [(0, 0); (4, 0); (4, 4)]%Z.
Proof.
  split; [reflexivity|].
  destruct (direction_click_twice Polygon [(0, 0); (4, 0); (4, 4)]%Z
              [(0, 0); (4, 4); (4, 0)]%Z [(0, 0); (4, 0); (4, 4)]%Z)
    as (_ & _ & Hback & _); [discriminate|reflexivity|exact Hback].
Defined.

(** ** The order of the children of the content element: [sortObjects] *)

(** A stable sort by a numeric key, as [Array.prototype.sort] with the
    comparator [a[1] - b[1]]: by insertion in front of the first element
    whose key is not smaller. *)
Fixpoint insertBy {A} (key : A -> Z) (x : A) (l : list A) : list A :=
  match l with
  | [] => [x]
  | y :: l' => if (key x <=? key y)%Z then x :: y :: l' else y :: insertBy key x l'
  end.

Fixpoint sortBy {A} (key : A -> Z) (l : list A) : list A :=
  match l with
  | [] => []
  | x :: l' => insertBy key x (sortBy key l')
  end.

Module Content.

(** A child of the content element: its identity, which of the classes
    [cvat_canvas_shape], [cvat_canvas_crosshair] and
    [cvat_interaction_point] it carries, and the number its attribute
    [data-z-order] converts to. *)
Record Child := mkChild {
  ch_id : N;
  ch_shape : bool;
  ch_crosshair : bool;
  ch_interaction : bool;
  ch_zOrder : Z
}.

#[global] Instance Child_eq_dec : EqDecision Child.
Proof. solve_decision. Defined.

Inductive ClassName :=
| cvat_canvas_shape | cvat_canvas_crosshair | cvat_interaction_point.

Definition hasClass (className : ClassName) (c : Child) : bool :=
  match className with
  | cvat_canvas_shape => ch_shape c
  | cvat_canvas_crosshair => ch_crosshair c
  | cvat_interaction_point => ch_interaction c
  end.

(** [Array.from(this.content.getElementsByClassName(...))]: in the order of
    the document. *)
Definition getElementsByClassName (className : ClassName)
    (children : list Child) : list Child :=
  filter (fun c => hasClass className c = true) children.

(** [append] and [appendChild] of one node of the document: the node moves
    to the end. *)
Definition appendChild (children : list Child) (node : Child) : list Child :=
  filter (fun c => c <> node) children ++ [node].

(** [prepend] of nodes of the document: they move to the front, in the
    order given. *)
Definition prepend (nodes children : list Child) : list Child :=
  nodes ++ filter (fun c => c ∉ nodes) children.

(** [sortObjects], on the children of [this.content]. *)
Definition sortObjects (children : list Child) : list Child :=
  let states := (fun state => (state, ch_zOrder state))
                  <$> getElementsByClassName cvat_canvas_shape children in
  let crosshair := getElementsByClassName cvat_canvas_crosshair children in
  let children1 := fold_left appendChild crosshair children in
  let interaction := getElementsByClassName cvat_interaction_point children1 in
  let children2 := fold_left appendChild interaction children1 in
  let needSort :=
    match states with
    | [] => false
    | first :: _ => existsb (fun pair => negb (pair.2 =? first.2)%Z) states
    end in
  if (length states =? 0)%nat || negb needSort then children2
  else
    let sorted := sortBy snd states in
    let children3 := fold_left appendChild sorted.*1 children2 in
    prepend sorted.*1 children3.

(** At most one of the three classes. *)
Definition oneClass (c : Child) : Prop :=
  (Nat.b2n (ch_shape c) + Nat.b2n (ch_crosshair c)
   + Nat.b2n (ch_interaction c) <= 1)%nat.

(** The children that carry none of them. *)
Definition unclassed (children : list Child) : list Child :=
  filter (fun c => ch_shape c = false /\ ch_crosshair c = false
                   /\ ch_interaction c = false) children.

End Content.

Lemma filter_iff_in {A} (P Q : A -> Prop) `{!forall x, Decision (P x)}
    `{!forall x, Decision (Q x)} (l : list A) :
  (forall x, x ∈ l -> (P x <-> Q x)) -> filter P l = filter Q l.
Proof.
  induction l as [|a l IH]; intros Hall; [done|].
  rewrite !filter_cons.
  rewrite IH by (intros x Hx; apply Hall; by right).
  destruct (decide (P a)) as [Hp|Hp], (decide (Q a)) as [Hq|Hq]; try done.
  - exfalso. apply Hq, Hall; [left|done].
  - exfalso. apply Hp, Hall; [left|done].
Qed.

Lemma filter_none {A} (P : A -> Prop) `{!forall x, Decision (P x)} (l : list A) :
  (forall x, x ∈ l -> ~ P x) -> filter P l = [].
Proof.
  induction l as [|a l IH]; intros Hall; [done|].
  rewrite filter_cons_False by (apply Hall; left).
  apply IH. intros x Hx. apply Hall. by right.
Qed.

Lemma filter_all {A} (P : A -> Prop) `{!forall x, Decision (P x)} (l : list A) :
  (forall x, x ∈ l -> P x) -> filter P l = l.
Proof.
  induction l as [|a l IH]; intros Hall; [done|].
  rewrite filter_cons_True by (apply Hall; left).
  f_equal. apply IH. intros x Hx. apply Hall. by right.
Qed.

(** Moving nodes to the end one after the other. *)
Lemma appendChild_all (nodes children : list Content.Child) :
  NoDup nodes ->
  fold_left Content.appendChild nodes children
  = filter (fun c => c ∉ nodes) children ++ nodes.
Proof.
  induction nodes as [|x nodes IH] using rev_ind; intros Hnd.
  - simpl. rewrite app_nil_r. symmetry. apply filter_all.
    intros c _. apply not_elem_of_nil.
  - apply NoDup_app in Hnd as (Hnd & Hx & _).
    rewrite fold_left_app. simpl. rewrite IH by done.
    unfold Content.appendChild. rewrite filter_app, list_filter_filter.
    rewrite (filter_all _ nodes).
    2: { intros c Hc ->. apply (Hx x); [done|left]. }
    rewrite <- !app_assoc. f_equal.
    apply list_filter_iff. intros c. rewrite elem_of_app, list_elem_of_singleton.
    tauto.
Qed.

Lemma insertBy_Permutation {A} (key : A -> Z) (x : A) (l : list A) :
  insertBy key x l ≡ₚ x :: l.
Proof.
  induction l as [|y l IH]; simpl; [done|].
  destruct (key x <=? key y)%Z; [done|].
  rewrite IH. apply Permutation_swap.
Qed.

Lemma sortBy_Permutation {A} (key : A -> Z) (l : list A) : sortBy key l ≡ₚ l.
Proof.
  induction l as [|x l IH]; simpl; [done|].
  by rewrite insertBy_Permutation, IH.
Qed.

Lemma insertBy_Sorted {A} (key : A -> Z) (x : A) (l : list A) :
  Sorted (fun a b => (key a <= key b)%Z) l ->
  Sorted (fun a b => (key a <= key b)%Z) (insertBy key x l).
Proof.
  induction l as [|y l IH]; intros Hs; simpl.
  - by repeat constructor.
  - destruct (key x <=? key y)%Z eqn:Hxy.
    + constructor; [done|]. constructor. lia.
    + apply Sorted_inv in Hs as [Hs Hhd]. constructor; [by apply IH|].
      destruct l as [|z l]; simpl.
      * constructor. lia.
      * destruct (key x <=? key z)%Z eqn:Hxz; constructor; [lia|].
        by apply HdRel_inv in Hhd.
Qed.

Lemma sortBy_Sorted {A} (key : A -> Z) (l : list A) :
  Sorted (fun a b => (key a <= key b)%Z) (sortBy key l).
Proof.
  induction l as [|x l IH]; simpl; [constructor|]. by apply insertBy_Sorted.
Qed.

(** Elements of the same key keep their order. *)
Lemma insertBy_stable {A} (key : A -> Z) (k : Z) (x : A) (l : list A) :
  filter (fun a => key a = k) (insertBy key x l)
  = filter (fun a => key a = k) (x :: l).
Proof.
  induction l as [|y l IH]; simpl; [done|].
  destruct (key x <=? key y)%Z eqn:Hxy; [done|].
  rewrite filter_cons, IH, !filter_cons.
  destruct (decide (key y = k)), (decide (key x = k)); try done. lia.
Qed.

Lemma sortBy_stable {A} (key : A -> Z) (k : Z) (l : list A) :
  filter (fun a => key a = k) (sortBy key l) = filter (fun a => key a = k) l.
Proof.
  induction l as [|x l IH]; simpl; [done|].
  by rewrite insertBy_stable, !filter_cons, IH.
Qed.

(** Sorting the pairs of [sortObjects] sorts the elements. *)
Lemma insertBy_fmap {A} (key : A -> Z) (x : A) (l : list A) :
  insertBy snd (x, key x) ((fun a => (a, key a)) <$> l)
  = (fun a => (a, key a)) <$> insertBy key x l.
Proof.
  induction l as [|y l IH]; [done|].
  rewrite fmap_cons. cbn [insertBy snd].
  destruct (key x <=? key y)%Z; [done|]. by rewrite IH.
Qed.

Lemma sortBy_pairs {A} (key : A -> Z) (l : list A) :
  (sortBy snd ((fun a => (a, key a)) <$> l)).*1 = sortBy key l.
Proof.
  assert (H : sortBy snd ((fun a => (a, key a)) <$> l)
              = (fun a => (a, key a)) <$> sortBy key l).
  { induction l as [|x l IH]; [done|].
    rewrite fmap_cons. cbn [sortBy]. rewrite IH. apply insertBy_fmap. }
  rewrite H, <- list_fmap_compose. apply list_fmap_id.
Qed.

Lemma needSort_spec (shapes : list Content.Child) :
  match (fun state => (state, Content.ch_zOrder state)) <$> shapes with
  | [] => false
  | first :: _ =>
      existsb (fun pair => negb (pair.2 =? first.2)%Z)
        ((fun state => (state, Content.ch_zOrder state)) <$> shapes)
  end = true
  <-> exists a b, a ∈ shapes /\ b ∈ shapes
                  /\ Content.ch_zOrder a <> Content.ch_zOrder b.
Proof.
  destruct shapes as [|s0 rest].
  - simpl. split; [done|]. intros (a & _ & Ha & _). by apply elem_of_nil in Ha.
  - change (existsb (fun pair => negb (pair.2 =? Content.ch_zOrder s0)%Z)
              ((fun state => (state, Content.ch_zOrder state)) <$> s0 :: rest) = true
            <-> exists a b, a ∈ s0 :: rest /\ b ∈ s0 :: rest
                            /\ Content.ch_zOrder a <> Content.ch_zOrder b).
    rewrite existsb_exists. split.
    + intros ([a z] & Hin & Hz). apply list_elem_of_In, list_elem_of_fmap in Hin
        as (a' & Heq & Ha'). injection Heq as -> ->.
      exists a', s0. split; [done|]. split; [left|].
      simpl in Hz. apply negb_true_iff, Z.eqb_neq in Hz. done.
    + intros (a & b & Ha & Hb & Hab).
      destruct (decide (Content.ch_zOrder a = Content.ch_zOrder s0)) as [Heq|Hne].
      * exists (b, Content.ch_zOrder b). split.
        -- apply list_elem_of_In, list_elem_of_fmap. by exists b.
        -- simpl. apply negb_true_iff, Z.eqb_neq. congruence.
      * exists (a, Content.ch_zOrder a). split.
        -- apply list_elem_of_In, list_elem_of_fmap. by exists a.
        -- simpl. by apply negb_true_iff, Z.eqb_neq.
Qed.

Section ContentOrder.
Import Content.
Variable children : list Child.
Hypothesis children_NoDup : NoDup children.
Hypothesis children_oneClass : forall c, c ∈ children -> oneClass c.

Let shapes := getElementsByClassName cvat_canvas_shape children.
Let lines := getElementsByClassName cvat_canvas_crosshair children.
Let circles := getElementsByClassName cvat_interaction_point children.

(** After the two loops of [append]. *)
Lemma crosshair_and_points_last :
  fold_left appendChild
    (getElementsByClassName cvat_interaction_point
       (fold_left appendChild lines children))
    (fold_left appendChild lines children)
  = filter (fun c => ch_crosshair c = false /\ ch_interaction c = false) children
    ++ lines ++ circles.
Proof.
  set (children1 := fold_left appendChild lines children).
  assert (H1 : children1 = filter (fun c => ch_crosshair c = false) children ++ lines).
  { unfold children1. rewrite appendChild_all by by apply NoDup_filter.
    f_equal. apply filter_iff_in. intros c Hc. unfold lines, getElementsByClassName.
    rewrite list_elem_of_filter. simpl. destruct (ch_crosshair c); intuition congruence. }
  assert (H2 : getElementsByClassName cvat_interaction_point children1 = circles).
  { rewrite H1. unfold getElementsByClassName at 1. rewrite filter_app.
    rewrite (filter_none _ lines).
    2: { intros c [Hc Hin]%list_elem_of_filter. simpl in *.
         pose proof (children_oneClass c Hin) as Ho. unfold oneClass in Ho.
         rewrite Hc in Ho. destruct (ch_shape c), (ch_interaction c); simpl in *; try lia.
         all: done. }
    rewrite app_nil_r, list_filter_filter. apply filter_iff_in.
    intros c Hin. simpl. pose proof (children_oneClass c Hin) as Ho. unfold oneClass in Ho.
    destruct (ch_shape c), (ch_crosshair c), (ch_interaction c); simpl in *;
      try lia; intuition congruence. }
  rewrite H2, appendChild_all by by apply NoDup_filter.
  rewrite H1, filter_app, <- app_assoc. f_equal; [|f_equal].
  - rewrite list_filter_filter. apply filter_iff_in. intros c Hin.
    unfold circles, getElementsByClassName. rewrite list_elem_of_filter. simpl.
    destruct (ch_crosshair c), (ch_interaction c); intuition congruence.
  - apply filter_all. intros c [Hc Hin]%list_elem_of_filter.
    unfold circles, getElementsByClassName. rewrite list_elem_of_filter. simpl in *.
    pose proof (children_oneClass c Hin) as Ho. unfold oneClass in Ho.
    rewrite Hc in Ho. destruct (ch_shape c), (ch_interaction c); simpl in *; try lia.
    all: intuition congruence.
Qed.

Lemma elem_of_sorted_shapes (c : Child) :
  c ∈ sortBy ch_zOrder shapes <-> ch_shape c = true /\ c ∈ children.
Proof.
  rewrite sortBy_Permutation. unfold shapes, getElementsByClassName.
  by rewrite list_elem_of_filter.
Qed.

Lemma sortObjects_closed :
  sortObjects children
  = if match (fun state => (state, ch_zOrder state)) <$> shapes with
       | [] => false
       | first :: _ =>
           existsb (fun pair => negb (pair.2 =? first.2)%Z)
             ((fun state => (state, ch_zOrder state)) <$> shapes)
       end
    then sortBy ch_zOrder shapes ++ unclassed children ++ lines ++ circles
    else filter (fun c => ch_crosshair c = false /\ ch_interaction c = false)
           children ++ lines ++ circles.
Proof.
  unfold sortObjects. fold shapes. fold lines.
  rewrite crosshair_and_points_last, sortBy_pairs.
  destruct (match (fun state => (state, ch_zOrder state)) <$> shapes with
            | [] => false
            | first :: _ => _
            end) eqn:Hneed.
  2: by rewrite orb_true_r.
  assert (Hlen : (length ((fun state => (state, ch_zOrder state)) <$> shapes)
                  =? 0)%nat = false).
  { destruct shapes; [done|]. done. }
  rewrite Hlen. cbn [orb negb].
  assert (Hnd : NoDup (sortBy ch_zOrder shapes)).
  { rewrite sortBy_Permutation. by apply NoDup_filter. }
  unfold prepend. rewrite appendChild_all by done. f_equal.
  rewrite filter_app, (filter_none _ (sortBy ch_zOrder shapes)) by tauto.
  rewrite app_nil_r, list_filter_filter, !filter_app. f_equal; [|f_equal].
  - unfold unclassed. rewrite list_filter_filter. apply filter_iff_in.
    intros c Hin. rewrite elem_of_sorted_shapes.
    destruct (ch_shape c); intuition congruence.
  - apply filter_all. intros c [Hc Hin]%list_elem_of_filter.
    rewrite elem_of_sorted_shapes. simpl in Hc.
    pose proof (children_oneClass c Hin) as Ho. unfold oneClass in Ho.
    rewrite Hc in Ho. destruct (ch_shape c); simpl in Ho; [lia|].
    intuition congruence.
  - apply filter_all. intros c [Hc Hin]%list_elem_of_filter.
    rewrite elem_of_sorted_shapes. simpl in Hc.
    pose proof (children_oneClass c Hin) as Ho. unfold oneClass in Ho.
    rewrite Hc in Ho. destruct (ch_shape c); simpl in Ho; [lia|].
    intuition congruence.
Qed.

(** Every child is in one of the four groups. *)
Lemma children_grouped :
  shapes ++ unclassed children ++ lines ++ circles ≡ₚ children.
Proof.
  unfold shapes, lines, circles, unclassed, getElementsByClassName. simpl.
  clear shapes lines circles children_NoDup.
  induction children as [|c l IH]; [done|].
  pose proof (children_oneClass c ltac:(left)) as Ho. unfold oneClass in Ho.
  assert (IH' := IH (fun x Hx => children_oneClass x ltac:(by right))).
  clear IH. rewrite !filter_cons.
  destruct (ch_shape c), (ch_crosshair c), (ch_interaction c); simpl in *; try lia.
  all: rewrite ?app_assoc; rewrite <- ?Permutation_middle; rewrite <- ?app_assoc.
  all: by constructor.
Qed.

Lemma shapes_and_unclassed :
  filter (fun c => ch_crosshair c = false /\ ch_interaction c = false) children
  ≡ₚ shapes ++ unclassed children.
Proof.
  rewrite <- (filter_app_complement (fun c => ch_shape c = true)
                (filter (fun c => ch_crosshair c = false /\ ch_interaction c = false)
                   children)).
  rewrite !list_filter_filter.
  assert (E1 : filter (fun c => ch_shape c = true
                        /\ ch_crosshair c = false /\ ch_interaction c = false) children
               = shapes).
  { apply filter_iff_in. intros c Hin.
    pose proof (children_oneClass c Hin) as Ho. unfold oneClass in Ho. simpl.
    destruct (ch_shape c), (ch_crosshair c), (ch_interaction c); simpl in Ho;
      try lia; intuition congruence. }
  assert (E2 : filter (fun c => ch_shape c <> true
                        /\ ch_crosshair c = false /\ ch_interaction c = false) children
               = unclassed children).
  { apply list_filter_iff. intros c. destruct (ch_shape c); intuition congruence. }
  by rewrite E1, E2.
Qed.
End ContentOrder.

(** X17. [sortObjects] loses and doubles no child of the content, as long
    as the children are distinct and carry at most one of the three
    classes.  Crosshair lines and then interaction points come last, in
    their order.  When the shapes have the same z-order the other children
    keep their order in front of them; otherwise the shapes come first, in
    ascending z-order and those of equal z-order in their former order,
    then the children without a class. *)
Theorem sort_objects_order (children : list Content.Child) :
  NoDup children ->
  (forall c, c ∈ children -> Content.oneClass c) ->
  let shapes := Content.getElementsByClassName Content.cvat_canvas_shape children in
  let above :=
    Content.getElementsByClassName Content.cvat_canvas_crosshair children
    ++ Content.getElementsByClassName Content.cvat_interaction_point children in
  Content.sortObjects children ≡ₚ children
  /\ ((forall a b, a ∈ shapes -> b ∈ shapes ->
         Content.ch_zOrder a = Content.ch_zOrder b) ->
      Content.sortObjects children
      = filter (fun c => Content.ch_crosshair c = false
                         /\ Content.ch_interaction c = false) children ++ above)
  /\ ((exists a b, a ∈ shapes /\ b ∈ shapes
                   /\ Content.ch_zOrder a <> Content.ch_zOrder b) ->
      exists sorted,
        Content.sortObjects children
        = sorted ++ Content.unclassed children ++ above
        /\ sorted ≡ₚ shapes
        /\ Sorted (fun a b => (Content.ch_zOrder a <= Content.ch_zOrder b)%Z) sorted
        /\ forall z, filter (fun c => Content.ch_zOrder c = z) sorted
                     = filter (fun c => Content.ch_zOrder c = z) shapes).
Proof.
  intros Hnd Hone shapes above.
  rewrite (sortObjects_closed children Hnd Hone). fold shapes.
  pose proof (needSort_spec shapes) as Hspec.
  destruct (match (fun state => (state, Content.ch_zOrder state)) <$> shapes with
            | [] => false
            | first :: _ => _
            end) eqn:Hneed.
  - split; [|split].
    + rewrite sortBy_Permutation. by apply children_grouped.
    + intros Hsame. exfalso.
      destruct (proj1 Hspec eq_refl) as (a & b & Ha & Hb & Hab).
      by apply Hab, Hsame.
    + intros _. exists (sortBy Content.ch_zOrder shapes).
      split; [done|]. split; [apply sortBy_Permutation|].
      split; [apply sortBy_Sorted|]. intros z. apply sortBy_stable.
  - split; [|split].
    + rewrite (shapes_and_unclassed children Hone), <- app_assoc.
      by apply children_grouped.
    + done.
    + intros Hdiff. apply Hspec in Hdiff. done.
Qed.

(** A crosshair line, two shapes of z-order 5 around one of z-order 1, a
    child without a class and an interaction point. *)
Definition sampleChildren : list Content.Child :=
  [Content.mkChild 1 false true false 0; Content.mkChild 2 true false false 5;
   Content.mkChild 3 true false false 1; Content.mkChild 4 false false false 0;
   Content.mkChild 5 false false true 0; Content.mkChild 6 true false false 5].

Lemma sort_objects_order_witness :
  Content.ch_id <$> Content.sortObjects sampleChildren = [3; 2; 6; 4; 1; 5]%N
  /\ Content.sortObjects sampleChildren ≡ₚ sampleChildren.
Proof.
  split; [reflexivity|].
  apply (sort_objects_order sampleChildren).
  - apply (bool_decide_unpack _). vm_compute. reflexivity.
  - intros c Hc. unfold Content.oneClass.
    repeat (apply elem_of_cons in Hc as [->|Hc]; [simpl; lia|]).
    by apply elem_of_nil in Hc.
Defined.

(** ** Switching the labels of all objects on *)

(** No label is removed and the drawn states stay. *)
Definition labelsGrow (v v' : CanvasView) : Prop :=
  svgTexts v ⊆ svgTexts v' /\ drawnStates v' = drawnStates v.

Lemma labelsGrow_refl v : labelsGrow v v.
Proof. by split. Qed.

Lemma labelsGrow_trans v1 v2 v3 :
  labelsGrow v1 v2 -> labelsGrow v2 v3 -> labelsGrow v1 v3.
Proof.
  intros [A1 B1] [A2 B2]. split; [|congruence].
  intros i Hi. by apply A2, A1.
Qed.

Lemma labelsGrow_emit e v : labelsGrow v (emit e v).
Proof. by split. Qed.

Lemma labelsGrow_add id v : labelsGrow v (set_svgTexts ({[id]} ∪ svgTexts v) v).
Proof.
  split; [|done]. simpl. intros i Hi. apply elem_of_union. by right.
Qed.

Lemma addText_labelsGrow s v : labelsGrow v (addText s v).
Proof.
  revert v. induction s as [f els IH] using ObjectState_ind. intros v. simpl.
  destruct (f_shapeType f); try apply labelsGrow_emit.
  eapply labelsGrow_trans; [|apply labelsGrow_emit].
  revert v. induction IH as [|e els He _ IHels]; intros v; simpl.
  - apply labelsGrow_refl.
  - eapply labelsGrow_trans; [|apply IHels].
    destruct (decide (clientID e ∈ svgTexts v)); [apply labelsGrow_refl|].
    eapply labelsGrow_trans; [apply He | apply labelsGrow_add].
Qed.

(** The loop that creates the missing labels. *)
Lemma missing_labels_added (keys : list N) (v : CanvasView) :
  let v' := fold_left
              (fun v i =>
                 if decide (i ∈ svgTexts v) then v
                 else match drawnStates v !! i with
                      | Some d => let v' := addText d v in
                                  set_svgTexts ({[i]} ∪ svgTexts v') v'
                      | None => v
                      end) keys v in
  labelsGrow v v'
  /\ forall i, i ∈ keys -> i ∈ dom (drawnStates v) -> i ∈ svgTexts v'.
Proof.
  revert v. induction keys as [|k keys IH]; intros v; cbn [fold_left].
  - split; [apply labelsGrow_refl|]. intros i Hi. by apply elem_of_nil in Hi.
  - set (w := if decide (k ∈ svgTexts v) then v
              else match drawnStates v !! k with
                   | Some d => let v' := addText d v in
                               set_svgTexts ({[k]} ∪ svgTexts v') v'
                   | None => v
                   end).
    assert (Hw : labelsGrow v w /\ (k ∈ dom (drawnStates v) -> k ∈ svgTexts w)).
    { subst w. destruct (decide (k ∈ svgTexts v)) as [Hk|Hk];
        [split; [apply labelsGrow_refl|done]|].
      destruct (drawnStates v !! k) as [d|] eqn:Hd.
      - split.
        + eapply labelsGrow_trans; [apply addText_labelsGrow|apply labelsGrow_add].
        + intros _. simpl. apply elem_of_union. left. by apply elem_of_singleton.
      - split; [apply labelsGrow_refl|]. intros Hin.
        apply elem_of_dom in Hin as [d Hd']. congruence. }
    destruct Hw as [Hg Hk]. destruct (IH w) as [Hg' Hall].
    split; [by eapply labelsGrow_trans|].
    intros i Hi Hdom. apply elem_of_cons in Hi as [->|Hi].
    + apply Hg'. by apply Hk.
    + apply Hall; [done|]. destruct Hg as [_ Hd]. by rewrite Hd.
Qed.

(** While the labels of all objects are on, a deactivation removes none. *)
Lemma deactivate_labelsGrow v v' :
  displayAllText (configuration v) = true ->
  deactivate v = OK v' -> labelsGrow v v'.
Proof.
  intros Hall H. unfold deactivate in H.
  assert (Ha : labelsGrow v (deactivateAttribute v)
               /\ configuration (deactivateAttribute v) = configuration v).
  { unfold deactivateAttribute.
    destruct (ae_clientID (activeElement v)) as [id|]; [|by split].
    destruct (ae_attributeID (activeElement v)) as [attr|]; [|by split].
    by destruct (decide (id ∈ svgTexts v)). }
  destruct Ha as [Hg Hc]. eapply labelsGrow_trans; [exact Hg|].
  rewrite <- Hc in Hall. set (w := deactivateAttribute v) in *. clearbody w.
  unfold deactivateShape in H.
  destruct (ae_clientID (activeElement w)) as [id|];
    [|injection H as <-; apply labelsGrow_refl].
  destruct (svgShapes w !! id); [|discriminate].
  destruct (drawnStates w !! id); [|discriminate].
  simpl in H. rewrite Hall, andb_false_r in H. simpl in H.
  injection H as <-. by split.
Qed.

Lemma activateShape_labelsGrow id v v' :
  activateShape id v = OK v' -> labelsGrow v v'.
Proof.
  intros H. unfold activateShape in H. bind_inv H.
  assert (H0 : labelsGrow v v0).
  { destruct (findState id (c_objects (controller v))) as [st|];
      [|injection Hv0 as <-; apply labelsGrow_refl].
    destruct (decide (shapeType st = Points));
      [|injection Hv0 as <-; apply labelsGrow_refl].
    destruct (svgShapes v !! id); [|discriminate].
    injection Hv0 as <-. apply labelsGrow_emit. }
  eapply labelsGrow_trans; [exact H0|]. clear H0 Hv0.
  destruct (findState id (c_objects (controller v))) as [st|];
    [|injection H as <-; apply labelsGrow_refl].
  destruct (hidden st || outside st); [injection H as <-; apply labelsGrow_refl|].
  set (v2 := if decide (id ∈ svgTexts v0) then v0
             else let w := addText st v0 in
                  set_svgTexts ({[clientID st]} ∪ svgTexts w) w) in *.
  assert (H2 : labelsGrow v0 v2).
  { subst v2. destruct (decide (id ∈ svgTexts v0)); [apply labelsGrow_refl|].
    eapply labelsGrow_trans; [apply addText_labelsGrow|apply labelsGrow_add]. }
  eapply labelsGrow_trans; [exact H2|].
  destruct (stateIsLocked st (updateTextPosition id v2)).
  { injection H as <-. apply labelsGrow_emit. }
  destruct (svgShapes v0 !! id); [|discriminate].
  bind_inv H. apply showDirection_OK in Hv1 as ->. injection H as <-.
  by split.
Qed.

Lemma activate_labelsGrow ae v v' :
  displayAllText (configuration v) = true ->
  activate ae v = OK v' -> labelsGrow v v'.
Proof.
  intros Hall H. unfold activate in H. bind_inv H. bind_inv H.
  assert (H0 : labelsGrow v v0).
  { destruct (ae_clientID (activeElement v)); [|injection Hv0 as <-; apply labelsGrow_refl].
    destruct (decide (_ ≠ _)) in Hv0.
    - by eapply deactivate_labelsGrow.
    - destruct (decide (_ ≠ _)) in Hv0; injection Hv0 as <-; [|apply labelsGrow_refl].
      unfold deactivateAttribute.
      destruct (ae_clientID (activeElement v)) as [id|]; [|by split].
      destruct (ae_attributeID (activeElement v)) as [attr|]; [|by split].
      by destruct (decide (id ∈ svgTexts v)). }
  assert (H1 : labelsGrow v0 v1).
  { destruct (ae_clientID ae) as [id|]; [|injection Hv1 as <-; apply labelsGrow_refl].
    destruct (decide (_ ≠ _)) in Hv1; [|injection Hv1 as <-; apply labelsGrow_refl].
    bind_inv Hv1. injection Hv1 as <-.
    eapply labelsGrow_trans; [by eapply activateShape_labelsGrow|]. by split. }
  eapply labelsGrow_trans; [exact H0|]. eapply labelsGrow_trans; [exact H1|].
  destruct (ae_clientID ae) as [id|]; [|injection H as <-; apply labelsGrow_refl].
  destruct (ae_attributeID ae) as [attr|]; [|injection H as <-; apply labelsGrow_refl].
  destruct (decide (_ ≠ _)) in H; injection H as <-; [|apply labelsGrow_refl].
  unfold activateAttribute. by destruct (decide (id ∈ svgTexts v1)).
Qed.

(** Every drawn object has a label. *)
Definition labelled (v : CanvasView) : Prop :=
  forall i, i ∈ dom (drawnStates v) -> i ∈ svgTexts v.

Lemma labelled_grow v v' : labelled v -> labelsGrow v v' -> labelled v'.
Proof. intros Hl [Hsub Hd] i Hi. rewrite Hd in Hi. by apply Hsub, Hl. Qed.

Lemma labelsGrow_emits es v : labelsGrow v (emits es v).
Proof. by split. Qed.

(** X18. When the configuration of the model switches the labels of all
    objects on and leaves the content of the labels as it is, every drawn
    object has a label once [notify] has handled the update. *)
Theorem all_text_labels_every_object (model : Model) (v v' : CanvasView) :
  displayAllText (m_configuration model) = true ->
  displayAllText (configuration v) = false ->
  textContent (m_configuration model) = textContent (configuration v) ->
  configUpdated model v = OK v' ->
  forall i, i ∈ dom (drawnStates v) -> i ∈ svgTexts v'.
Proof.
  intros Hnew Hold Htext H.
  destruct (configUpdated_sameScene _ _ _ H) as (_ & Hdrawn & _).
  rewrite <- Hdrawn. fold (labelled v'). revert H. clear Hdrawn. intros H.
  unfold configUpdated in H.
  do 4 bind_inv H. injection H as <-.
  pose proof (deactivate_sameConfig _ _ Hv0) as Hc0. unfold sameConfig in Hc0.
  rewrite Hc0, Hnew, Hold in Hv1. cbn [negb andb] in Hv1.
  assert (Hl1 : labelled v1).
  { injection Hv1 as <-.
    match goal with
    | |- labelled (fold_left _ (objectKeys (drawnStates ?X)) ?X) =>
        destruct (missing_labels_added (objectKeys (drawnStates X)) X)
          as [[_ Hd] Hall];
        intros i Hi;
        assert (Hi' : i ∈ dom (drawnStates X)) by (rewrite <- Hd; exact Hi)
    end.
    apply Hall; [by apply elem_of_objectKeys|done]. }
  clear Hv1.
  rewrite Hc0, Htext in Hv2. rewrite bool_decide_eq_true_2 in Hv2 by done.
  cbn [negb] in Hv2. injection Hv2 as <-.
  match type of Hv3 with activate _ ?X = _ => set (v8 := X) in * end.
  assert (Hg8 : labelsGrow v1 v8).
  { subst v8.
    eapply labelsGrow_trans;
      [|destruct (CSSImageFilter _); [apply labelsGrow_emit|apply labelsGrow_refl]].
    assert (Hg5 : labelsGrow v1
              (set_configuration (m_configuration model)
                 match smoothImage (m_configuration model) with
                 | Some b => emit (DOM (SmoothImage b)) v1
                 | None => v1
                 end)) by (destruct (smoothImage _); by split).
    eapply labelsGrow_trans; [exact Hg5|].
    split_if; [|apply labelsGrow_refl].
    apply (fold_left_rel labelsGrow labelsGrow_refl labelsGrow_trans). intros i w _.
    split_if; [apply labelsGrow_emit|apply labelsGrow_refl]. }
  assert (Hfold : forall l w,
            configuration
              (fold_left (fun v i => if decide (i ∈ svgTexts v)
                                     then updateTextPosition i v else v) l w)
            = configuration w).
  { induction l as [|i l IH]; intros w; cbn [fold_left]; [done|].
    rewrite IH. by destruct (decide (i ∈ svgTexts w)). }
  assert (Hc8 : configuration v8 = m_configuration model).
  { subst v8. destruct (CSSImageFilter _); cbn [configuration emit];
      split_if; by rewrite ?Hfold. }
  clearbody v8.
  assert (Hall8 : displayAllText (configuration v8) = true) by (by rewrite Hc8).
  pose proof (activate_labelsGrow _ _ _ Hall8 Hv3) as Hg3.
  eapply labelled_grow; [exact Hl1|].
  eapply labelsGrow_trans; [exact Hg8|].
  eapply labelsGrow_trans; [exact Hg3|]. apply labelsGrow_emits.
Qed.

(** Object 1 is active and has its label; object 2 is drawn without one. *)
Definition twoObjects : CanvasView :=
  match activate (mkActive (Some 1%N) None)
          (addObjects [rectangle1; polygon2]
             (newView sampleModel
                (sampleController [rectangle1; polygon2] (mkActive None None))))
  with
  | OK v => v
  | Throw _ => newView sampleModel (sampleController [] (mkActive None None))
  end.

Definition twoObjectsLabelled : CanvasView :=
  match configUpdated allTextModel twoObjects with
  | OK v => v
  | Throw _ => twoObjects
  end.

Lemma all_text_labels_every_object_witness :
  dom (drawnStates twoObjects) = {[1%N; 2%N]}
  /\ svgTexts twoObjects = {[1%N]}
  /\ configUpdated allTextModel twoObjects = OK twoObjectsLabelled
  /\ 2%N ∈ svgTexts twoObjectsLabelled.
Proof.
  assert (Hpass : configUpdated allTextModel twoObjects = OK twoObjectsLabelled)
    by (vm_compute; reflexivity).
  split; [by vm_compute|]. split; [by vm_compute|]. split; [exact Hpass|].
  apply (all_text_labels_every_object allTextModel twoObjects twoObjectsLabelled);
    [reflexivity|reflexivity|reflexivity|exact Hpass|].
  by vm_compute.
Defined.
